(** * Lisp Badge LE (uLisp 4.6): the object arena, allocator, collector,
      reader, printer and evaluator, embedded from [LispBadgeLE.ino].

    The target is an AVR128DA48/DB48: [int], [unsigned int] and pointers are
    16 bits wide.  A machine word is a [Z] in [0, 65536); signed quantities are
    obtained with [toint], wrap-around is written out with [wrap16].  An
    [object] is the C union seen as its two words [car]/[cdr] (the overlays
    [type]/[name]/[integer]/[chars] are the same two words). *)

From Stdlib Require Import ZArith Bool Ascii String List Lia.
Import ListNotations.
Local Open Scope Z_scope.

(** ** Words *)

Definition wrap16 (z : Z) : Z := z mod 65536.

(** The value of a 16-bit word read as C [int]. *)
Definition toint (w : Z) : Z := if w <? 32768 then w else w - 65536.

Definition INT_MAX : Z := 32767.
Definition INT_MIN : Z := -32768.

(** ** Constants of the source *)

Definition WORKSPACESIZE : Z := 2800.   (* 2800-SDSIZE, sdcardsupport off *)
#[global] Arguments WORKSPACESIZE : simpl never.
Definition BUFFERSIZE : Z := 22.
Definition STACKDIFF : Z := 320.
Definition MARKBIT : Z := 1.
Definition PACKEDS : Z := 17600.
Definition BUILTINS : Z := 64000.
Definition ENDFUNCTIONS : Z := 1536.
Definition TRACEMAX : nat := 3.
Definition NULL : Z := 0.

(* enum type *)
Definition ZZERO : Z := 0.
Definition SYMBOL : Z := 2.
Definition CODE : Z := 4.
Definition NUMBER : Z := 6.
Definition STREAM : Z := 8.
Definition CHARACTER : Z := 10.
Definition ARRAY : Z := 12.
Definition STRING : Z := 14.
Definition PAIR : Z := 16.

(* enum token *)
Definition UNUSED : Z := 0.
Definition BRA : Z := 1.
Definition KET : Z := 2.
Definition QUO : Z := 3.
Definition DOT : Z := 4.

(* enum fntypes_t *)
Definition OTHER_FORMS : Z := 0.
Definition TAIL_FORMS : Z := 1.
Definition FUNCTIONS : Z := 2.
Definition SPECIAL_FORMS : Z := 3.

(* enum flag *)
Definition PRINTREADABLY : Z := 0.
Definition RETURNFLAG : Z := 1.
Definition ESCAPE : Z := 2.
Definition EXITEDITOR : Z := 3.
Definition LIBRARYLOADED : Z := 4.
Definition NOESC : Z := 5.
Definition NOECHO : Z := 6.
Definition MUFFLEERRORS : Z := 7.

(** ** Objects and the workspace *)

Record object : Type := mkobj { car : Z; cdr : Z }.

(** ** The machine state: the globals of the sketch *)

Record machine : Type := mkMachine {
  Workspace : list object;
  Freespace : Z;
  Freelist : Z;
  Context : Z;
  GlobalEnv : Z;
  GCStack : Z;
  LastChar : Z;
  Flags : Z;
  tee : Z;
  TraceFn : list Z;
  TraceDepth : list Z;
  (* characters still to come from the character supplier *)
  Source : list Z;
  (* bytes waiting on the serial line ([Serial.available]/[Serial.read]) *)
  SerialIn : list Z;
  (* number of nested [eval] activations the native stack holds before
     [sp - __bss_end] drops below [STACKDIFF] *)
  StackLimit : nat
}.

Definition with_Workspace (ws : list object) (m : machine) : machine :=
  mkMachine ws (Freespace m) (Freelist m) (Context m) (GlobalEnv m) (GCStack m)
    (LastChar m) (Flags m) (tee m) (TraceFn m) (TraceDepth m) (Source m)
    (SerialIn m) (StackLimit m).
Definition with_Freespace (v : Z) (m : machine) : machine :=
  mkMachine (Workspace m) v (Freelist m) (Context m) (GlobalEnv m) (GCStack m)
    (LastChar m) (Flags m) (tee m) (TraceFn m) (TraceDepth m) (Source m)
    (SerialIn m) (StackLimit m).
Definition with_Freelist (v : Z) (m : machine) : machine :=
  mkMachine (Workspace m) (Freespace m) v (Context m) (GlobalEnv m) (GCStack m)
    (LastChar m) (Flags m) (tee m) (TraceFn m) (TraceDepth m) (Source m)
    (SerialIn m) (StackLimit m).
Definition with_Context (v : Z) (m : machine) : machine :=
  mkMachine (Workspace m) (Freespace m) (Freelist m) v (GlobalEnv m) (GCStack m)
    (LastChar m) (Flags m) (tee m) (TraceFn m) (TraceDepth m) (Source m)
    (SerialIn m) (StackLimit m).
Definition with_GlobalEnv (v : Z) (m : machine) : machine :=
  mkMachine (Workspace m) (Freespace m) (Freelist m) (Context m) v (GCStack m)
    (LastChar m) (Flags m) (tee m) (TraceFn m) (TraceDepth m) (Source m)
    (SerialIn m) (StackLimit m).
Definition with_GCStack (v : Z) (m : machine) : machine :=
  mkMachine (Workspace m) (Freespace m) (Freelist m) (Context m) (GlobalEnv m) v
    (LastChar m) (Flags m) (tee m) (TraceFn m) (TraceDepth m) (Source m)
    (SerialIn m) (StackLimit m).
Definition with_LastChar (v : Z) (m : machine) : machine :=
  mkMachine (Workspace m) (Freespace m) (Freelist m) (Context m) (GlobalEnv m)
    (GCStack m) v (Flags m) (tee m) (TraceFn m) (TraceDepth m) (Source m)
    (SerialIn m) (StackLimit m).
Definition with_Flags (v : Z) (m : machine) : machine :=
  mkMachine (Workspace m) (Freespace m) (Freelist m) (Context m) (GlobalEnv m)
    (GCStack m) (LastChar m) v (tee m) (TraceFn m) (TraceDepth m) (Source m)
    (SerialIn m) (StackLimit m).
Definition with_tee (v : Z) (m : machine) : machine :=
  mkMachine (Workspace m) (Freespace m) (Freelist m) (Context m) (GlobalEnv m)
    (GCStack m) (LastChar m) (Flags m) v (TraceFn m) (TraceDepth m) (Source m)
    (SerialIn m) (StackLimit m).
Definition with_TraceDepth (v : list Z) (m : machine) : machine :=
  mkMachine (Workspace m) (Freespace m) (Freelist m) (Context m) (GlobalEnv m)
    (GCStack m) (LastChar m) (Flags m) (tee m) (TraceFn m) v (Source m)
    (SerialIn m) (StackLimit m).
Definition with_Source (v : list Z) (m : machine) : machine :=
  mkMachine (Workspace m) (Freespace m) (Freelist m) (Context m) (GlobalEnv m)
    (GCStack m) (LastChar m) (Flags m) (tee m) (TraceFn m) (TraceDepth m) v
    (SerialIn m) (StackLimit m).
Definition with_SerialIn (v : list Z) (m : machine) : machine :=
  mkMachine (Workspace m) (Freespace m) (Freelist m) (Context m) (GlobalEnv m)
    (GCStack m) (LastChar m) (Flags m) (tee m) (TraceFn m) (TraceDepth m)
    (Source m) v (StackLimit m).

(* setflag / clrflag / tstflag on the 8-bit [Flags] *)
Definition setflag (x : Z) (m : machine) : machine :=
  with_Flags (Z.lor (Flags m) (Z.shiftl 1 x)) m.
Definition clrflag (x : Z) (m : machine) : machine :=
  with_Flags (Z.land (Flags m) (255 - Z.shiftl 1 x)) m.
Definition tstflag (x : Z) (m : machine) : bool :=
  negb (Z.land (Flags m) (Z.shiftl 1 x) =? 0).

(** ** Outcomes of a call

    A call returns a value ([Done]), leaves through [longjmp] to the error
    handler with the message of [error]/[error2] ([Error]), needs more fuel
    than it was given ([Timeout]), or reaches code that is not embedded
    ([Unmodelled]: device drivers, arrays, streams, machine code).  The text an
    error prints on the serial line is not part of the state. *)

Inductive outcome (A : Type) : Type :=
| Done (a : A) (m : machine)
| Error (msg : string) (m : machine)
| Timeout
| Unmodelled.

Arguments Done {A} a m.
Arguments Error {A} msg m.
Arguments Timeout {A}.
Arguments Unmodelled {A}.

Definition M (A : Type) : Type := machine -> outcome A.

Definition ret {A : Type} (a : A) : M A := fun m => Done a m.

Definition bind {A B : Type} (c : M A) (k : A -> M B) : M B :=
  fun m => match c m with
           | Done a m' => k a m'
           | Error msg m' => Error msg m'
           | Timeout => Timeout
           | Unmodelled => Unmodelled
           end.

Notation "x <- c ;; k" := (bind c (fun x => k))
  (at level 61, c at next level, right associativity).
Notation "c ;;; k" := (bind c (fun _ => k))
  (at level 61, right associativity).

Definition get_machine : M machine := fun m => Done m m.
Definition modify (f : machine -> machine) : M unit := fun m => Done tt (f m).
Definition timeout {A : Type} : M A := fun _ => Timeout.
Definition unmodelled {A : Type} : M A := fun _ => Unmodelled.

(** ** Built-in symbol lookup table

    The name and the [minmax] byte of every entry of [lookup_table] and of
    the extension table [lookup_table2], in the order of the source; the
    handler of an entry is found by its index (see [eval]). *)

Definition lookup_table : list (string * Z) := [
  ("nil", 0);
  ("t", 0);
  ("nothing", 0);
  ("&optional", 0);
  ("*features*", 0);
  (":initial-element", 0);
  (":element-type", 0);
  (":test", 0);
  ("bit", 0);
  ("&rest", 0);
  ("lambda", 15);
  ("let", 15);
  ("let*", 15);
  ("closure", 15);
  ("*p*", 7);
  ("quote", 201);
  ("defun", 215);
  ("defvar", 203);
  ("defcode", 199);
  ("eq", 146);
  ("car", 137);
  ("first", 137);
  ("cdr", 137);
  ("rest", 137);
  ("nth", 146);
  ("aref", 151);
  ("char", 146);
  ("string", 137);
  ("pinmode", 146);
  ("digitalwrite", 146);
  ("analogread", 137);
  ("analogreference", 137);
  ("register", 138);
  ("format", 151);
  ("or", 199);
  ("setq", 215);
  ("loop", 199);
  ("push", 210);
  ("pop", 201);
  ("incf", 202);
  ("decf", 202);
  ("setf", 215);
  ("dolist", 207);
  ("dotimes", 207);
  ("do", 215);
  ("do*", 207);
  ("trace", 193);
  ("untrace", 193);
  ("for-millis", 207);
  ("time", 201);
  ("with-output-to-string", 207);
  ("with-serial", 207);
  ("with-i2c", 207);
  ("with-spi", 207);
  ("with-sd-card", 215);
  ("progn", 71);
  ("if", 83);
  ("cond", 71);
  ("when", 79);
  ("unless", 79);
  ("case", 79);
  ("and", 71);
  ("not", 137);
  ("null", 137);
  ("cons", 146);
  ("atom", 137);
  ("listp", 137);
  ("consp", 137);
  ("symbolp", 137);
  ("arrayp", 137);
  ("boundp", 137);
  ("keywordp", 137);
  ("set", 151);
  ("streamp", 137);
  ("equal", 146);
  ("caar", 137);
  ("cadr", 137);
  ("second", 137);
  ("cdar", 137);
  ("cddr", 137);
  ("caaar", 137);
  ("caadr", 137);
  ("cadar", 137);
  ("caddr", 137);
  ("third", 137);
  ("cdaar", 137);
  ("cdadr", 137);
  ("cddar", 137);
  ("cdddr", 137);
  ("length", 137);
  ("array-dimensions", 137);
  ("list", 135);
  ("copy-list", 137);
  ("make-array", 141);
  ("reverse", 137);
  ("assoc", 148);
  ("member", 148);
  ("apply", 151);
  ("funcall", 143);
  ("append", 135);
  ("mapc", 151);
  ("mapl", 151);
  ("mapcar", 151);
  ("mapcan", 151);
  ("maplist", 151);
  ("mapcon", 151);
  ("+", 135);
  ("-", 143);
  ("*", 135);
  ("/", 151);
  ("truncate", 138);
  ("mod", 146);
  ("1+", 137);
  ("1-", 137);
  ("abs", 137);
  ("random", 137);
  ("max", 143);
  ("min", 143);
  ("/=", 143);
  ("=", 143);
  ("<", 143);
  ("<=", 143);
  (">", 143);
  (">=", 143);
  ("plusp", 137);
  ("minusp", 137);
  ("zerop", 137);
  ("oddp", 137);
  ("evenp", 137);
  ("integerp", 137);
  ("numberp", 137);
  ("char-code", 137);
  ("code-char", 137);
  ("characterp", 137);
  ("stringp", 137);
  ("string=", 146);
  ("string<", 146);
  ("string>", 146);
  ("string/=", 146);
  ("string<=", 146);
  ("string>=", 146);
  ("sort", 146);
  ("concatenate", 143);
  ("subseq", 147);
  ("search", 148);
  ("read-from-string", 137);
  ("princ-to-string", 137);
  ("prin1-to-string", 137);
  ("logand", 135);
  ("logior", 135);
  ("logxor", 135);
  ("lognot", 137);
  ("ash", 146);
  ("logbitp", 146);
  ("eval", 137);
  ("return", 129);
  ("globals", 128);
  ("locals", 128);
  ("makunbound", 137);
  ("break", 128);
  ("read", 129);
  ("prin1", 138);
  ("print", 138);
  ("princ", 138);
  ("terpri", 129);
  ("read-byte", 130);
  ("read-line", 129);
  ("write-byte", 138);
  ("write-string", 138);
  ("write-line", 138);
  ("restart-i2c", 138);
  ("gc", 128);
  ("room", 128);
  ("save-image", 129);
  ("load-image", 129);
  ("cls", 128);
  ("digitalread", 137);
  ("analogreadresolution", 137);
  ("analogwrite", 146);
  ("dacreference", 137);
  ("delay", 137);
  ("millis", 128);
  ("sleep", 129);
  ("note", 131);
  ("edit", 137);
  ("pprint", 138);
  ("pprintall", 129);
  ("require", 137);
  ("list-library", 128);
  ("?", 201);
  ("documentation", 138);
  ("apropos", 137);
  ("apropos-list", 137);
  ("unwind-protect", 199);
  ("ignore-errors", 199);
  ("error", 207);
  ("draw-pixel", 147);
  ("draw-line", 165);
  ("draw-rect", 165);
  ("fill-rect", 165);
  ("draw-circle", 156);
  ("fill-circle", 156);
  ("draw-triangle", 183);
  ("fill-triangle", 183);
  ("glyph-pixel", 155);
  ("fill-screen", 129);
  ("get-pixel", 146);
  ("draw-char", 158);
  ("set-cursor", 146);
  ("plot", 134);
  ("plot3d", 131);
  ("check-key", 137);
  ("keyboard", 137);
  (":shift-key", 0);
  (":meta-key", 0);
  (":led-builtin", 0);
  (":high", 29);
  (":low", 29);
  (":input", 28);
  (":input-pullup", 28);
  (":output", 28);
  (":default", 31);
  (":vdd", 31);
  (":internal1v024", 31);
  (":internal2v048", 31);
  (":internal4v096", 31);
  (":internal2v5", 31);
  (":external", 31);
  (":adc-dac0", 30);
  (":adc-temperature", 30);
  (":porta-dir", 32);
  (":porta-out", 32);
  (":porta-in", 32);
  (":portb-dir", 32);
  (":portb-out", 32);
  (":portb-in", 32);
  (":portc-dir", 32);
  (":portc-out", 32);
  (":portc-in", 32);
  (":portd-dir", 32);
  (":portd-out", 32);
  (":portd-in", 32);
  (":porte-dir", 32);
  (":porte-out", 32);
  (":porte-in", 32);
  (":portf-dir", 32);
  (":portf-out", 32);
  (":portf-in", 32)
]%string.

Definition lookup_table2 : list (string * Z) := [
  ("read-char", 129);
  ("with-kb-raw", 199);
  ("plot-char", 156);
  ("buf-init", 137);
  ("buf-string", 128);
  ("buf-char", 137);
  ("buf-insert", 146);
  ("buf-delete", 137)
]%string.

(* enum builtins *)
Definition NIL : Z := 0.
Definition TEE : Z := 1.
Definition NOTHING : Z := 2.
Definition OPTIONAL : Z := 3.
Definition FEATURES : Z := 4.
Definition INITIALELEMENT : Z := 5.
Definition ELEMENTTYPE : Z := 6.
Definition TEST : Z := 7.
Definition BIT : Z := 8.
Definition AMPREST : Z := 9.
Definition LAMBDA : Z := 10.
Definition LET : Z := 11.
Definition LETSTAR : Z := 12.
Definition CLOSURE : Z := 13.
Definition PSTAR : Z := 14.
Definition QUOTE : Z := 15.
Definition DEFUN : Z := 16.
Definition DEFVAR : Z := 17.
Definition DEFCODE : Z := 18.
Definition EQ : Z := 19.
Definition CAR : Z := 20.
Definition FIRST : Z := 21.
Definition CDR : Z := 22.
Definition REST : Z := 23.
Definition NTH : Z := 24.
Definition AREF : Z := 25.
Definition CHAR : Z := 26.
Definition STRINGFN : Z := 27.
Definition PINMODE : Z := 28.
Definition DIGITALWRITE : Z := 29.
Definition ANALOGREAD : Z := 30.
Definition ANALOGREFERENCE : Z := 31.
Definition REGISTER : Z := 32.
Definition FORMAT : Z := 33.

Section LispBadgeLE.

(** Address the linker gives to [Workspace]; the source fixes only its
    alignment ([OBJECTALIGNED], 4 bytes).  [Workspace[i]] is the address
    [WorkspaceAddr + 4*i]. *)
Variable WorkspaceAddr : Z.

(** ** Addresses *)

Definition cell_addr (i : nat) : Z := WorkspaceAddr + 4 * Z.of_nat i.

Definition cell_index (p : Z) : nat := Z.to_nat ((p - WorkspaceAddr) / 4).

(** [p] is the address of one of the [WORKSPACESIZE] objects. *)
Definition validb (p : Z) : bool :=
  (WorkspaceAddr <=? p) && (p <? WorkspaceAddr + 4 * WORKSPACESIZE)
  && ((p - WorkspaceAddr) mod 4 =? 0).

Definition valid (p : Z) : Prop := validb p = true.

Fixpoint list_update {A : Type} (l : list A) (i : nat) (x : A) : list A :=
  match l, i with
  | [], _ => []
  | _ :: t, O => x :: t
  | h :: t, S j => h :: list_update t j x
  end.

(** Reading and writing through an object pointer.  A pointer that is not the
    address of a workspace object is outside the embedding (in C it is
    undefined behaviour); reads give the zero object and writes are dropped,
    and every theorem below states the validity it needs. *)
Definition getobj (ws : list object) (p : Z) : object :=
  if validb p then nth (cell_index p) ws (mkobj 0 0) else mkobj 0 0.

Definition setobj (ws : list object) (p : Z) (o : object) : list object :=
  if validb p then list_update ws (cell_index p) o else ws.

Definition set_car (ws : list object) (p v : Z) : list object :=
  setobj ws p (mkobj v (cdr (getobj ws p))).

Definition set_cdr (ws : list object) (p v : Z) : list object :=
  setobj ws p (mkobj (car (getobj ws p)) v).

(* #define mark(x) / unmark(x) / marked(x) *)
Definition mark (ws : list object) (x : Z) : list object :=
  set_car ws x (Z.lor (car (getobj ws x)) MARKBIT).

Definition unmark (ws : list object) (x : Z) : list object :=
  set_car ws x (Z.land (car (getobj ws x)) (65535 - MARKBIT)).

Definition marked (ws : list object) (x : Z) : bool :=
  negb (Z.land (car (getobj ws x)) MARKBIT =? 0).

(* x->type: the first word read as unsigned int *)
Definition type_of (ws : list object) (x : Z) : Z := car (getobj ws x).

Definition longnamep (x : Z) : bool := Z.land x 3 =? 0.

Definition longsymbolp (ws : list object) (x : Z) : bool :=
  longnamep (cdr (getobj ws x)).

Definition integerp (ws : list object) (x : Z) : bool :=
  negb (x =? NULL) && (type_of ws x =? NUMBER).
Definition symbolp (ws : list object) (x : Z) : bool :=
  negb (x =? NULL) && (type_of ws x =? SYMBOL).
Definition stringp (ws : list object) (x : Z) : bool :=
  negb (x =? NULL) && (type_of ws x =? STRING).
Definition characterp (ws : list object) (x : Z) : bool :=
  negb (x =? NULL) && (type_of ws x =? CHARACTER).
Definition arrayp (ws : list object) (x : Z) : bool :=
  negb (x =? NULL) && (type_of ws x =? ARRAY).
Definition streamp (ws : list object) (x : Z) : bool :=
  negb (x =? NULL) && (type_of ws x =? STREAM).

Definition consp (ws : list object) (x : Z) : bool :=
  if x =? NULL then false
  else (PAIR <=? type_of ws x) || (type_of ws x =? ZZERO).

Definition listp (ws : list object) (x : Z) : bool :=
  if x =? NULL then true
  else (PAIR <=? type_of ws x) || (type_of ws x =? ZZERO).

(* void errorend (): GCStack = NULL, then longjmp to the handler *)
Definition errorend {A : Type} (msg : string) : M A :=
  fun m => Error msg (with_GCStack NULL m).

(* error2 (string): errorsym2(sym(Context), string) *)
Definition error2 {A : Type} (msg : string) : M A := errorend msg.

(* error (string, symbol): errorsym(sym(Context), string, symbol) *)
Definition error {A : Type} (msg : string) (symbol : Z) : M A := errorend msg.

(** ** Set up workspace; allocator *)

(** [for (int i=n-1; i>=0; i--) body(i)] *)
Fixpoint for_down {S : Type} (n : nat) (body : nat -> S -> S) (s : S) : S :=
  match n with
  | O => s
  | S k => for_down k body (body k s)
  end.

Definition initworkspace_cell (i : nat) (m : machine) : machine :=
  let obj := cell_addr i in
  let ws := set_car (Workspace m) obj NULL in
  let ws := set_cdr ws obj (Freelist m) in
  with_Freespace (wrap16 (Freespace m + 1)) (with_Freelist obj (with_Workspace ws m)).

Definition initworkspace (m : machine) : machine :=
  for_down (Z.to_nat WORKSPACESIZE) initworkspace_cell (with_Freelist NULL m).

Definition myalloc : M Z := fun m =>
  if Freespace m =? 0 then error2 "no room" (with_Context NIL m)
  else
    let temp := Freelist m in
    Done temp (with_Freespace (wrap16 (Freespace m - 1))
                (with_Freelist (cdr (getobj (Workspace m) (Freelist m))) m)).

Definition myfree (obj : Z) (m : machine) : machine :=
  let ws := set_car (Workspace m) obj NULL in
  let ws := set_cdr ws obj (Freelist m) in
  with_Freespace (wrap16 (Freespace m + 1)) (with_Freelist obj (with_Workspace ws m)).

(** ** Garbage collection *)

(** The loop that marks the cells of a string or of a long symbol name. *)
Fixpoint markchain (fuel : nat) (ws : list object) (obj : Z) : option (list object) :=
  match fuel with
  | O => None
  | S fuel' =>
      if obj =? NULL then Some ws
      else
        let arg := car (getobj ws obj) in
        markchain fuel' (mark ws obj) arg
  end.

(** [markobject]: one unit of fuel per pass through the label [MARK]. *)
Fixpoint markobject (fuel : nat) (ws : list object) (obj : Z) : option (list object) :=
  match fuel with
  | O => None
  | S fuel' =>
      if obj =? NULL then Some ws
      else if marked ws obj then Some ws
      else
        let arg := car (getobj ws obj) in
        let type := type_of ws obj in
        let ws1 := mark ws obj in
        if (PAIR <=? type) || (type =? ZZERO) then
          match markobject fuel' ws1 arg with
          | None => None
          | Some ws2 => markobject fuel' ws2 (cdr (getobj ws2 obj))
          end
        else if type =? ARRAY then
          markobject fuel' ws1 (cdr (getobj ws1 obj))
        else if (type =? STRING) || ((type =? SYMBOL) && longsymbolp ws1 obj) then
          markchain fuel' ws1 (cdr (getobj ws1 obj))
        else Some ws1
  end.

Definition sweep_cell (i : nat) (m : machine) : machine :=
  let obj := cell_addr i in
  if negb (marked (Workspace m) obj) then myfree obj m
  else with_Workspace (unmark (Workspace m) obj) m.

Definition sweep (m : machine) : machine :=
  for_down (Z.to_nat WORKSPACESIZE) sweep_cell (with_Freespace 0 (with_Freelist NULL m)).

(** Every pass through [MARK] that does not return marks a cell that was not
    marked, so [WORKSPACESIZE + 1] units of fuel are never used up on a
    well-formed heap (theorem [markobject_total]). *)
Definition mark_fuel : nat := S (Z.to_nat WORKSPACESIZE).

Definition markroots (roots : list Z) (ws : list object) : option (list object) :=
  fold_left (fun acc r => match acc with
                          | None => None
                          | Some w => markobject mark_fuel w r
                          end) roots (Some ws).

Definition gc (form env : Z) (m : machine) : option machine :=
  match markroots [tee m; GlobalEnv m; GCStack m; form; env] (Workspace m) with
  | None => None
  | Some ws => Some (sweep (with_Workspace ws m))
  end.

(** ** Making objects *)

Definition number (n : Z) : M Z :=
  ptr <- myalloc ;;
  modify (fun m => with_Workspace (set_car (Workspace m) ptr NUMBER) m) ;;;
  modify (fun m => with_Workspace (set_cdr (Workspace m) ptr (wrap16 n)) m) ;;;
  ret ptr.

Definition character (c : Z) : M Z :=
  ptr <- myalloc ;;
  modify (fun m => with_Workspace (set_car (Workspace m) ptr CHARACTER) m) ;;;
  modify (fun m => with_Workspace (set_cdr (Workspace m) ptr (c mod 256)) m) ;;;
  ret ptr.

Definition cons (arg1 arg2 : Z) : M Z :=
  ptr <- myalloc ;;
  modify (fun m => with_Workspace (set_car (Workspace m) ptr arg1) m) ;;;
  modify (fun m => with_Workspace (set_cdr (Workspace m) ptr arg2) m) ;;;
  ret ptr.

Definition symbol (name : Z) : M Z :=
  ptr <- myalloc ;;
  modify (fun m => with_Workspace (set_car (Workspace m) ptr SYMBOL) m) ;;;
  modify (fun m => with_Workspace (set_cdr (Workspace m) ptr name) m) ;;;
  ret ptr.

Definition newstring : M Z :=
  ptr <- myalloc ;;
  modify (fun m => with_Workspace (set_car (Workspace m) ptr STRING) m) ;;;
  modify (fun m => with_Workspace (set_cdr (Workspace m) ptr 0) m) ;;;
  ret ptr.

(* symbol_t twist (builtin_t x) / builtin_t untwist (symbol_t x) *)
Definition twist (x : Z) : Z :=
  Z.lor (wrap16 (Z.shiftl x 2)) (Z.shiftr (Z.land x 49152) 14).
Definition untwist (x : Z) : Z :=
  Z.lor (Z.land (Z.shiftr x 2) 16383) (wrap16 (Z.shiftl (Z.land x 3) 14)).

Definition builtin (name : Z) : Z := wrap16 (untwist name - BUILTINS).
Definition sym (x : Z) : Z := twist (wrap16 (x + BUILTINS)).
Definition builtinp (name : Z) : bool := BUILTINS <=? untwist name.

(** The scan of [intern]: the first object of the workspace, by index, that
    satisfies [f]. *)
Fixpoint scan_workspace (f : object -> bool) (ws : list object) (i : nat) : option nat :=
  match ws with
  | [] => None
  | o :: rest => if f o then Some i else scan_workspace f rest (S i)
  end.

Definition intern (name : Z) : M Z := fun m =>
  match scan_workspace (fun o => (car o =? SYMBOL) && (cdr o =? name)) (Workspace m) 0 with
  | Some i => Done (cell_addr i) m
  | None => symbol name m
  end.

Definition bsymbol (name : Z) : M Z := intern (twist (wrap16 (name + BUILTINS))).

Definition isbuiltin (ws : list object) (obj : Z) (n : Z) : bool :=
  symbolp ws obj && (cdr (getobj ws obj) =? sym n).

(** ** Helper functions *)

(** [eq] of the source (the name is taken by Rocq's equality). *)
Definition lisp_eq (ws : list object) (arg1 arg2 : Z) : bool :=
  if arg1 =? arg2 then true                                        (* Same object *)
  else if (arg1 =? NULL) || (arg2 =? NULL) then false              (* Not both values *)
  else if negb (cdr (getobj ws arg1) =? cdr (getobj ws arg2)) then false (* Different values *)
  else if symbolp ws arg1 && symbolp ws arg2 then true             (* Same symbol *)
  else if integerp ws arg1 && integerp ws arg2 then true           (* Same integer *)
  else if characterp ws arg1 && characterp ws arg2 then true       (* Same character *)
  else false.

Definition checkinteger (obj : Z) : M Z := fun m =>
  if integerp (Workspace m) obj then Done (toint (cdr (getobj (Workspace m) obj))) m
  else error "argument is not an integer" obj m.

(** C [int] arithmetic: the result wraps to 16 bits. *)
Definition int_add (a b : Z) : Z := toint (wrap16 (a + b)).
Definition int_sub (a b : Z) : Z := toint (wrap16 (a - b)).
Definition int_mul (a b : Z) : Z := toint (wrap16 (a * b)).

(** ** Arithmetic functions *)

(** The [while (args != NULL)] loop of [fn_add]; one unit of fuel per
    iteration. *)
Fixpoint fn_add_loop (fuel : nat) (args : Z) (result : Z) : M Z :=
  match fuel with
  | O => timeout
  | S fuel' =>
      if args =? NULL then ret result
      else
        m <- get_machine ;;
        temp <- checkinteger (car (getobj (Workspace m) args)) ;;
        (if temp <? 1
         then (if int_sub INT_MIN temp >? result then error2 "arithmetic overflow" else ret tt)
         else (if int_sub INT_MAX temp <? result then error2 "arithmetic overflow" else ret tt)) ;;;
        m <- get_machine ;;
        fn_add_loop fuel' (cdr (getobj (Workspace m) args)) (int_add result temp)
  end.

Definition fn_add (fuel : nat) (args env : Z) : M Z :=
  result <- fn_add_loop fuel args 0 ;;
  number result.

(** ** Characters, radix-40 names, the lookup table *)

(** The codes of the characters of a string constant. *)
Definition codes (s : string) : list Z :=
  map (fun c => Z.of_nat (nat_of_ascii c)) (list_ascii_of_string s).

(** A [char buffer[]] is a list of bytes; the C string it holds ends before
    its first zero byte. *)
Fixpoint cstr (buffer : list Z) : list Z :=
  match buffer with
  | [] => []
  | c :: rest => if c =? 0 then [] else c :: cstr rest
  end.

Definition issp (x : Z) : bool :=
  (x =? 32) || (x =? 10) || (x =? 13) || (x =? 9).

Definition isbr (x : Z) : bool :=
  (x =? 41) || (x =? 40) || (x =? 34) || (x =? 35).

Definition toradix40 (ch : Z) : Z :=
  if ch =? 0 then 0
  else if (48 <=? ch) && (ch <=? 57) then ch - 48 + 1
  else if ch =? 45 then 37
  else if ch =? 42 then 38
  else if ch =? 36 then 39
  else
    let ch := Z.lor ch 32 in
    if (97 <=? ch) && (ch <=? 122) then ch - 97 + 11 else -1.

Definition fromradix40 (n : Z) : Z :=
  if (1 <=? n) && (n <=? 10) then 48 + n - 1
  else if (11 <=? n) && (n <=? 36) then 97 + n - 11
  else if n =? 37 then 45
  else if n =? 38 then 42
  else if n =? 39 then 36
  else 0.

(** [pack40]: three steps of [x = x * 40 + toradix40(buffer[j])], [j]
    advancing while the byte is not the terminator. *)
Definition pack40 (buffer : list Z) : Z :=
  let b := cstr buffer in
  let step (xj : Z * nat) :=
    let '(x, j) := xj in
    (x * 40 + toradix40 (nth j b 0), if nth j b 0 =? 0 then j else S j) in
  wrap16 (fst (step (step (step (0, O))))).

Definition valid40 (buffer : list Z) : bool :=
  let b := cstr buffer in
  if toradix40 (nth 0 b 0) <? 11 then false
  else if nth 0 b 0 =? 0 then true
  else if toradix40 (nth 1 b 0) <? 0 then false
  else if nth 1 b 0 =? 0 then true
  else if toradix40 (nth 2 b 0) <? 0 then false
  else true.

Definition digitvalue (d : Z) : Z :=
  if (48 <=? d) && (d <=? 57) then d - 48
  else
    let d := Z.lor d 32 in
    if (97 <=? d) && (d <=? 102) then d - 97 + 10 else 16.

Definition tolower (c : Z) : Z := if (65 <=? c) && (c <=? 90) then c + 32 else c.

(** [strcasecmp_P(a, b) == 0] *)
Fixpoint strcaseeq (a b : list Z) : bool :=
  match a, b with
  | [], [] => true
  | x :: a', y :: b' => (tolower x =? tolower y) && strcaseeq a' b'
  | _, _ => false
  end.

Fixpoint find_name (c : list Z) (names : list (string * Z)) (i : Z) : option Z :=
  match names with
  | [] => None
  | (s, _) :: rest => if strcaseeq c (codes s) then Some i else find_name c rest (i + 1)
  end.

Definition tablesize0 : Z := Z.of_nat (length lookup_table).

Definition lookupbuiltin (c : list Z) : Z :=
  match find_name (cstr c) lookup_table 0 with
  | Some i => i
  | None =>
      match find_name (cstr c) lookup_table2 tablesize0 with
      | Some i => i
      | None => ENDFUNCTIONS
      end
  end.

Definition table_entry (name : Z) : string * Z :=
  if name <? tablesize0 then nth (Z.to_nat name) lookup_table (""%string, 0)
  else nth (Z.to_nat (name - tablesize0)) lookup_table2 (""%string, 0).

Definition getminmax (name : Z) : Z := snd (table_entry name).

Definition checkminmax (name : Z) (nargs : Z) : M unit :=
  if negb (name <? ENDFUNCTIONS) then error2 "not a builtin"
  else
    let minmax := getminmax name in
    if nargs <? Z.land (Z.shiftr minmax 3) 7 then error2 "too few arguments"
    else if negb (Z.land minmax 7 =? 7) && (Z.land minmax 7 <? nargs)
    then error2 "too many arguments"
    else ret tt.

Definition ControlCodes : list string :=
  [ "Null"; "SOH"; "STX"; "ETX"; "EOT"; "ENQ"; "ACK"; "Bell"; "Backspace"; "Tab";
    "Newline"; "VT"; "Page"; "Return"; "SO"; "SI"; "DLE"; "DC1"; "DC2"; "DC3";
    "DC4"; "NAK"; "SYN"; "ETB"; "CAN"; "EM"; "SUB"; "Escape"; "FS"; "GS"; "RS";
    "US"; "Space" ]%string.

(** ** Strings *)

Definition store_car (p v : Z) : M unit :=
  modify (fun m => with_Workspace (set_car (Workspace m) p v) m).
Definition store_cdr (p v : Z) : M unit :=
  modify (fun m => with_Workspace (set_cdr (Workspace m) p v) m).

(** [buildstring (ch, &tail)]; the new value of [tail] is returned.  A [char]
    is taken as a byte in [0, 256). *)
Definition buildstring (ch : Z) (tail : Z) : M Z :=
  m <- get_machine ;;
  let chars := cdr (getobj (Workspace m) tail) in
  if chars =? NULL then
    cell <- myalloc ;;
    store_cdr tail cell ;;;
    store_car cell NULL ;;; store_cdr cell (wrap16 (Z.shiftl (ch mod 256) 8)) ;;;
    ret cell
  else if Z.land chars 255 =? 0 then
    store_cdr tail (Z.lor chars (ch mod 256)) ;;; ret tail
  else
    cell <- myalloc ;;
    store_car tail cell ;;;
    store_car cell NULL ;;; store_cdr cell (wrap16 (Z.shiftl (ch mod 256) 8)) ;;;
    ret cell.

(** [lispstring (s)]: a backslash takes the next byte as it is.  A backslash
    that ends the string makes the source read past the terminator; that case
    is outside the embedding. *)
Fixpoint lispstring_loop (s : list Z) (tail : Z) : M unit :=
  match s with
  | [] => ret tt
  | ch :: rest =>
      if ch =? 92 then
        match rest with
        | [] => unmodelled
        | ch' :: rest' => tail' <- buildstring ch' tail ;; lispstring_loop rest' tail'
        end
      else tail' <- buildstring ch tail ;; lispstring_loop rest tail'
  end.

Definition lispstring (s : list Z) : M Z :=
  obj <- newstring ;;
  lispstring_loop (cstr s) obj ;;;
  ret obj.

(** [eqsymbols (obj, buffer)], given the first cell [arg = cdr(obj)] of the
    name; each pass of the loop compares one cell with two bytes of the
    buffer (one if the buffer ends). *)
Fixpoint eqsymbols (ws : list object) (arg : Z) (buffer : list Z) : bool :=
  match buffer with
  | [] => arg =? NULL
  | [c1] =>
      if arg =? NULL then false
      else if negb (cdr (getobj ws arg) =? Z.shiftl c1 8) then false
      else car (getobj ws arg) =? NULL
  | c1 :: c2 :: rest =>
      if arg =? NULL then false
      else if negb (cdr (getobj ws arg) =? Z.lor (Z.shiftl c1 8) c2) then false
      else eqsymbols ws (car (getobj ws arg)) rest
  end.

Definition internlong (buffer : list Z) : M Z := fun m =>
  match scan_workspace
          (fun o => (car o =? SYMBOL) && longnamep (cdr o)
                    && eqsymbols (Workspace m) (cdr o) (cstr buffer))
          (Workspace m) 0 with
  | Some i => Done (cell_addr i) m
  | None =>
      (obj <- lispstring buffer ;;
       store_car obj SYMBOL ;;;
       ret obj) m
  end.

(** ** Read functions *)

(** The character supplier ([gfun_t]).  Every supplier of the source
    ([gserial], [gstr], [glibrary]) first gives back [LastChar] when it is
    set; otherwise it produces the next character of its source, here the list
    [Source], and -1 at its end. *)
Definition gfun : M Z := fun m =>
  if negb (LastChar m =? 0) then Done (LastChar m) (with_LastChar 0 m)
  else match Source m with
       | [] => Done (-1) m
       | c :: rest => Done c (with_Source rest m)
       end.

Fixpoint readstring_loop (fuel : nat) (delim : Z) (esc : bool) (ch : Z) (tail : Z) : M unit :=
  match fuel with
  | O => timeout
  | S fuel' =>
      if negb (ch =? delim) && negb (ch =? -1) then
        ch1 <- (if esc && (ch =? 92) then gfun else ret ch) ;;
        tail' <- buildstring ch1 tail ;;
        ch2 <- gfun ;;
        readstring_loop fuel' delim esc ch2 tail'
      else ret tt
  end.

Definition readstring (fuel : nat) (delim : Z) (esc : bool) : M Z :=
  obj <- newstring ;;
  ch <- gfun ;;
  if ch =? -1 then ret NULL
  else readstring_loop fuel delim esc ch obj ;;; ret obj.

(* while(issp(ch)) ch = gfun(); *)
Fixpoint skip_spaces (fuel : nat) (ch : Z) : M Z :=
  match fuel with
  | O => timeout
  | S fuel' => if issp ch then (c <- gfun ;; skip_spaces fuel' c) else ret ch
  end.

(* do { ch = gfun(); if (ch == ';' || ch == '(') setflag(NOECHO); } while(ch != '('); *)
Fixpoint skip_comment (fuel : nat) : M Z :=
  match fuel with
  | O => timeout
  | S fuel' =>
      ch <- gfun ;;
      (if (ch =? 59) || (ch =? 40) then modify (setflag NOECHO) else ret tt) ;;;
      if negb (ch =? 40) then skip_comment fuel' else ret ch
  end.

(* while (gfun() != '|'); *)
Fixpoint skip_to_bar (fuel : nat) : M unit :=
  match fuel with
  | O => timeout
  | S fuel' => ch <- gfun ;; if negb (ch =? 124) then skip_to_bar fuel' else ret tt
  end.

(* do { while (gfun() != '|'); } while (gfun() != '#'); *)
Fixpoint skip_block_comment (fuel : nat) : M unit :=
  match fuel with
  | O => timeout
  | S fuel' =>
      skip_to_bar fuel' ;;;
      ch <- gfun ;;
      if negb (ch =? 35) then skip_block_comment fuel' else ret tt
  end.

(** The loop of [nextitem] that gathers an atom: [buffer] holds the bytes
    stored so far ([index] is its length), [result] is a 16-bit
    [unsigned int]. *)
Fixpoint token_loop (fuel : nat) (ch : Z) (buffer : list Z) (result : Z)
    (isnumber : bool) (base : Z) : M (Z * list Z * Z * bool) :=
  match fuel with
  | O => timeout
  | S fuel' =>
      if negb (issp ch) && negb (isbr ch) && (Z.of_nat (length buffer) <? BUFFERSIZE - 1) then
        let temp := digitvalue ch in
        ch' <- gfun ;;
        token_loop fuel' ch' (buffer ++ [ch mod 256]) (wrap16 (result * base + temp))
                   (isnumber && (digitvalue ch <? base)) base
      else ret (ch, buffer, result, isnumber)
  end.

Fixpoint find_control (buffer : list Z) (names : list string) (c : Z) : option Z :=
  match names with
  | [] => None
  | s :: rest => if strcaseeq buffer (codes s) then Some c else find_control buffer rest (c + 1)
  end.

(** The part of [nextitem] from [int isnumber = (digitvalue(ch)<base)] on. *)
Definition nextitem_atom (fuel : nat) (ch : Z) (buffer : list Z) (base sign : Z) : M Z :=
  r <- token_loop fuel ch buffer 0 (digitvalue ch <? base) base ;;
  let '(ch, buffer, result, isnumber) := r in
  let index := Z.of_nat (length buffer) in
  (if isbr ch then modify (with_LastChar ch) else ret tt) ;;;
  if isnumber then
    (if (base =? 10) && (INT_MAX + (1 - sign) / 2 <? result)
     then error2 "Number out of range" else ret tt) ;;;
    number (result * sign)
  else if base =? 0 then
    if index =? 1 then character (nth 0 buffer 0)
    else
      match find_control (cstr buffer) ControlCodes 0 with
      | Some c => character c
      | None =>
          if index =? 3
          then character ((nth 0 buffer 0 * 10 + nth 1 buffer 0) * 10 + nth 2 buffer 0 - 5328)
          else error2 "unknown character"
      end
  else
    let x := lookupbuiltin buffer in
    if x =? NIL then ret NULL
    else if negb (x =? ENDFUNCTIONS) then bsymbol x
    else if (index <=? 3) && valid40 buffer then intern (twist (pack40 buffer))
    else internlong buffer.

(** [nextitem]: the next token ([BRA], [KET], [QUO], [DOT] cast to a
    pointer) or atom.  Array and bit-array literals and [#.] are not
    embedded. *)
Fixpoint nextitem (fuel : nat) : M Z :=
  match fuel with
  | O => timeout
  | S fuel' =>
      ch <- gfun ;;
      ch <- skip_spaces fuel' ch ;;
      ch <- (if ch =? 59 then skip_comment fuel' else ret ch) ;;
      ch <- (if ch =? 10 then gfun else ret ch) ;;
      if ch =? -1 then ret NULL
      else if ch =? 41 then ret KET
      else if ch =? 40 then ret BRA
      else if ch =? 39 then ret QUO
      else if ch =? 46 then ret DOT
      else if ch =? 34 then readstring fuel' 34 true
      else if (ch =? 43) || (ch =? 45) then
        ch' <- gfun ;;
        nextitem_atom fuel' ch' [ch] 10 (if ch =? 45 then -1 else 1)
      else if ch =? 35 then
        ch <- gfun ;;
        let ch2 := Z.land (ch mod 256) 223 in
        if ch =? 92 then
          ch <- gfun ;;
          if issp ch || isbr ch then character ch
          else
            modify (with_LastChar ch) ;;;
            ch <- gfun ;;
            nextitem_atom fuel' ch [] 0 1
        else if ch =? 124 then skip_block_comment fuel' ;;; nextitem fuel'
        else if ch2 =? 66 then ch <- gfun ;; nextitem_atom fuel' ch [] 2 1
        else if ch2 =? 79 then ch <- gfun ;; nextitem_atom fuel' ch [] 8 1
        else if ch2 =? 88 then ch <- gfun ;; nextitem_atom fuel' ch [] 16 1
        else if ch =? 39 then nextitem fuel'
        else if ch =? 46 then unmodelled
        else if ch =? 40 then unmodelled
        else if ch =? 42 then unmodelled
        else if (49 <=? ch) && (ch <=? 57) then
          c <- gfun ;;
          if Z.land (c mod 256) 223 =? 65 then unmodelled
          else error2 "illegal character after #"
        else error2 "illegal character after #"
      else nextitem_atom fuel' ch [] 10 1
  end.

(** [read], [readrest] and the [while (item != KET)] loop of [readrest].  In
    [cons(bsymbol(QUOTE), cons(read(gfun), NULL))] the arguments are taken to
    be evaluated from the left. *)
Fixpoint read (fuel : nat) : M Z :=
  match fuel with
  | O => timeout
  | S fuel' =>
      item <- nextitem fuel' ;;
      if item =? KET then error2 "incomplete list"
      else if item =? BRA then readrest fuel'
      else if item =? DOT then read fuel'
      else if item =? QUO then
        q <- bsymbol QUOTE ;; x <- read fuel' ;; l <- cons x NULL ;; cons q l
      else ret item
  end
with readrest (fuel : nat) : M Z :=
  match fuel with
  | O => timeout
  | S fuel' => item <- nextitem fuel' ;; readrest_loop fuel' item NULL NULL
  end
with readrest_loop (fuel : nat) (item head tail : Z) : M Z :=
  match fuel with
  | O => timeout
  | S fuel' =>
      if item =? KET then ret head
      else if item =? BRA then
        item' <- readrest fuel' ;; readrest_loop fuel' item' head tail
      else if item =? QUO then
        q <- bsymbol QUOTE ;; x <- read fuel' ;; l <- cons x NULL ;;
        item' <- cons q l ;; readrest_loop fuel' item' head tail
      else if item =? DOT then
        x <- read fuel' ;;
        store_cdr tail x ;;;
        r <- readrest fuel' ;;
        if negb (r =? NULL) then error2 "malformed list" else ret head
      else
        cell <- cons item NULL ;;
        (if head =? NULL then ret tt else store_cdr tail cell) ;;;
        item' <- nextitem fuel' ;;
        readrest_loop fuel' item' (if head =? NULL then cell else head) cell
  end.


(** ** The evaluator *)

Definition rd_car (p : Z) : M Z := fun m => Done (car (getobj (Workspace m) p)) m.
Definition rd_cdr (p : Z) : M Z := fun m => Done (cdr (getobj (Workspace m) p)) m.

(* #define protect(y) push((y), GCStack) / #define unprotect() pop(GCStack) *)
Definition protect (y : Z) : M unit :=
  m <- get_machine ;;
  c <- cons y (GCStack m) ;;
  modify (with_GCStack c).

Definition unprotect : M unit :=
  modify (fun m => with_GCStack (cdr (getobj (Workspace m) (GCStack m))) m).

(** [quote (arg)]; in [cons(bsymbol(QUOTE), cons(arg,NULL))] the arguments are
    taken to be evaluated from the left, as in [read]. *)
Definition quote (arg : Z) : M Z :=
  q <- bsymbol QUOTE ;; l <- cons arg NULL ;; cons q l.

(** [tracing (name)]: the index of [name] in [TraceFn] plus one, or 0. *)
Fixpoint tracing_from (fns : list Z) (name : Z) (i : Z) : Z :=
  match fns with
  | [] => 0
  | f :: rest => if f =? name then i + 1 else tracing_from rest name (i + 1)
  end.

Definition tracing (m : machine) (name : Z) : Z :=
  tracing_from (firstn TRACEMAX (TraceFn m)) name 0.

(** [TraceDepth[i] += d] on the 16-bit counters. *)
Definition bump_TraceDepth (i : Z) (d : Z) : M unit :=
  modify (fun m =>
    with_TraceDepth
      (list_update (TraceDepth m) (Z.to_nat i)
         (wrap16 (nth (Z.to_nat i) (TraceDepth m) 0 + d))) m).

(** [listlength]: one unit of fuel per cell of the list. *)
Fixpoint listlength (fuel : nat) (list : Z) (length : Z) : M Z :=
  match fuel with
  | O => timeout
  | S fuel' =>
      if list =? NULL then ret length
      else
        m <- get_machine ;;
        if negb (listp (Workspace m) list) then error2 "argument is not a proper list"
        else listlength fuel' (cdr (getobj (Workspace m) list)) (length + 1)
  end.

Definition checkargs (fuel : nat) (args : Z) : M unit :=
  nargs <- listlength fuel args 0 ;;
  m <- get_machine ;;
  checkminmax (Context m) nargs.

(** [value (n, env)]: the first binding pair of [env] whose variable has the
    name [n], or [nil]; one unit of fuel per entry of the environment. *)
Fixpoint value_loop (fuel : nat) (ws : list object) (n : Z) (env : Z) : option Z :=
  match fuel with
  | O => None
  | S fuel' =>
      if env =? NULL then Some NULL
      else
        let pair := car (getobj ws env) in
        if negb (pair =? NULL) && (cdr (getobj ws (car (getobj ws pair))) =? n)
        then Some pair
        else value_loop fuel' ws n (cdr (getobj ws env))
  end.

Definition value (fuel : nat) (n : Z) (env : Z) : M Z := fun m =>
  match value_loop fuel (Workspace m) n env with
  | Some p => Done p m
  | None => Timeout
  end.

Definition findpair (fuel : nat) (var env : Z) : M Z :=
  m <- get_machine ;;
  let name := cdr (getobj (Workspace m) var) in
  pair <- value fuel name env ;;
  if pair =? NULL then value fuel name (GlobalEnv m) else ret pair.

Definition findvalue (fuel : nat) (var env : Z) : M Z :=
  pair <- findpair fuel var env ;;
  if pair =? NULL then error "unknown variable" var else ret pair.

(* void testescape () *)
Definition testescape : M unit := fun m =>
  match SerialIn m with
  | c :: rest =>
      let m' := with_SerialIn rest m in
      if c =? 126 then error2 "escape!" m'
      else if tstflag ESCAPE m' then error2 "escape!" m' else Done tt m'
  | [] => if tstflag ESCAPE m then error2 "escape!" m else Done tt m
  end.

(* bool colonp (symbol_t name) *)
Definition colonp (ws : list object) (name : Z) : bool :=
  if negb (longnamep name) then false
  else if name =? NULL then false
  else Z.land (Z.shiftr (cdr (getobj ws name)) 8) 255 =? 58.

(** [gc] as a step of the machine. *)
Definition gc_now (form env : Z) : M unit := fun m =>
  match gc form env m with
  | Some m' => Done tt m'
  | None => Timeout
  end.

(** *** Checked car and cdr, core functions *)

Definition carx (arg : Z) : M Z :=
  m <- get_machine ;;
  if negb (listp (Workspace m) arg) then error "can't take car" arg
  else if arg =? NULL then ret NULL
  else ret (car (getobj (Workspace m) arg)).

Definition cdrx (arg : Z) : M Z :=
  m <- get_machine ;;
  if negb (listp (Workspace m) arg) then error "can't take cdr" arg
  else if arg =? NULL then ret NULL
  else ret (cdr (getobj (Workspace m) arg)).

Definition first (ws : list object) (x : Z) : Z := car (getobj ws x).
Definition second (ws : list object) (x : Z) : Z := car (getobj ws (cdr (getobj ws x))).
Definition cddr (ws : list object) (x : Z) : Z := cdr (getobj ws (cdr (getobj ws x))).

Definition fn_not (args env : Z) : M Z :=
  m <- get_machine ;;
  ret (if first (Workspace m) args =? NULL then tee m else NULL).

Definition fn_cons (args env : Z) : M Z :=
  m <- get_machine ;;
  cons (first (Workspace m) args) (second (Workspace m) args).

Definition fn_eq (args env : Z) : M Z :=
  m <- get_machine ;;
  ret (if lisp_eq (Workspace m) (first (Workspace m) args) (second (Workspace m) args)
       then tee m else NULL).

Definition fn_car (args env : Z) : M Z :=
  m <- get_machine ;; carx (first (Workspace m) args).

Definition fn_cdr (args env : Z) : M Z :=
  m <- get_machine ;; cdrx (first (Workspace m) args).

(** The row of the lookup table gives the handler; the rows embedded here are
    told by their name, every other function is outside the embedding. *)
Definition lookupfn (name : Z) : string := fst (table_entry name).

Definition call_function (fuel : nat) (name : Z) (args env : Z) : M Z :=
  let fn := lookupfn name in
  if String.eqb fn "not" || String.eqb fn "null" then fn_not args env
  else if String.eqb fn "cons" then fn_cons args env
  else if String.eqb fn "eq" then fn_eq args env
  else if String.eqb fn "car" || String.eqb fn "first" then fn_car args env
  else if String.eqb fn "cdr" || String.eqb fn "rest" then fn_cdr args env
  else if String.eqb fn "+" then fn_add fuel args env
  else unmodelled.

(** *** Forms that call [eval]

    The special forms, the tail forms and [closure] call [eval]; they are
    written over [ev], the evaluator one activation deeper. *)

Section Forms.

Variable ev : Z -> Z -> M Z.

Definition sp_quote (args env : Z) : M Z := rd_car args.

Fixpoint sp_or (fuel : nat) (args env : Z) : M Z :=
  match fuel with
  | O => timeout
  | S fuel' =>
      if args =? NULL then ret NULL
      else
        form <- rd_car args ;;
        val <- ev form env ;;
        if negb (val =? NULL) then ret val
        else args' <- rd_cdr args ;; sp_or fuel' args' env
  end.

(** The tail of [sp_defun] and [sp_defvar]: bind [var] to [val] in
    [GlobalEnv]. *)
Definition define_global (fuel : nat) (var val : Z) : M Z :=
  m <- get_machine ;;
  pair <- value fuel (cdr (getobj (Workspace m) var)) (GlobalEnv m) ;;
  (if negb (pair =? NULL) then store_cdr pair val
   else
     b <- cons var val ;;
     m <- get_machine ;;
     g <- cons b (GlobalEnv m) ;;
     modify (with_GlobalEnv g)) ;;;
  ret var.

Definition sp_defun (fuel : nat) (args env : Z) : M Z :=
  var <- rd_car args ;;
  m <- get_machine ;;
  if negb (symbolp (Workspace m) var) then error "argument is not a symbol" var
  else
    l <- bsymbol LAMBDA ;;
    body <- rd_cdr args ;;
    val <- cons l body ;;
    define_global fuel var val.

Definition sp_defvar (fuel : nat) (args env : Z) : M Z :=
  var <- rd_car args ;;
  m <- get_machine ;;
  if negb (symbolp (Workspace m) var) then error "argument is not a symbol" var
  else
    args' <- rd_cdr args ;;
    val <- (if negb (args' =? NULL) then
              modify (setflag NOESC) ;;;
              form <- rd_car args' ;;
              v <- ev form env ;;
              modify (clrflag NOESC) ;;;
              ret v
            else ret NULL) ;;
    define_global fuel var val.

Fixpoint sp_setq_loop (fuel : nat) (args env arg : Z) : M Z :=
  match fuel with
  | O => timeout
  | S fuel' =>
      if args =? NULL then ret arg
      else
        m <- get_machine ;;
        if cdr (getobj (Workspace m) args) =? NULL then error2 "odd number of arguments"
        else
          pair <- findvalue fuel' (first (Workspace m) args) env ;;
          m <- get_machine ;;
          arg' <- ev (second (Workspace m) args) env ;;
          store_cdr pair arg' ;;;
          m <- get_machine ;;
          sp_setq_loop fuel' (cddr (Workspace m) args) env arg'
  end.

Definition sp_setq (fuel : nat) (args env : Z) : M Z :=
  sp_setq_loop fuel args env NULL.

(** [tf_progn]: the [while (more != NULL)] loop, then the last form is
    returned for the caller to evaluate. *)
Fixpoint tf_progn_loop (fuel : nat) (args more env : Z) : M Z :=
  match fuel with
  | O => timeout
  | S fuel' =>
      if more =? NULL then rd_car args
      else
        form <- rd_car args ;;
        result <- ev form env ;;
        m <- get_machine ;;
        if tstflag RETURNFLAG m then quote result
        else
          more' <- rd_cdr more ;;
          tf_progn_loop fuel' more more' env
  end.

Definition tf_progn (fuel : nat) (args env : Z) : M Z :=
  if args =? NULL then ret NULL
  else more <- rd_cdr args ;; tf_progn_loop fuel args more env.

Definition tf_if (args env : Z) : M Z :=
  m <- get_machine ;;
  if (args =? NULL) || (cdr (getobj (Workspace m) args) =? NULL)
  then error2 "too few arguments"
  else
    test <- ev (first (Workspace m) args) env ;;
    m <- get_machine ;;
    if negb (test =? NULL) then ret (second (Workspace m) args)
    else
      let args' := cddr (Workspace m) args in
      if negb (args' =? NULL) then ret (first (Workspace m) args') else ret NULL.

Definition tf_when (fuel : nat) (args env : Z) : M Z :=
  if args =? NULL then error2 "missing argument"
  else
    form <- rd_car args ;;
    test <- ev form env ;;
    if negb (test =? NULL) then body <- rd_cdr args ;; tf_progn fuel body env
    else ret NULL.

Definition tf_unless (fuel : nat) (args env : Z) : M Z :=
  if args =? NULL then error2 "missing argument"
  else
    form <- rd_car args ;;
    test <- ev form env ;;
    if negb (test =? NULL) then ret NULL
    else body <- rd_cdr args ;; tf_progn fuel body env.

Fixpoint tf_and_loop (fuel : nat) (args more env : Z) : M Z :=
  match fuel with
  | O => timeout
  | S fuel' =>
      if more =? NULL then rd_car args
      else
        form <- rd_car args ;;
        result <- ev form env ;;
        if result =? NULL then ret NULL
        else
          more' <- rd_cdr more ;;
          tf_and_loop fuel' more more' env
  end.

Definition tf_and (fuel : nat) (args env : Z) : M Z :=
  if args =? NULL then m <- get_machine ;; ret (tee m)
  else more <- rd_cdr args ;; tf_and_loop fuel args more env.

Definition call_special (fuel : nat) (name : Z) (args env : Z) : M Z :=
  let fn := lookupfn name in
  if String.eqb fn "quote" then sp_quote args env
  else if String.eqb fn "or" then sp_or fuel args env
  else if String.eqb fn "defun" then sp_defun fuel args env
  else if String.eqb fn "defvar" then sp_defvar fuel args env
  else if String.eqb fn "setq" then sp_setq fuel args env
  else unmodelled.

Definition call_tail (fuel : nat) (name : Z) (args env : Z) : M Z :=
  let fn := lookupfn name in
  if String.eqb fn "progn" then tf_progn fuel args env
  else if String.eqb fn "if" then tf_if args env
  else if String.eqb fn "when" then tf_when fuel args env
  else if String.eqb fn "unless" then tf_unless fuel args env
  else if String.eqb fn "and" then tf_and fuel args env
  else unmodelled.

(** *** Closures *)

(** Dropframe: the loop that pops the entries of the frame on top of the
    environment. *)
Fixpoint dropframe_loop (fuel : nat) (ws : list object) (env : Z) : option Z :=
  match fuel with
  | O => None
  | S fuel' =>
      if negb (env =? NULL) && negb (car (getobj ws env) =? NULL)
      then dropframe_loop fuel' ws (cdr (getobj ws env))
      else Some env
  end.

Definition dropframe (fuel : nat) (tc : Z) (env : Z) : M Z :=
  if tc =? 0 then ret env
  else
    m <- get_machine ;;
    if negb (env =? NULL) && (car (getobj (Workspace m) env) =? NULL) then
      match dropframe_loop fuel (Workspace m) (cdr (getobj (Workspace m) env)) with
      | Some env' => ret env'
      | None => timeout
      end
    else cons NULL env.

(** Push state: the bindings a closure captured go back on the
    environment. *)
Fixpoint push_state (fuel : nat) (state env : Z) : M Z :=
  match fuel with
  | O => timeout
  | S fuel' =>
      m <- get_machine ;;
      if consp (Workspace m) state then
        env' <- cons (first (Workspace m) state) env ;;
        state' <- rd_cdr state ;;
        push_state fuel' state' env'
      else ret env
  end.

(** Add arguments to environment; returns what is left of [args] and the
    environment. *)
Fixpoint add_arguments (fuel : nat) (name : Z) (trace : Z) (optional : bool)
    (params args env : Z) : M (Z * Z) :=
  match fuel with
  | O => timeout
  | S fuel' =>
      if params =? NULL then ret (args, env)
      else
        m <- get_machine ;;
        let ws := Workspace m in
        let var := first ws params in
        if isbuiltin ws var OPTIONAL then
          add_arguments fuel' name trace true (cdr (getobj ws params)) args env
        else if consp ws var then
          if negb optional then error "invalid default value" var
          else
            va <- (if args =? NULL then v <- ev (second ws var) env ;; ret (v, args)
                   else ret (first ws args, cdr (getobj ws args))) ;;
            m <- get_machine ;;
            let var' := first (Workspace m) var in
            if negb (symbolp (Workspace m) var') then error "illegal optional parameter" var'
            else
              b <- cons var' (fst va) ;;
              env' <- cons b env ;;
              params' <- rd_cdr params ;;
              add_arguments fuel' name trace optional params' (snd va) env'
        else if negb (symbolp ws var) then error "illegal function parameter" var
        else if isbuiltin ws var AMPREST then
          let params1 := cdr (getobj ws params) in
          let var' := first ws params1 in
          b <- cons var' args ;;
          env' <- cons b env ;;
          params' <- rd_cdr params1 ;;
          add_arguments fuel' name trace optional params' NULL env'
        else
          if (args =? NULL) && negb optional then error2 "too few arguments"
          else
            let value := if args =? NULL then NULL else first ws args in
            let args' := if args =? NULL then args else cdr (getobj ws args) in
            b <- cons var value ;;
            env' <- cons b env ;;
            params' <- rd_cdr params ;;
            add_arguments fuel' name trace optional params' args' env'
  end.

(** [closure (tc, name, function, args, &env)]: the form to evaluate next and
    the new value of [env]. *)
Definition closure (fuel : nat) (tc : Z) (name function args env : Z) : M (Z * Z) :=
  m <- get_machine ;;
  let state := car (getobj (Workspace m) function) in
  let function := cdr (getobj (Workspace m) function) in
  let trace := if name =? 0 then 0 else tracing m name in
  (if negb (trace =? 0) then bump_TraceDepth (trace - 1) 1 else ret tt) ;;;
  let params := first (Workspace m) function in
  if negb (listp (Workspace m) params) then error "argument is not a list" params
  else
    let function := cdr (getobj (Workspace m) function) in
    env <- dropframe fuel tc env ;;
    env <- push_state fuel state env ;;
    ae <- add_arguments fuel name trace false params args env ;;
    if negb (fst ae =? NULL) then error2 "too many arguments"
    else
      env <- (if negb (tc =? 0) then cons NULL (snd ae) else ret (snd ae)) ;;
      form <- tf_progn fuel function env ;;
      ret (form, env).

(** *** The pieces of [eval] *)

(** The loop of the [LET]/[LETSTAR] case: the new environment. *)
Fixpoint let_bindings (fuel : nat) (name assigns env newenv : Z) : M Z :=
  match fuel with
  | O => timeout
  | S fuel' =>
      if assigns =? NULL then ret newenv
      else
        assign <- rd_car assigns ;;
        m <- get_machine ;;
        let ws := Workspace m in
        b <- (if negb (consp ws assign) then cons assign NULL
              else if cdr (getobj ws assign) =? NULL then cons (first ws assign) NULL
              else
                v <- ev (second ws assign) env ;;
                m <- get_machine ;;
                cons (first (Workspace m) assign) v) ;;
        newenv' <- cons b newenv ;;
        m <- get_machine ;;
        store_car (GCStack m) newenv' ;;;
        assigns' <- rd_cdr assigns ;;
        let_bindings fuel' name assigns' (if name =? LETSTAR then newenv' else env) newenv'
  end.

(** The [LET]/[LETSTAR] case up to [goto EVAL]: the form to evaluate next and
    the new environment. *)
Definition eval_let (fuel : nat) (name args env : Z) : M (Z * Z) :=
  if args =? NULL then error2 "missing argument"
  else
    m <- get_machine ;;
    let assigns := first (Workspace m) args in
    if negb (listp (Workspace m) assigns) then error "argument is not a list" assigns
    else
      let forms := cdr (getobj (Workspace m) args) in
      protect env ;;;
      newenv <- let_bindings fuel name assigns env env ;;
      unprotect ;;;
      form <- tf_progn fuel forms newenv ;;
      ret (form, newenv).

(** The loop that evaluates the parameters of a call; returns [nargs]. *)
Fixpoint eval_parameters (fuel : nat) (form env tail : Z) (nargs : Z) : M Z :=
  match fuel with
  | O => timeout
  | S fuel' =>
      if form =? NULL then ret nargs
      else
        arg <- rd_car form ;;
        v <- ev arg env ;;
        obj <- cons v NULL ;;
        store_cdr tail obj ;;;
        form' <- rd_cdr form ;;
        eval_parameters fuel' form' env obj (nargs + 1)
  end.

End Forms.

(** The loop of the [LAMBDA] case: every binding pair of the environment is
    pushed on [envcopy]. *)
Fixpoint copy_environment (fuel : nat) (env envcopy : Z) : M Z :=
  match fuel with
  | O => timeout
  | S fuel' =>
      if env =? NULL then ret envcopy
      else
        pair <- rd_car env ;;
        envcopy' <- (if negb (pair =? NULL) then cons pair envcopy else ret envcopy) ;;
        env' <- rd_cdr env ;;
        copy_environment fuel' env' envcopy'
  end.

Definition eval_lambda (fuel : nat) (form args env : Z) : M Z :=
  if env =? NULL then ret form
  else
    envcopy <- copy_environment fuel env NULL ;;
    c <- bsymbol CLOSURE ;;
    l <- cons envcopy args ;;
    cons c l.

(** A symbol: keyword, local binding, global binding, builtin. *)
Definition eval_symbol (fuel : nat) (form env : Z) : M Z :=
  m <- get_machine ;;
  let name := cdr (getobj (Workspace m) form) in
  if colonp (Workspace m) name then ret form
  else
    pair <- value fuel name env ;;
    if negb (pair =? NULL) then rd_cdr pair
    else
      pair <- value fuel name (GlobalEnv m) ;;
      if negb (pair =? NULL) then rd_cdr pair
      else if builtinp name then
        if builtin name =? FEATURES then unmodelled else ret form
      else modify (with_Context NIL) ;;; error "undefined" form.

(** [eval (form, env)].  [depth] counts the activations of [eval] on the
    native stack, [TC] is the local of that name; one unit of fuel is used by
    every pass through the label [EVAL] and by every nested call. *)
Fixpoint eval (fuel : nat) (depth : nat) (TC : Z) (form env : Z) {struct fuel} : M Z :=
  match fuel with
  | O => timeout
  | S fuel' =>
      let ev := eval fuel' (S depth) 0 in
      (* Enough space? *)
      m <- get_machine ;;
      (if (StackLimit m <=? depth)%nat
       then modify (with_Context NIL) ;;; error2 "stack overflow" else ret tt) ;;;
      (if Freespace m <=? Z.shiftr WORKSPACESIZE 4 then gc_now form env else ret tt) ;;;
      (* Escape *)
      m <- get_machine ;;
      (if tstflag ESCAPE m then modify (clrflag ESCAPE) ;;; error2 "escape!" else ret tt) ;;;
      (if negb (tstflag NOESC m) then testescape else ret tt) ;;;
      if form =? NULL then ret NULL
      else
        m <- get_machine ;;
        let ws := Workspace m in
        if (NUMBER <=? type_of ws form) && (type_of ws form <=? STRING) then ret form
        else if symbolp ws form then eval_symbol fuel' form env
        else if type_of ws form =? CODE then error2 "can't evaluate CODE header"
        else
          (* It's a list *)
          let function := car (getobj ws form) in
          let args := cdr (getobj ws form) in
          if function =? NULL then error "illegal function" NULL
          else if negb (listp ws args) then error "can't evaluate a dotted pair" args
          else
            let name := builtin (cdr (getobj ws function)) in
            let is_builtin := symbolp ws function && builtinp (cdr (getobj ws function)) in
            let fntype := Z.shiftr (getminmax name) 6 in
            if is_builtin && ((name =? LET) || (name =? LETSTAR)) then
              fe <- eval_let ev fuel' name args env ;;
              eval fuel' depth TC (fst fe) (snd fe)
            else if is_builtin && (name =? LAMBDA) then eval_lambda fuel' form args env
            else if is_builtin && (fntype =? SPECIAL_FORMS) then
              modify (with_Context name) ;;;
              checkargs fuel' args ;;;
              call_special ev fuel' name args env
            else if is_builtin && (fntype =? TAIL_FORMS) then
              modify (with_Context name) ;;;
              checkargs fuel' args ;;;
              form' <- call_tail ev fuel' name args env ;;
              eval fuel' depth 1 form' env
            else if is_builtin && (fntype =? OTHER_FORMS)
            then error "can't be used as a function" function
            else
              (* Evaluate the parameters - result in head *)
              let fname := car (getobj ws form) in
              let TCstart := TC in
              f <- ev fname env ;;
              head <- cons f NULL ;;
              protect head ;;;
              form1 <- rd_cdr form ;;
              nargs <- eval_parameters ev fuel' form1 env head 0 ;;
              m <- get_machine ;;
              let ws := Workspace m in
              let function := car (getobj ws head) in
              let args := cdr (getobj ws head) in
              if symbolp ws function then
                let bname := builtin (cdr (getobj ws function)) in
                if negb (builtinp (cdr (getobj ws function))) then error "not valid here" fname
                else
                  modify (with_Context bname) ;;;
                  checkminmax bname nargs ;;;
                  result <- call_function fuel' bname args env ;;
                  unprotect ;;;
                  ret result
              else if consp ws function then
                let name := if negb (listp ws fname) then cdr (getobj ws fname) else sym NIL in
                if isbuiltin ws (car (getobj ws function)) LAMBDA then
                  fe <- closure ev fuel' TCstart name function args env ;;
                  unprotect ;;;
                  m <- get_machine ;;
                  let trace := tracing m (cdr (getobj (Workspace m) fname)) in
                  if negb (trace =? 0) then
                    result <- ev (fst fe) (snd fe) ;;
                    bump_TraceDepth (trace - 1) (-1) ;;;
                    ret result
                  else eval fuel' depth 1 (fst fe) (snd fe)
                else if isbuiltin ws (car (getobj ws function)) CLOSURE then
                  fe <- closure ev fuel' TCstart name (cdr (getobj ws function)) args env ;;
                  unprotect ;;;
                  eval fuel' depth 1 (fst fe) (snd fe)
                else if type_of ws (car (getobj ws function)) =? CODE then unmodelled
                else error "illegal function" fname
              else error "illegal function" fname
  end.

(** *** Setup and one turn of the read/evaluate/print loop *)

Definition initenv : M unit :=
  modify (with_GlobalEnv NULL) ;;;
  t <- bsymbol TEE ;;
  modify (with_tee t).

(** One turn of [repl (env)] up to the value that [printobject] is given. *)
Definition repl_turn (fuel : nat) (env : Z) : M Z :=
  gc_now NULL env ;;;
  modify (with_Context NIL) ;;;
  line <- read fuel ;;
  if line =? KET then error2 "unmatched right bracket"
  else
    protect line ;;;
    result <- eval fuel 0 0 line env ;;
    unprotect ;;;
    ret result.

(** ** Print functions

    A print function is given a character sink ([pfun_t]); it is embedded as
    the list of the characters it hands to the sink, in order. *)

(** [pbuiltin (name, pfun)]: the string of the table row. *)
Definition pbuiltin (name : Z) : list Z := codes (fst (table_entry name)).

(** [pradix40 (name, pfun)]: the loop over [d] = 1600, 40, 1. *)
Fixpoint pradix40_loop (ds : list Z) (x : Z) : list Z :=
  match ds with
  | [] => []
  | d :: rest =>
      let j := x / d in
      let c := fromradix40 j in
      if c =? 0 then []
      else c :: pradix40_loop rest (wrap16 (x - j * d))
  end.

Definition pradix40 (name : Z) : list Z :=
  pradix40_loop [1600; 40; 1] (untwist name).

(** [plispstr (name, pfun)]: two characters a cell, high byte first; one unit
    of fuel per cell. *)
Fixpoint plispstr (fuel : nat) (ws : list object) (readably : bool) (form : Z)
    : option (list Z) :=
  match fuel with
  | O => None
  | S fuel' =>
      if form =? NULL then Some []
      else
        let chars := cdr (getobj ws form) in
        let out (ch : Z) :=
          (if readably && ((ch =? 34) || (ch =? 92)) then [92] else [])
          ++ (if ch =? 0 then [] else [ch]) in
        match plispstr fuel' ws readably (car (getobj ws form)) with
        | Some rest =>
            Some (out (Z.land (Z.shiftr chars 8) 255) ++ out (Z.land chars 255) ++ rest)
        | None => None
        end
  end.

(** [psymbol (name, pfun)] *)
Definition psymbol (fuel : nat) (name : Z) : M (list Z) := fun m =>
  if longnamep name then
    match plispstr fuel (Workspace m) (tstflag PRINTREADABLY m) name with
    | Some out => Done out m
    | None => Timeout
    end
  else
    let value := untwist name in
    if value <? PACKEDS then error2 "invalid symbol" m
    else if BUILTINS <=? value then Done (pbuiltin (wrap16 (value - BUILTINS))) m
    else Done (pradix40 name) m.

(** [pintbase (i, base, pfun)]: the loop over [d]; one unit of fuel per pass.
    [i] and [d] are [uint16_t]. *)
Fixpoint pintbase_loop (fuel : nat) (base d i : Z) (lead : bool) : option (list Z) :=
  match fuel with
  | O => None
  | S fuel' =>
      if negb (0 <? d) then Some []
      else
        let j := i / d in
        let shown := negb (j =? 0) || lead || (d =? 1) in
        match pintbase_loop fuel' base (d / base) (wrap16 (i - j * d)) (lead || shown) with
        | Some rest =>
            Some ((if shown then [(if j <? 10 then j + 48 else j + 87) mod 256] else [])
                  ++ rest)
        | None => None
        end
  end.

Definition pintbase (i base : Z) : option (list Z) :=
  let p := if base =? 2 then 32768 else if base =? 16 then 4096 else 10000 in
  pintbase_loop 17 base p i false.

(** [pint (i, pfun)] for the C [int] with value [i]. *)
Definition pint (i : Z) : option (list Z) :=
  if i <? 0 then
    match pintbase (wrap16 (- i)) 10 with
    | Some out => Some (45 :: out)
    | None => None
    end
  else pintbase (wrap16 i) 10.

(** ** Strings *)

(** [stringlength (form)]: the characters of the chain that are not zero. *)
Fixpoint stringlength_loop (fuel : nat) (ws : list object) (form : Z) (length : Z)
    : option Z :=
  match fuel with
  | O => None
  | S fuel' =>
      if form =? NULL then Some length
      else
        let chars := cdr (getobj ws form) in
        let n (ch : Z) := if ch =? 0 then 0 else 1 in
        stringlength_loop fuel' ws (car (getobj ws form))
          (length + n (Z.land (Z.shiftr chars 8) 255) + n (Z.land chars 255))
  end.

Definition stringlength (fuel : nat) (ws : list object) (form : Z) : option Z :=
  stringlength_loop fuel ws (cdr (getobj ws form)) 0.

(** [printstring (form, pfun)] *)
Definition printstring (fuel : nat) (ws : list object) (readably : bool) (form : Z)
    : option (list Z) :=
  match plispstr fuel ws readably (cdr (getobj ws form)) with
  | Some out => Some ((if readably then [34] else []) ++ out ++ (if readably then [34] else []))
  | None => None
  end.
(** ** Notions used to state the properties *)

(** The cells of the free list, in order: the chain that starts at the list
    head and follows the [cdr] words up to [NULL]. *)
Inductive freechain (ws : list object) : Z -> list Z -> Prop :=
| freechain_nil : freechain ws NULL []
| freechain_cons : forall p l,
    p <> NULL -> valid p ->
    freechain ws (cdr (getobj ws p)) l ->
    freechain ws p (p :: l).

(** [Freespace] is the number of cells in the [Freelist] chain. *)
Definition freelist_inv (m : machine) : Prop :=
  length (Workspace m) = Z.to_nat WORKSPACESIZE /\
  exists l, freechain (Workspace m) (Freelist m) l /\
            Freespace m = Z.of_nat (length l).

(** The free-list cells computed (the executable companion of [freechain]). *)
Fixpoint freecells (fuel : nat) (ws : list object) (p : Z) : option (list Z) :=
  match fuel with
  | O => None
  | S fuel' =>
      if p =? NULL then Some []
      else if validb p then
        match freecells fuel' ws (cdr (getobj ws p)) with
        | Some l => Some (p :: l)
        | None => None
        end
      else None
  end.

(** The machine registers other than the arena and the free list. *)
Definition same_registers (m m' : machine) : Prop :=
  Context m' = Context m /\ GlobalEnv m' = GlobalEnv m /\ GCStack m' = GCStack m /\
  LastChar m' = LastChar m /\ Flags m' = Flags m /\ tee m' = tee m /\
  TraceFn m' = TraceFn m /\ TraceDepth m' = TraceDepth m /\
  Source m' = Source m /\ SerialIn m' = SerialIn m /\ StackLimit m' = StackLimit m.

(** Indices below [n] whose cell does not carry the mark bit, ascending. *)
Definition unmarked_below (ws : list object) (n : nat) : list nat :=
  filter (fun i => negb (marked ws (cell_addr i))) (seq 0 n).

(** [x] is a number cell holding the C [int] [n]. *)
Definition holds_int (ws : list object) (x n : Z) : Prop :=
  integerp ws x = true /\ INT_MIN <= n <= INT_MAX /\ cdr (getobj ws x) = wrap16 n.

(** [x] is a character cell holding the code [c]. *)
Definition holds_char (ws : list object) (x c : Z) : Prop :=
  characterp ws x = true /\ cdr (getobj ws x) = c.

(** [x] is a symbol cell holding the name [n] (a packed identifier, or the
    address of the first cell of a long name). *)
Definition holds_symbol (ws : list object) (x n : Z) : Prop :=
  symbolp ws x = true /\ cdr (getobj ws x) = n.

(** A proper list at [p] whose cells hold, in order, the objects [xs]. *)
Inductive lisp_list (ws : list object) : Z -> list Z -> Prop :=
| lisp_list_nil : lisp_list ws NULL []
| lisp_list_cons : forall p x l,
    valid p -> car (getobj ws p) = x ->
    lisp_list ws (cdr (getobj ws p)) l ->
    lisp_list ws p (x :: l).

(** The sums [n1], [n1+n2], ... of the prefixes of a list of integers. *)
Fixpoint running_sums (acc : Z) (ns : list Z) : list Z :=
  match ns with
  | [] => []
  | n :: rest => (acc + n) :: running_sums (acc + n) rest
  end.

Definition sum_list (ns : list Z) : Z := fold_right Z.add 0 ns.

(** The globals when [setup] starts on a freshly started board: they hold
    their C initial values ([Freespace = 0], [GCStack = NULL],
    [Flags = 0b00001], a zeroed [Workspace]). *)
Definition power_on : machine :=
  mkMachine (repeat (mkobj 0 0) (Z.to_nat WORKSPACESIZE)) 0 0 0 0 0 0 1 0
            [0; 0; 0] [0; 0; 0] [] [] 64.

(** An arena for the instances: the list [(a b)] of two numbers in the
    cells 0 to 3, one free cell (cell 4), zeroes elsewhere. *)
Definition two_numbers_arena (a b : Z) : list object :=
  [ mkobj (cell_addr 2) (cell_addr 1);
    mkobj (cell_addr 3) NULL;
    mkobj NUMBER (wrap16 a);
    mkobj NUMBER (wrap16 b);
    mkobj NULL NULL ]
  ++ repeat (mkobj 0 0) (Z.to_nat WORKSPACESIZE - 5).

Definition two_numbers_machine (a b : Z) : machine :=
  mkMachine (two_numbers_arena a b) 1 (cell_addr 4) 0 0 0 0 1 0
            [0; 0; 0] [0; 0; 0] [] [] 64.

(** The value of a digit string in a base, from an initial value. *)
Definition digits_value (base : Z) (ds : list Z) (acc : Z) : Z :=
  fold_left (fun a d => a * base + digitvalue d) ds acc.

(** The forms of an atom token that is a number: its characters, the active
    base, the sign, and its digits.  Plain or signed digits are read in base
    10; [#B]/[#O]/[#X] (either case) select base 2, 8, 16. *)
Inductive number_token : list Z -> Z -> Z -> list Z -> Prop :=
| number_plain : forall ds, number_token ds 10 1 ds
| number_plus : forall ds, number_token (43 :: ds) 10 1 ds
| number_minus : forall ds, number_token (45 :: ds) 10 (-1) ds
| number_bin : forall c ds, c = 66 \/ c = 98 -> number_token (35 :: c :: ds) 2 1 ds
| number_oct : forall c ds, c = 79 \/ c = 111 -> number_token (35 :: c :: ds) 8 1 ds
| number_hex : forall c ds, c = 88 \/ c = 120 -> number_token (35 :: c :: ds) 16 1 ds.

(** A character is a byte and a valid digit in the base. *)
Definition digit_in (base : Z) (d : Z) : Prop :=
  0 <= d < 256 /\ digitvalue d < base.

(** The machine after [initworkspace] on a freshly started board, and the
    same with the characters of [s] waiting in the supplier. *)
Definition booted : machine := initworkspace power_on.

Definition reading (s : string) : machine := with_Source (codes s) booted.

(** The outcome is a number cell holding [n] (decidable form of
    [holds_int] on the returned pointer). *)
Definition returns_int (o : outcome Z) (n : Z) : bool :=
  match o with
  | Done p m =>
      integerp (Workspace m) p && (cdr (getobj (Workspace m) p) =? wrap16 n)
      && (INT_MIN <=? n) && (n <=? INT_MAX)
  | _ => false
  end.

(** ** Reachability, as [markobject] traverses the arena

    A cell is traversed as a cons (both words are followed) when its first
    word is [ZZERO] or at least [PAIR]; an array is followed through its
    second word; a string or a long symbol is the head of a chain of cells
    linked through their first words. *)

Definition is_cons_type (t : Z) : bool := (PAIR <=? t) || (t =? ZZERO).

Definition is_chain_head (ws : list object) (p : Z) : bool :=
  (type_of ws p =? STRING) || ((type_of ws p =? SYMBOL) && longsymbolp ws p).

(** The cells of a chain, from its first cell to [NULL]. *)
Inductive chain (ws : list object) : Z -> list Z -> Prop :=
| chain_nil : chain ws NULL []
| chain_cons : forall p l,
    p <> NULL -> chain ws (car (getobj ws p)) l -> chain ws p (p :: l).

(** Objects reachable from the roots. *)
Inductive reach_obj (ws : list object) (roots : list Z) : Z -> Prop :=
| reach_root : forall r, In r roots -> r <> NULL -> reach_obj ws roots r
| reach_car : forall p,
    reach_obj ws roots p -> is_cons_type (type_of ws p) = true ->
    car (getobj ws p) <> NULL -> reach_obj ws roots (car (getobj ws p))
| reach_cdr : forall p,
    reach_obj ws roots p ->
    is_cons_type (type_of ws p) = true \/ type_of ws p = ARRAY ->
    cdr (getobj ws p) <> NULL -> reach_obj ws roots (cdr (getobj ws p)).

(** Cells of the chain of a reachable string or long symbol. *)
Definition reach_chain (ws : list object) (roots : list Z) (c : Z) : Prop :=
  exists h l, reach_obj ws roots h /\ is_chain_head ws h = true /\
              chain ws (cdr (getobj ws h)) l /\ In c l.

Definition reachable (ws : list object) (roots : list Z) (p : Z) : Prop :=
  reach_obj ws roots p \/ reach_chain ws roots p.

(** A well-formed heap, as far as the collector is concerned: the arena has
    its size, its words are 16 bits wide, no cell carries the mark bit (the
    bit is set only during a collection), every reachable pointer is the
    address of an object, and every reachable string or long symbol has a
    finite chain of cells of its own: they are addresses of objects, they are
    not reachable as objects, and they belong to no other reachable chain. *)
Record heap_ok (ws : list object) (roots : list Z) : Prop := {
  ok_length : length ws = Z.to_nat WORKSPACESIZE;
  ok_words : forall p, valid p -> 0 <= car (getobj ws p) < 65536;
  ok_unmarked : forall p, valid p -> marked ws p = false;
  ok_valid : forall p, reach_obj ws roots p -> valid p;
  ok_chain : forall h, reach_obj ws roots h -> is_chain_head ws h = true ->
      exists l, chain ws (cdr (getobj ws h)) l /\
                Forall valid l /\ Forall (fun c => ~ reach_obj ws roots c) l;
  ok_owner : forall h1 h2 l1 l2 c,
      reach_obj ws roots h1 -> is_chain_head ws h1 = true ->
      reach_obj ws roots h2 -> is_chain_head ws h2 = true ->
      chain ws (cdr (getobj ws h1)) l1 -> chain ws (cdr (getobj ws h2)) l2 ->
      In c l1 -> In c l2 -> h1 = h2
}.

(** The roots of [gc (form, env)]. *)
Definition gc_roots (m : machine) (form env : Z) : list Z :=
  [tee m; GlobalEnv m; GCStack m; form; env].

(** The arena [ws] is [ws0] with the mark bit set on some cells. *)
Definition marks_only (ws0 ws : list object) : Prop :=
  length ws = length ws0 /\
  forall p, valid p ->
    getobj ws p =
    if marked ws p
    then mkobj (Z.lor (car (getobj ws0 p)) MARKBIT) (cdr (getobj ws0 p))
    else getobj ws0 p.

(** The successors of [x] in [ws0] carry the mark bit in [ws]. *)
Definition closed_at (ws0 ws : list object) (x : Z) : Prop :=
  (is_cons_type (type_of ws0 x) = true ->
     (car (getobj ws0 x) <> NULL -> marked ws (car (getobj ws0 x)) = true) /\
     (cdr (getobj ws0 x) <> NULL -> marked ws (cdr (getobj ws0 x)) = true)) /\
  (type_of ws0 x = ARRAY ->
     cdr (getobj ws0 x) <> NULL -> marked ws (cdr (getobj ws0 x)) = true).

(** The invariant of the mark phase, relative to the heap [ws0] it started
    from: only mark bits were added, only on reachable cells, and a chain is
    marked exactly when its head is. *)
Record mark_inv (ws0 : list object) (roots : list Z) (ws : list object) : Prop := {
  mi_marks : marks_only ws0 ws;
  mi_reach : forall p, valid p -> marked ws p = true -> reachable ws0 roots p;
  mi_chain : forall h l c,
      reach_obj ws0 roots h -> is_chain_head ws0 h = true ->
      chain ws0 (cdr (getobj ws0 h)) l -> In c l ->
      marked ws c = marked ws h
}.

(** [U] lists, without repetition, at least the cells not yet marked. *)
Definition covers (U : list Z) (ws : list object) : Prop :=
  NoDup U /\ forall p, valid p -> marked ws p = false -> In p U.

(** The integers [start], [start+1], ..., [n] of them. *)
Fixpoint zrange (n : nat) (start : Z) : list Z :=
  match n with
  | O => []
  | S k => start :: zrange k (start + 1)
  end.

(** ** A checker for [heap_ok]

    [heap_okb ws roots objs] checks a heap against a list [objs] that names
    (at least) its reachable objects; [heap_okb_sound] shows that it decides
    in favour of [heap_ok] only. *)

Fixpoint chaincells (fuel : nat) (ws : list object) (p : Z) : option (list Z) :=
  match fuel with
  | O => None
  | S fuel' =>
      if p =? NULL then Some []
      else match chaincells fuel' ws (car (getobj ws p)) with
           | Some l => Some (p :: l)
           | None => None
           end
  end.

Definition memb (x : Z) (l : list Z) : bool := existsb (Z.eqb x) l.

Definition null_or_in (x : Z) (objs : list Z) : bool := (x =? NULL) || memb x objs.

Fixpoint nodupb (l : list Z) : bool :=
  match l with
  | [] => true
  | x :: rest => negb (memb x rest) && nodupb rest
  end.

Definition obj_closed (ws : list object) (objs : list Z) (p : Z) : bool :=
  validb p &&
  (if is_cons_type (type_of ws p)
   then null_or_in (car (getobj ws p)) objs && null_or_in (cdr (getobj ws p)) objs
   else if type_of ws p =? ARRAY then null_or_in (cdr (getobj ws p)) objs
   else true).

Definition head_chain (ws : list object) (h : Z) : option (list Z) :=
  if is_chain_head ws h
  then chaincells (S (Z.to_nat WORKSPACESIZE)) ws (cdr (getobj ws h))
  else Some [].

Fixpoint all_chains (ws : list object) (objs : list Z) : option (list Z) :=
  match objs with
  | [] => Some []
  | h :: rest =>
      match head_chain ws h, all_chains ws rest with
      | Some l, Some ls => Some (l ++ ls)
      | _, _ => None
      end
  end.

Definition word_unmarked (o : object) : bool :=
  (0 <=? car o) && (car o <? 65536) && (Z.land (car o) MARKBIT =? 0).

Definition heap_okb (ws : list object) (roots objs : list Z) : bool :=
  Nat.eqb (length ws) (Z.to_nat WORKSPACESIZE)
  && forallb word_unmarked ws
  && forallb (fun r => null_or_in r objs) roots
  && forallb (obj_closed ws objs) objs
  && nodupb objs
  && match all_chains ws objs with
     | Some cs =>
         forallb validb cs && nodupb cs && forallb (fun c => negb (memb c objs)) cs
     | None => false
     end.

(** An arena for the instances of the collector: the symbol [t] (cell 0), a
    global environment [((x . "hel"))] (cells 1 to 6, the string with a chain
    of two cells), a number that nothing refers to (cell 7), zeroes
    elsewhere. *)
Definition gc_example_arena : list object :=
  [ mkobj SYMBOL (sym TEE);
    mkobj (cell_addr 2) NULL;
    mkobj (cell_addr 3) (cell_addr 4);
    mkobj SYMBOL (twist (pack40 (codes "x")));
    mkobj STRING (cell_addr 5);
    mkobj (cell_addr 6) 26725;
    mkobj NULL 27648;
    mkobj NUMBER 5 ]
  ++ repeat (mkobj 0 0) (Z.to_nat WORKSPACESIZE - 8).

Definition gc_example : machine :=
  mkMachine gc_example_arena 0 NULL 0 (cell_addr 1) NULL 0 1 (cell_addr 0)
            [0; 0; 0] [0; 0; 0] [] [] 64.


(** A proper list in the arena: the addresses of its cells and the words in
    their [car]s. *)
Inductive list_cells (ws : list object) : Z -> list Z -> list Z -> Prop :=
| list_cells_nil : list_cells ws NULL [] []
| list_cells_cons : forall p cells xs,
    valid p -> list_cells ws (cdr (getobj ws p)) cells xs ->
    list_cells ws p (p :: cells) (car (getobj ws p) :: xs).

(** The binding pairs of an environment that [copy_environment] keeps: the
    frame markers ([nil] entries) are dropped. *)
Definition bindings (entries : list Z) : list Z :=
  filter (fun pair => negb (pair =? NULL)) entries.

(** [setup] ([initworkspace], [initenv]) on a freshly started board, then
    [read] on the text [s]. *)
Definition loaded (s : string) : outcome Z :=
  (initenv ;;; read 100) (reading s).

Definition form_of (o : outcome Z) : Z :=
  match o with Done p _ => p | _ => NULL end.

Definition machine_of (o : outcome Z) : machine :=
  match o with Done _ m => m | _ => power_on end.

(** The machine with other objects from cell [k] of the arena on. *)
Definition elsewhere (k : nat) (rest : list object) (m : machine) : machine :=
  with_Workspace (firstn k (Workspace m) ++ rest) m.

(** The form read from [s] sits in the first cells of the arena and is
    evaluated in the environment [env]; the global environment, the
    GC-protection stack and the arena from cell 40 on are what they are. *)
Definition evaluates_to (s : string) (env genv gcstack : Z) (rest : list object)
    (n : Z) : Prop :=
  returns_int
    (eval 100 0 0 (form_of (loaded s)) env
       (with_GlobalEnv genv (with_GCStack gcstack (elsewhere 40 rest (machine_of (loaded s))))))
    n = true.

(** One turn of the read/evaluate/print loop on the text [s] after [setup]. *)
Definition repl_returns (s : string) (n : Z) : Prop :=
  returns_int ((initenv ;;; repl_turn 200 NULL) (reading s)) n = true.

(** An arena for the instances of the evaluator: the environment
    [((x . 1))] (cells 0 to 3) and two free cells. *)
Definition env_example_arena : list object :=
  [ mkobj SYMBOL (twist (pack40 (codes "x")));
    mkobj NUMBER 1;
    mkobj (cell_addr 0) (cell_addr 1);
    mkobj (cell_addr 2) NULL;
    mkobj NULL (cell_addr 5);
    mkobj NULL NULL ]
  ++ repeat (mkobj 0 0) (Z.to_nat WORKSPACESIZE - 6).

Definition env_example : machine :=
  mkMachine env_example_arena 2 (cell_addr 4) 0 NULL NULL 0 1 NULL
            [0; 0; 0] [0; 0; 0] [] [] 64.

(** ** Notions used for the functions around the allocator, the symbol
       table and the printer *)

(** The link [initworkspace] stores in the cell before cell [i]: the address
    of cell [i], [NULL] after the last cell. *)
Definition free_link (i : nat) : Z :=
  if (i =? Z.to_nat WORKSPACESIZE)%nat then NULL else cell_addr i.

(** The arena [initworkspace] leaves: every cell free and linked to the cell
    after it. *)
Definition fresh_arena : list object :=
  map (fun i => mkobj NULL (free_link (S i))) (seq 0 (Z.to_nat WORKSPACESIZE)).

(** The rows of both lookup tables, in the order [lookupbuiltin] scans
    them. *)
Definition all_rows : list (string * Z) := lookup_table ++ lookup_table2.

(** What [strcasecmp_P] compares: the name with its letters in lower case. *)
Definition row_key (r : string * Z) : list Z := map tolower (codes (fst r)).

Fixpoint list_eqb (a b : list Z) : bool :=
  match a, b with
  | [], [] => true
  | x :: a', y :: b' => (x =? y) && list_eqb a' b'
  | _, _ => false
  end.

Fixpoint keys_distinct (ks : list (list Z)) : bool :=
  match ks with
  | [] => true
  | k :: rest => forallb (fun k' => negb (list_eqb k k')) rest && keys_distinct rest
  end.

(** The test of [value]: the entry [pair] of an environment binds the name
    [n]. *)
Definition binds (ws : list object) (n : Z) (pair : Z) : bool :=
  negb (pair =? NULL) && (cdr (getobj ws (car (getobj ws pair))) =? n).

(** The first entry of [pairs] that binds [n], [nil] if there is none. *)
Definition first_binding (ws : list object) (n : Z) (pairs : list Z) : Z :=
  match find (binds ws n) pairs with
  | Some p => p
  | None => NULL
  end.

(** The cells met from [p] by following [cdr] up to the pointer [e]. *)
Inductive spine (ws : list object) : Z -> list Z -> Z -> Prop :=
| spine_end : forall e, spine ws e [] e
| spine_step : forall p cells e,
    p <> NULL -> spine ws (cdr (getobj ws p)) cells e -> spine ws p (p :: cells) e.

(** [ws'] is [ws] up to mark bits that were set: same size, same [cdr]
    words, and each [car] word as it was or with [MARKBIT] added. *)
Definition only_mark_bits (ws ws' : list object) : Prop :=
  length ws' = length ws /\
  forall q,
    cdr (getobj ws' q) = cdr (getobj ws q) /\
    (car (getobj ws' q) = car (getobj ws q) \/
     car (getobj ws' q) = Z.lor (car (getobj ws q)) MARKBIT).

(** The characters held by a chain of string cells: two to a cell, the
    first in the high byte; the last cell may hold one. *)
Inductive chars_at (ws : list object) : Z -> list Z -> Prop :=
| chars_at_nil : chars_at ws NULL []
| chars_at_one : forall p c,
    valid p -> getobj ws p = mkobj NULL (Z.shiftl c 8) -> chars_at ws p [c]
| chars_at_two : forall p c1 c2 rest,
    valid p -> cdr (getobj ws p) = Z.lor (Z.shiftl c1 8) c2 ->
    chars_at ws (car (getobj ws p)) rest ->
    chars_at ws p (c1 :: c2 :: rest).

(** A character of a string: a byte other than the terminator. *)
Definition is_char (c : Z) : Prop := 1 <= c < 256.

(** The text of a string as [plispstr] prints it readably: a backslash
    before every double quote and backslash. *)
Definition escape (s : list Z) : list Z :=
  flat_map (fun c => if (c =? 34) || (c =? 92) then [92; c] else [c]) s.

(** Where [buildstring] stands while it appends to a string: at the header
    (first word [h], no character yet), at a cell that holds one character
    [c], or at a cell that holds two (second word [w]). *)
Inductive tail_state : Type :=
| AtHeader (h : Z)
| HalfCell (c : Z)
| FullCell (w : Z).

Definition tail_ok (ws : list object) (tail : Z) (st : tail_state) : Prop :=
  match st with
  | AtHeader h => getobj ws tail = mkobj h NULL
  | HalfCell c => is_char c /\ getobj ws tail = mkobj NULL (Z.shiftl c 8)
  | FullCell w => getobj ws tail = mkobj NULL w /\ Z.land w 255 <> 0
  end.

(** The characters [s] have been appended after the position [tail], [st]. *)
Definition attached (ws : list object) (tail : Z) (st : tail_state) (s : list Z) : Prop :=
  match st with
  | AtHeader h => car (getobj ws tail) = h /\ chars_at ws (cdr (getobj ws tail)) s
  | HalfCell c => chars_at ws tail (c :: s)
  | FullCell w => cdr (getobj ws tail) = w /\ chars_at ws (car (getobj ws tail)) s
  end.

(** Cells [buildstring] takes for [s] from that position on. *)
Definition cells_needed (st : tail_state) (s : list Z) : Z :=
  match st with
  | HalfCell _ => Z.of_nat (length s) / 2
  | _ => (Z.of_nat (length s) + 1) / 2
  end.

(** The position after [buildstring] has appended [c]. *)
Definition next_state (st : tail_state) (c : Z) : tail_state :=
  match st with
  | HalfCell c0 => FullCell (Z.lor (Z.shiftl c0 8) c)
  | _ => HalfCell c
  end.

(** Whether [buildstring] takes a cell from the free list at that
    position. *)
Definition takes_cell (st : tail_state) : bool :=
  match st with
  | HalfCell _ => false
  | _ => true
  end.

(** The heap while a string is built: the free list is [fl], and the cell
    [tail] the string ends in is in use. *)
Definition building (m : machine) (tail : Z) (st : tail_state) (fl : list Z) : Prop :=
  length (Workspace m) = Z.to_nat WORKSPACESIZE /\
  freechain (Workspace m) (Freelist m) fl /\
  Freespace m = Z.of_nat (length fl) /\
  valid tail /\ ~ In tail fl /\
  tail_ok (Workspace m) tail st.

(** What a run of [buildstring] calls that started on the arena [ws] with
    the free list [fl], at the position [tail], [st], has done when it
    leaves the machine [m']: the characters [s] are appended, the cells for
    them are taken from the front of the free list, and no other cell is
    written. *)
Definition appended (ws : list object) (fl : list Z) (m' : machine)
    (tail : Z) (st : tail_state) (s : list Z) : Prop :=
  exists used fl',
    fl = used ++ fl' /\
    Z.of_nat (length used) = cells_needed st s /\
    length (Workspace m') = Z.to_nat WORKSPACESIZE /\
    freechain (Workspace m') (Freelist m') fl' /\
    Freespace m' = Z.of_nat (length fl') /\
    attached (Workspace m') tail st s /\
    (forall p, p <> tail -> ~ In p fl -> getobj (Workspace m') p = getobj ws p).

(** The text of a C string as [lispstring] takes it: a backslash is dropped
    and the byte after it kept as it is; no result when the text ends in a
    lone backslash. *)
Fixpoint unbackslash (s : list Z) : option (list Z) :=
  match s with
  | [] => Some []
  | c :: rest =>
      if c =? 92 then
        match rest with
        | [] => None
        | c' :: rest' => option_map (fun t => c' :: t) (unbackslash rest')
        end
      else option_map (fun t => c :: t) (unbackslash rest)
  end.

(** An arena for the instances of the string functions: the string of the
    three characters a, double quote, b (cells 0 to 2), four free cells (3 to
    6), zeroes elsewhere. *)
Definition string_example_arena : list object :=
  [ mkobj STRING (cell_addr 1);
    mkobj (cell_addr 2) 24866;
    mkobj NULL 25088;
    mkobj NULL (cell_addr 4);
    mkobj NULL (cell_addr 5);
    mkobj NULL (cell_addr 6);
    mkobj NULL NULL ]
  ++ repeat (mkobj 0 0) (Z.to_nat WORKSPACESIZE - 7).

Definition string_example : machine :=
  mkMachine string_example_arena 4 (cell_addr 3) 0 NULL NULL 0 1 NULL
            [0; 0; 0] [0; 0; 0] [] [] 64.

(** A cell in use: an object of the arena that is not on the free list
    [fl]. *)
Definition in_use (fl : list Z) (p : Z) : Prop := valid p /\ ~ In p fl.

(** A well-formed global environment [g]: a proper list (cells [cells])
    whose entries [pairs] are pairs in use, each with a symbol in use as its
    [car]. *)
Definition genv_ok (ws : list object) (fl : list Z) (g : Z) (cells pairs : list Z) : Prop :=
  list_cells ws g cells pairs /\
  (forall c, In c cells -> ~ In c fl) /\
  (forall p, In p pairs ->
     in_use fl p /\ in_use fl (car (getobj ws p)) /\
     car (getobj ws (car (getobj ws p))) = SYMBOL).

(** An arena for the instances of the global definitions: the global
    environment [((x . 1))] (cells 0 to 3), the symbol [f] (cell 4), the
    argument lists [(f nil)] of a [defun] (cells 5 and 6) and [(f)] of a
    [defvar] (cell 7), five free cells (8 to 12), zeroes elsewhere. *)
Definition globals_example_arena : list object :=
  [ mkobj SYMBOL (twist (pack40 (codes "x")));
    mkobj NUMBER 1;
    mkobj (cell_addr 0) (cell_addr 1);
    mkobj (cell_addr 2) NULL;
    mkobj SYMBOL (twist (pack40 (codes "f")));
    mkobj (cell_addr 4) (cell_addr 6);
    mkobj NULL NULL;
    mkobj (cell_addr 4) NULL;
    mkobj NULL (cell_addr 9);
    mkobj NULL (cell_addr 10);
    mkobj NULL (cell_addr 11);
    mkobj NULL (cell_addr 12);
    mkobj NULL NULL ]
  ++ repeat (mkobj 0 0) (Z.to_nat WORKSPACESIZE - 13).

Definition globals_example : machine :=
  mkMachine globals_example_arena 5 (cell_addr 8) 0 (cell_addr 3) NULL 0 1 NULL
            [0; 0; 0] [0; 0; 0] [] [] 64.

(** An arena for the instance of [quote]: the symbol [quote] (cell 0), the
    form [(quote 7)] (cells 1 and 2), the number 7 (cell 3); every other
    cell is free, linked as [initworkspace] links them. *)
Definition quote_example_arena : list object :=
  [ mkobj SYMBOL (sym QUOTE);
    mkobj (cell_addr 0) (cell_addr 2);
    mkobj (cell_addr 3) NULL;
    mkobj NUMBER 7 ]
  ++ skipn 4 fresh_arena.

Definition quote_example : machine :=
  mkMachine quote_example_arena (WORKSPACESIZE - 4) (cell_addr 4) 0 NULL NULL 0 1 NULL
            [0; 0; 0] [0; 0; 0] [] [] 64.
(** * Properties *)

(** Memory layout: [Workspace] is 4-byte aligned, lies above the small
    integers used as type tags, and fits the 16-bit address space. *)
Hypothesis Workspace_aligned : WorkspaceAddr mod 4 = 0.
Hypothesis Workspace_low : PAIR <= WorkspaceAddr.
Hypothesis Workspace_high : WorkspaceAddr + 4 * WORKSPACESIZE <= 65536.

(** ** Addresses and cells *)

Lemma valid_iff p :
  valid p <->
  WorkspaceAddr <= p < WorkspaceAddr + 4 * WORKSPACESIZE /\ (p - WorkspaceAddr) mod 4 = 0.
Proof.
  unfold valid, validb. rewrite !andb_true_iff, Z.leb_le, Z.ltb_lt, Z.eqb_eq. tauto.
Qed.

Lemma valid_cell_addr i :
  (i < Z.to_nat WORKSPACESIZE)%nat -> valid (cell_addr i).
Proof.
  intros Hi. apply valid_iff. unfold cell_addr. split; [lia|].
  replace (WorkspaceAddr + 4 * Z.of_nat i - WorkspaceAddr) with (Z.of_nat i * 4) by lia.
  apply Z_mod_mult.
Qed.

Lemma cell_index_addr i : cell_index (cell_addr i) = i.
Proof.
  unfold cell_index, cell_addr.
  replace (WorkspaceAddr + 4 * Z.of_nat i - WorkspaceAddr) with (Z.of_nat i * 4) by lia.
  rewrite Z_div_mult by lia. apply Nat2Z.id.
Qed.

Lemma valid_index p :
  valid p -> (cell_index p < Z.to_nat WORKSPACESIZE)%nat /\ cell_addr (cell_index p) = p.
Proof.
  intros Hv. apply valid_iff in Hv. destruct Hv as [Hr Hm].
  unfold cell_index, cell_addr.
  assert (Hd : p - WorkspaceAddr = 4 * ((p - WorkspaceAddr) / 4)).
  { rewrite (Z_div_mod_eq_full (p - WorkspaceAddr) 4) at 1. lia. }
  split.
  - apply Nat2Z.inj_lt. rewrite Z2Nat.id by (apply Z.div_pos; lia).
    rewrite Z2Nat.id by (unfold WORKSPACESIZE; lia).
    apply Z.div_lt_upper_bound; lia.
  - rewrite Z2Nat.id by (apply Z.div_pos; lia). lia.
Qed.

Lemma valid_not_null p : valid p -> p <> NULL.
Proof.
  intros Hv. apply valid_iff in Hv. unfold NULL, PAIR in *. lia.
Qed.

Lemma valid_ge_PAIR p : valid p -> PAIR <= p.
Proof. intros Hv. apply valid_iff in Hv. lia. Qed.

Lemma valid_lt_65536 p : valid p -> p < 65536.
Proof. intros Hv. apply valid_iff in Hv. lia. Qed.

Lemma valid_even p : valid p -> Z.land p MARKBIT = 0.
Proof.
  intros Hv. apply valid_iff in Hv. destruct Hv as [_ Hm].
  unfold MARKBIT. change 1 with (Z.ones 1). rewrite Z.land_ones by lia.
  change (2 ^ 1) with 2.
  assert (H4 : p mod 4 = 0).
  { replace p with ((p - WorkspaceAddr) + WorkspaceAddr) by lia.
    rewrite Z.add_mod by lia. rewrite Hm, Workspace_aligned. reflexivity. }
  rewrite (Z_div_mod_eq_full p 4), H4.
  replace (4 * (p / 4) + 0) with ((2 * (p / 4)) * 2) by lia.
  apply Z_mod_mult.
Qed.

Lemma cell_index_inj p q : valid p -> valid q -> cell_index p = cell_index q -> p = q.
Proof.
  intros Hp Hq E. destruct (valid_index p Hp) as [_ <-].
  destruct (valid_index q Hq) as [_ <-]. now rewrite E.
Qed.

Lemma length_list_update {A} (l : list A) i x : length (list_update l i x) = length l.
Proof.
  revert i; induction l as [|h t IH]; intros [|i]; simpl; auto.
Qed.

Lemma nth_list_update_eq {A} (l : list A) i x d :
  (i < length l)%nat -> nth i (list_update l i x) d = x.
Proof.
  revert i; induction l as [|h t IH]; intros [|i]; simpl; intros; try lia; auto.
  apply IH; lia.
Qed.

Lemma nth_list_update_ne {A} (l : list A) i j x d :
  i <> j -> nth j (list_update l i x) d = nth j l d.
Proof.
  revert i j; induction l as [|h t IH]; intros [|i] [|j]; simpl; intros; auto; try lia.
Qed.

Lemma length_setobj ws p o : length (setobj ws p o) = length ws.
Proof. unfold setobj. destruct (validb p); auto using length_list_update. Qed.

Lemma getobj_setobj_eq ws p o :
  valid p -> length ws = Z.to_nat WORKSPACESIZE -> getobj (setobj ws p o) p = o.
Proof.
  intros Hv Hl. unfold getobj, setobj. rewrite Hv.
  apply nth_list_update_eq. rewrite Hl. apply valid_index; auto.
Qed.

Lemma getobj_setobj_ne ws p q o : p <> q -> getobj (setobj ws p o) q = getobj ws q.
Proof.
  intros Hne. unfold getobj, setobj.
  destruct (validb q) eqn:Hq; auto.
  destruct (validb p) eqn:Hp; auto.
  apply nth_list_update_ne. intros E. apply Hne. now apply cell_index_inj.
Qed.

Lemma length_set_car ws p v : length (set_car ws p v) = length ws.
Proof. apply length_setobj. Qed.

Lemma length_set_cdr ws p v : length (set_cdr ws p v) = length ws.
Proof. apply length_setobj. Qed.

Lemma getobj_set_car_ne ws p q v : p <> q -> getobj (set_car ws p v) q = getobj ws q.
Proof. apply getobj_setobj_ne. Qed.

Lemma getobj_set_cdr_ne ws p q v : p <> q -> getobj (set_cdr ws p v) q = getobj ws q.
Proof. apply getobj_setobj_ne. Qed.

Lemma getobj_set_car_eq ws p v :
  valid p -> length ws = Z.to_nat WORKSPACESIZE ->
  getobj (set_car ws p v) p = mkobj v (cdr (getobj ws p)).
Proof. intros. now apply getobj_setobj_eq. Qed.

Lemma getobj_set_cdr_eq ws p v :
  valid p -> length ws = Z.to_nat WORKSPACESIZE ->
  getobj (set_cdr ws p v) p = mkobj (car (getobj ws p)) v.
Proof. intros. now apply getobj_setobj_eq. Qed.

(** The two stores of [myfree]/[initworkspace] seen as one. *)
Lemma getobj_free_cell ws p link :
  valid p -> length ws = Z.to_nat WORKSPACESIZE ->
  getobj (set_cdr (set_car ws p NULL) p link) p = mkobj NULL link.
Proof.
  intros Hv Hl. rewrite getobj_set_cdr_eq; auto.
  - rewrite getobj_set_car_eq; auto.
  - now rewrite length_set_car.
Qed.

Lemma getobj_free_cell_ne ws p q link :
  p <> q -> getobj (set_cdr (set_car ws p NULL) p link) q = getobj ws q.
Proof.
  intros Hne. rewrite getobj_set_cdr_ne, getobj_set_car_ne; auto.
Qed.

(** ** The free list *)

Lemma freechain_valid ws p l : freechain ws p l -> Forall valid l.
Proof. induction 1; constructor; auto. Qed.

Lemma freechain_inj ws p l1 l2 : freechain ws p l1 -> freechain ws p l2 -> l1 = l2.
Proof.
  intros H; revert l2; induction H; intros l2 H2; inversion H2; subst; auto;
    try congruence.
  f_equal; auto.
Qed.

Lemma freechain_suffix ws p l q :
  freechain ws p l -> In q l -> exists l1 l2, l = l1 ++ q :: l2 /\ freechain ws q (q :: l2).
Proof.
  induction 1 as [|p l Hn Hv Hc IH]; simpl; [tauto|].
  intros [->|Hin].
  - exists [], l. split; auto. now constructor.
  - destruct (IH Hin) as (l1 & l2 & -> & Hq). exists (p :: l1), l2. split; auto.
Qed.

Lemma freechain_NoDup ws p l : freechain ws p l -> NoDup l.
Proof.
  induction 1 as [|p l Hn Hv Hc IH]; constructor; auto.
  intros Hin. destruct (freechain_suffix _ _ _ _ Hc Hin) as (l1 & l2 & E & Hq).
  inversion Hq; subst.
  assert (El : l2 = l1 ++ p :: l2) by (eapply freechain_inj; eauto).
  apply (f_equal (@length Z)) in El. rewrite length_app in El. simpl in El. lia.
Qed.

Lemma NoDup_valid_length l :
  NoDup l -> Forall valid l -> (length l <= Z.to_nat WORKSPACESIZE)%nat.
Proof.
  intros Hnd Hv.
  rewrite <- (length_map cell_index l), <- (length_seq (Z.to_nat WORKSPACESIZE) 0).
  apply NoDup_incl_length.
  - clear -Hnd Hv Workspace_aligned. induction Hnd as [|x l Hx Hnd IH]; simpl; constructor.
    + inversion Hv; subst. intros Hin. apply in_map_iff in Hin.
      destruct Hin as (y & Ey & Hy). apply Hx.
      rewrite Forall_forall in H2. rewrite <- (cell_index_inj y x); auto.
    + inversion Hv; auto.
  - intros i Hi. apply in_map_iff in Hi. destruct Hi as (p & <- & Hp).
    rewrite Forall_forall in Hv. apply in_seq. split; [lia|].
    simpl. apply valid_index; auto.
Qed.

Lemma freechain_length ws p l :
  freechain ws p l -> (length l <= Z.to_nat WORKSPACESIZE)%nat.
Proof.
  intros H. apply NoDup_valid_length; eauto using freechain_NoDup, freechain_valid.
Qed.

(** A store to a cell that is not on the chain leaves the chain as it is. *)
Lemma freechain_setobj ws p l q o :
  freechain ws p l -> ~ In q l -> freechain (setobj ws q o) p l.
Proof.
  induction 1 as [|p l Hn Hv Hc IH]; intros Hq; constructor; auto.
  - rewrite getobj_setobj_ne by (intros ->; apply Hq; now left).
    apply IH. intros Hin. apply Hq. now right.
Qed.

Lemma freechain_push ws p l obj :
  length ws = Z.to_nat WORKSPACESIZE ->
  freechain ws p l -> valid obj -> ~ In obj l ->
  freechain (set_cdr (set_car ws obj NULL) obj p) obj (obj :: l).
Proof.
  intros Hl Hc Hv Hq. constructor; auto using valid_not_null.
  rewrite getobj_free_cell by auto. simpl.
  unfold set_cdr, set_car. apply freechain_setobj; auto. apply freechain_setobj; auto.
Qed.

Lemma freecells_sound fuel ws p l : freecells fuel ws p = Some l -> freechain ws p l.
Proof.
  revert p l; induction fuel as [|fuel IH]; simpl; intros p l; [discriminate|].
  destruct (Z.eqb_spec p NULL) as [->|Hn].
  - intros [= <-]. constructor.
  - destruct (validb p) eqn:Hv; [|discriminate].
    destruct (freecells fuel ws (cdr (getobj ws p))) eqn:E; [|discriminate].
    intros [= <-]. constructor; auto.
Qed.

(** ** myalloc, myfree, initworkspace *)

Lemma myalloc_spec m :
  myalloc m =
  if Freespace m =? 0 then Error "no room"%string (with_GCStack NULL (with_Context NIL m))
  else Done (Freelist m)
         (with_Freespace (wrap16 (Freespace m - 1))
            (with_Freelist (cdr (getobj (Workspace m) (Freelist m))) m)).
Proof. unfold myalloc. destruct (Freespace m =? 0); reflexivity. Qed.

Lemma freelist_inv_empty m :
  freelist_inv m -> (Freespace m = 0 <-> Freelist m = NULL).
Proof.
  intros (Hl & l & Hc & Hf). split; intros H.
  - rewrite H in Hf. destruct l; simpl in Hf; [|lia].
    inversion Hc; auto.
  - rewrite H in Hc. inversion Hc; subst; simpl in *; auto. congruence.
Qed.

Lemma freelist_inv_myalloc m :
  freelist_inv m ->
  match myalloc m with
  | Done p m' => p = Freelist m /\ p <> NULL /\ freelist_inv m'
  | Error _ m' => Freelist m = NULL /\ freelist_inv m'
  | _ => False
  end.
Proof.
  intros Hinv. pose proof (freelist_inv_empty m Hinv) as He.
  destruct Hinv as (Hl & l & Hc & Hf). rewrite myalloc_spec.
  destruct (Z.eqb_spec (Freespace m) 0) as [E0|N0].
  - split; [tauto|]. split; auto. exists l. simpl. auto.
  - split; auto. split; [tauto|]. split; auto. simpl.
    remember (Freelist m) as p eqn:Ep.
    destruct Hc as [|p l' Hn Hv Hc'].
    + simpl in Hf. lia.
    + exists l'. split; auto.
      rewrite Hf. simpl length. unfold wrap16.
      assert (Hlen : (length (p :: l') <= Z.to_nat WORKSPACESIZE)%nat).
      { eapply freechain_length. constructor; eauto. }
      simpl in Hlen.
      unfold WORKSPACESIZE in *. rewrite Z.mod_small; lia.
Qed.

Lemma freelist_inv_myfree m obj :
  freelist_inv m -> valid obj ->
  (forall l, freechain (Workspace m) (Freelist m) l -> ~ In obj l) ->
  freelist_inv (myfree obj m).
Proof.
  intros (Hl & l & Hc & Hf) Hv Hnot. split.
  - simpl. now rewrite length_set_cdr, length_set_car.
  - exists (obj :: l). simpl. split.
    + apply freechain_push; auto.
    + rewrite Hf. unfold wrap16.
      assert (Hlen : (length (obj :: l) <= Z.to_nat WORKSPACESIZE)%nat).
      { apply NoDup_valid_length.
        - constructor; eauto using freechain_NoDup.
        - constructor; eauto using freechain_valid. }
      simpl in Hlen. unfold WORKSPACESIZE in *. rewrite Z.mod_small; lia.
Qed.

(** The loop of [initworkspace], from index [n] down: the cells below [n]
    are pushed in front of a chain made of cells at or above [n]. *)
Lemma initworkspace_loop n : forall m l,
  (n <= Z.to_nat WORKSPACESIZE)%nat ->
  length (Workspace m) = Z.to_nat WORKSPACESIZE ->
  freechain (Workspace m) (Freelist m) l ->
  Forall (fun p => (n <= cell_index p)%nat) l ->
  Freespace m = Z.of_nat (length l) ->
  length (Workspace (for_down n initworkspace_cell m)) = Z.to_nat WORKSPACESIZE /\
  freechain (Workspace (for_down n initworkspace_cell m))
    (Freelist (for_down n initworkspace_cell m)) (map cell_addr (seq 0 n) ++ l) /\
  Freespace (for_down n initworkspace_cell m) = Z.of_nat (n + length l).
Proof.
  induction n as [|n IH]; intros m l Hn Hl Hc Hge Hf.
  - simpl. auto.
  - change (for_down (S n) initworkspace_cell m)
      with (for_down n initworkspace_cell (initworkspace_cell n m)).
    assert (Hv : valid (cell_addr n)) by (apply valid_cell_addr; lia).
    assert (Hnot : ~ In (cell_addr n) l).
    { intros Hin. rewrite Forall_forall in Hge. apply Hge in Hin.
      rewrite cell_index_addr in Hin. lia. }
    pose proof (freechain_length _ _ _ Hc) as Hlen.
    assert (Hlen' : (length (cell_addr n :: l) <= Z.to_nat WORKSPACESIZE)%nat).
    { apply NoDup_valid_length.
      - constructor; eauto using freechain_NoDup.
      - constructor; eauto using freechain_valid. }
    simpl in Hlen'.
    destruct (IH (initworkspace_cell n m) (cell_addr n :: l)) as (H1 & H2 & H3).
    + lia.
    + simpl. now rewrite length_set_cdr, length_set_car.
    + simpl. apply freechain_push; auto.
    + constructor.
      * rewrite cell_index_addr. lia.
      * eapply Forall_impl; [|exact Hge]. simpl. intros; lia.
    + simpl. rewrite Hf. unfold wrap16, WORKSPACESIZE in *. rewrite Z.mod_small; lia.
    + split; auto. split.
      * rewrite seq_S, map_app, <- app_assoc. exact H2.
      * rewrite H3. simpl length. lia.
Qed.

Lemma freelist_inv_initworkspace m :
  Freespace m = 0 -> length (Workspace m) = Z.to_nat WORKSPACESIZE ->
  freelist_inv (initworkspace m).
Proof.
  intros Hf Hl. unfold initworkspace.
  destruct (initworkspace_loop (Z.to_nat WORKSPACESIZE) (with_Freelist NULL m) [])
    as (H1 & H2 & H3); auto.
  - constructor.
  - split; auto. eexists. split; [exact H2|].
    rewrite H3, length_app, length_map, length_seq. reflexivity.
Qed.

(** ** sweep *)

Lemma same_registers_refl m : same_registers m m.
Proof. repeat split. Qed.

Lemma same_registers_trans m1 m2 m3 :
  same_registers m1 m2 -> same_registers m2 m3 -> same_registers m1 m3.
Proof.
  unfold same_registers. intros H1 H2.
  repeat match goal with H : _ /\ _ |- _ => destruct H end.
  repeat split; congruence.
Qed.

Lemma same_registers_sweep_cell i m : same_registers m (sweep_cell i m).
Proof.
  unfold sweep_cell. destruct (negb (marked (Workspace m) (cell_addr i)));
    repeat split.
Qed.

Lemma marked_setobj_ne ws p q o : p <> q -> marked (setobj ws p o) q = marked ws q.
Proof. intros Hne. unfold marked. now rewrite getobj_setobj_ne. Qed.

Lemma unmarked_below_S ws n :
  unmarked_below ws (S n) =
  unmarked_below ws n ++ (if marked ws (cell_addr n) then [] else [n]).
Proof.
  unfold unmarked_below. rewrite seq_S, filter_app. simpl.
  destruct (marked ws (cell_addr n)); reflexivity.
Qed.

Lemma unmarked_below_ext ws ws' n :
  (forall i, (i < n)%nat -> getobj ws' (cell_addr i) = getobj ws (cell_addr i)) ->
  unmarked_below ws' n = unmarked_below ws n.
Proof.
  intros H. unfold unmarked_below. apply filter_ext_in.
  intros i Hi. apply in_seq in Hi. unfold marked. rewrite H by lia. reflexivity.
Qed.

Lemma cell_addr_inj i j : cell_addr i = cell_addr j -> i = j.
Proof. unfold cell_addr. lia. Qed.

(** The loop of [sweep] from index [n] down, started with a chain [l] of
    cells at or above [n]: unmarked cells below [n] are pushed in front of [l],
    marked cells below [n] lose the mark bit, the cells at or above [n] are
    left alone. *)
Lemma sweep_loop n : forall m l,
  (n <= Z.to_nat WORKSPACESIZE)%nat ->
  length (Workspace m) = Z.to_nat WORKSPACESIZE ->
  freechain (Workspace m) (Freelist m) l ->
  Forall (fun p => (n <= cell_index p)%nat) l ->
  Freespace m = Z.of_nat (length l) ->
  length (Workspace (for_down n sweep_cell m)) = Z.to_nat WORKSPACESIZE /\
  freechain (Workspace (for_down n sweep_cell m)) (Freelist (for_down n sweep_cell m))
    (map cell_addr (unmarked_below (Workspace m) n) ++ l) /\
  Freespace (for_down n sweep_cell m)
    = Z.of_nat (length (unmarked_below (Workspace m) n) + length l) /\
  (forall i, (i < n)%nat -> marked (Workspace m) (cell_addr i) = true ->
     getobj (Workspace (for_down n sweep_cell m)) (cell_addr i)
     = mkobj (Z.land (car (getobj (Workspace m) (cell_addr i))) (65535 - MARKBIT))
             (cdr (getobj (Workspace m) (cell_addr i)))) /\
  (forall i, (n <= i)%nat ->
     getobj (Workspace (for_down n sweep_cell m)) (cell_addr i)
     = getobj (Workspace m) (cell_addr i)) /\
  same_registers m (for_down n sweep_cell m).
Proof.
  induction n as [|n IH]; intros m l Hn Hl Hc Hge Hf.
  - simpl. repeat split; auto. intros; lia.
  - change (for_down (S n) sweep_cell m) with (for_down n sweep_cell (sweep_cell n m)).
    assert (Hv : valid (cell_addr n)) by (apply valid_cell_addr; lia).
    assert (Hnot : ~ In (cell_addr n) l).
    { intros Hin. rewrite Forall_forall in Hge. apply Hge in Hin.
      rewrite cell_index_addr in Hin. lia. }
    assert (Hge' : Forall (fun p => (n <= cell_index p)%nat) l).
    { eapply Forall_impl; [|exact Hge]. simpl. intros; lia. }
    assert (Hlen' : (length (cell_addr n :: l) <= Z.to_nat WORKSPACESIZE)%nat).
    { apply NoDup_valid_length.
      - constructor; eauto using freechain_NoDup.
      - constructor; eauto using freechain_valid. }
    simpl in Hlen'.
    assert (Hlow : forall i, (i < n)%nat ->
              getobj (Workspace (sweep_cell n m)) (cell_addr i)
              = getobj (Workspace m) (cell_addr i)).
    { intros i Hi. unfold sweep_cell.
      assert (cell_addr n <> cell_addr i) by (intros E; apply cell_addr_inj in E; lia).
      destruct (marked (Workspace m) (cell_addr n)); simpl.
      - unfold unmark, set_car. now rewrite getobj_setobj_ne.
      - now rewrite getobj_free_cell_ne. }
    rewrite unmarked_below_S.
    pose proof (same_registers_sweep_cell n m) as Hreg.
    destruct (marked (Workspace m) (cell_addr n)) eqn:Hm.
    + (* marked: unmark *)
      assert (E1 : sweep_cell n m = with_Workspace (unmark (Workspace m) (cell_addr n)) m).
      { unfold sweep_cell. now rewrite Hm. }
      destruct (IH (sweep_cell n m) l) as (H1 & H2 & H3 & H4 & H5 & H6); try lia; auto.
      * rewrite E1. simpl. unfold unmark. now rewrite length_set_car.
      * rewrite E1. simpl. unfold unmark, set_car. now apply freechain_setobj.
      * rewrite E1. simpl. exact Hf.
      * rewrite (unmarked_below_ext _ _ _ Hlow) in H2, H3.
        rewrite app_nil_r. split; auto. split; auto. split; auto.
        split; [|split].
        -- intros i Hi Hmi. destruct (Nat.eq_dec i n) as [->|Hne].
           ++ rewrite H5 by lia. rewrite E1. simpl. unfold unmark.
              now rewrite getobj_set_car_eq.
           ++ rewrite H4 by (try lia; unfold marked; rewrite Hlow by lia; exact Hmi).
              now rewrite Hlow by lia.
        -- intros i Hi. rewrite H5 by lia. rewrite E1. simpl. unfold unmark, set_car.
           apply getobj_setobj_ne. intros E; apply cell_addr_inj in E; lia.
        -- eapply same_registers_trans; eauto.
    + (* not marked: myfree *)
      assert (E1 : sweep_cell n m = myfree (cell_addr n) m).
      { unfold sweep_cell. now rewrite Hm. }
      destruct (IH (sweep_cell n m) (cell_addr n :: l)) as (H1 & H2 & H3 & H4 & H5 & H6);
        try lia; auto.
      * rewrite E1. simpl. now rewrite length_set_cdr, length_set_car.
      * rewrite E1. simpl. now apply freechain_push.
      * constructor; auto. rewrite cell_index_addr. lia.
      * rewrite E1. simpl. rewrite Hf. unfold wrap16, WORKSPACESIZE in *.
        rewrite Z.mod_small; lia.
      * rewrite (unmarked_below_ext _ _ _ Hlow) in H2, H3.
        split; auto. split; [|split; [|split; [|split]]].
        -- rewrite map_app, <- app_assoc. exact H2.
        -- rewrite H3, length_app. simpl. f_equal. lia.
        -- intros i Hi Hmi. destruct (Nat.eq_dec i n) as [->|Hne]; [congruence|].
           rewrite H4 by (try lia; unfold marked; rewrite Hlow by lia; exact Hmi).
           now rewrite Hlow by lia.
        -- intros i Hi. rewrite H5 by lia. rewrite E1. simpl.
           apply getobj_free_cell_ne. intros E; apply cell_addr_inj in E; lia.
        -- eapply same_registers_trans; eauto.
Qed.

(** After [sweep] the free list is made of exactly the cells that did not
    carry the mark bit, in ascending address order, [Freespace] counts them,
    and every marked cell is unchanged but for its cleared mark bit. *)
Lemma sweep_spec m :
  length (Workspace m) = Z.to_nat WORKSPACESIZE ->
  length (Workspace (sweep m)) = Z.to_nat WORKSPACESIZE /\
  freechain (Workspace (sweep m)) (Freelist (sweep m))
    (map cell_addr (unmarked_below (Workspace m) (Z.to_nat WORKSPACESIZE))) /\
  Freespace (sweep m)
    = Z.of_nat (length (unmarked_below (Workspace m) (Z.to_nat WORKSPACESIZE))) /\
  (forall p, valid p -> marked (Workspace m) p = true ->
     getobj (Workspace (sweep m)) p
     = mkobj (Z.land (car (getobj (Workspace m) p)) (65535 - MARKBIT))
             (cdr (getobj (Workspace m) p))) /\
  same_registers m (sweep m).
Proof.
  intros Hl. unfold sweep.
  destruct (sweep_loop (Z.to_nat WORKSPACESIZE) (with_Freespace 0 (with_Freelist NULL m)) [])
    as (H1 & H2 & H3 & H4 & H5 & H6); auto.
  - constructor.
  - cbn [Workspace with_Freespace with_Freelist] in *. rewrite app_nil_r in H2. rewrite Nat.add_0_r in H3.
    repeat split; auto; try apply H6.
    intros p Hp Hm. destruct (valid_index p Hp) as [Hi Ep].
    rewrite <- Ep. apply H4; [exact Hi|]. rewrite Ep. exact Hm.
Qed.

Lemma freelist_inv_sweep m :
  length (Workspace m) = Z.to_nat WORKSPACESIZE -> freelist_inv (sweep m).
Proof.
  intros Hl. destruct (sweep_spec m Hl) as (H1 & H2 & H3 & _).
  split; auto. eexists. split; [exact H2|]. now rewrite H3, length_map.
Qed.

(** ** The mark phase *)

Lemma in_zrange n : forall s w, s <= w < s + Z.of_nat n -> In w (zrange n s).
Proof.
  induction n as [|n IH]; intros s w Hw; [lia|].
  simpl. destruct (Z.eq_dec s w); [now left|]. right. apply IH. lia.
Qed.

Lemma word_forall (P : Z -> bool) :
  forallb P (zrange (Z.to_nat 65536) 0) = true ->
  forall w, 0 <= w < 65536 -> P w = true.
Proof.
  intros H w Hw. rewrite forallb_forall in H. apply H.
  apply in_zrange. lia.
Qed.

Lemma land_lor_markbit x : Z.land (Z.lor x MARKBIT) MARKBIT = 1.
Proof.
  unfold MARKBIT. rewrite Z.land_lor_distr_l. change (Z.land 1 1) with 1.
  change 1 with (Z.ones 1) at 1. rewrite Z.land_ones by lia. change (2 ^ 1) with 2.
  pose proof (Z.mod_pos_bound x 2 ltac:(lia)) as Hb.
  assert (Hc : x mod 2 = 0 \/ x mod 2 = 1) by lia.
  destruct Hc as [-> | ->]; reflexivity.
Qed.

Lemma unmark_mark_word c :
  0 <= c < 65536 -> Z.land c MARKBIT = 0 ->
  Z.land (Z.lor c MARKBIT) (65535 - MARKBIT) = c.
Proof.
  intros Hc He.
  pose proof (word_forall
    (fun c => implb (Z.land c MARKBIT =? 0)
                    (Z.land (Z.lor c MARKBIT) (65535 - MARKBIT) =? c))) as H.
  assert (Hall : forallb (fun c => implb (Z.land c MARKBIT =? 0)
                    (Z.land (Z.lor c MARKBIT) (65535 - MARKBIT) =? c))
                  (zrange (Z.to_nat 65536) 0) = true) by (vm_compute; reflexivity).
  specialize (H Hall c Hc). cbv beta in H.
  rewrite He in H. cbn [Z.eqb implb] in H. apply Z.eqb_eq. exact H.
Qed.

Lemma marked_false_iff ws p : marked ws p = false <-> Z.land (car (getobj ws p)) MARKBIT = 0.
Proof.
  unfold marked. rewrite negb_false_iff. apply Z.eqb_eq.
Qed.

Lemma getobj_mark_eq ws p :
  valid p -> length ws = Z.to_nat WORKSPACESIZE ->
  getobj (mark ws p) p = mkobj (Z.lor (car (getobj ws p)) MARKBIT) (cdr (getobj ws p)).
Proof. intros. unfold mark. now apply getobj_set_car_eq. Qed.

Lemma getobj_mark_ne ws p q : p <> q -> getobj (mark ws p) q = getobj ws q.
Proof. intros. unfold mark. now apply getobj_set_car_ne. Qed.

Lemma length_mark ws p : length (mark ws p) = length ws.
Proof. apply length_set_car. Qed.

Lemma marked_mark_eq ws p :
  valid p -> length ws = Z.to_nat WORKSPACESIZE -> marked (mark ws p) p = true.
Proof.
  intros Hv Hl. unfold marked. rewrite getobj_mark_eq by auto. simpl.
  now rewrite land_lor_markbit.
Qed.

Lemma marked_mark_ne ws p q : p <> q -> marked (mark ws p) q = marked ws q.
Proof. intros. unfold marked. now rewrite getobj_mark_ne. Qed.

Lemma marked_mark ws p q :
  valid p -> length ws = Z.to_nat WORKSPACESIZE ->
  marked (mark ws p) q = if Z.eq_dec p q then true else marked ws q.
Proof.
  intros Hv Hl. destruct (Z.eq_dec p q) as [<-|Hne].
  - now apply marked_mark_eq.
  - now apply marked_mark_ne.
Qed.

(** *** Chains *)

Lemma chain_inj ws p l1 l2 : chain ws p l1 -> chain ws p l2 -> l1 = l2.
Proof.
  intros H; revert l2; induction H; intros l2 H2; inversion H2; subst; auto;
    try congruence.
  f_equal; auto.
Qed.

Lemma chain_suffix ws p l q :
  chain ws p l -> In q l -> exists l1 l2, l = l1 ++ q :: l2 /\ chain ws q (q :: l2).
Proof.
  induction 1 as [|p l Hn Hc IH]; simpl; [tauto|].
  intros [->|Hin].
  - exists [], l. split; auto. now constructor.
  - destruct (IH Hin) as (l1 & l2 & -> & Hq). exists (p :: l1), l2. split; auto.
Qed.

Lemma chain_NoDup ws p l : chain ws p l -> NoDup l.
Proof.
  induction 1 as [|p l Hn Hc IH]; constructor; auto.
  intros Hin. destruct (chain_suffix _ _ _ _ Hc Hin) as (l1 & l2 & E & Hq).
  inversion Hq; subst.
  assert (El : l2 = l1 ++ p :: l2) by (eapply chain_inj; eauto).
  apply (f_equal (@length Z)) in El. rewrite length_app in El. simpl in El. lia.
Qed.

(** *** marks_only *)

Lemma marks_only_refl ws : (forall p, valid p -> marked ws p = false) -> marks_only ws ws.
Proof.
  intros H. split; auto. intros p Hp. now rewrite H.
Qed.

Lemma marks_only_unmarked ws0 ws p :
  marks_only ws0 ws -> valid p -> marked ws p = false -> getobj ws p = getobj ws0 p.
Proof. intros [_ H] Hv Hm. rewrite (H p Hv), Hm. reflexivity. Qed.

Lemma marks_only_cdr ws0 ws p :
  marks_only ws0 ws -> valid p -> cdr (getobj ws p) = cdr (getobj ws0 p).
Proof.
  intros [_ H] Hv. rewrite (H p Hv). destruct (marked ws p); reflexivity.
Qed.

Lemma marks_only_mark ws0 ws p :
  length ws0 = Z.to_nat WORKSPACESIZE ->
  marks_only ws0 ws -> valid p -> marked ws p = false ->
  marks_only ws0 (mark ws p).
Proof.
  intros Hl0 Hmo Hv Hm. pose proof Hmo as [Hl H]. split.
  - now rewrite length_mark.
  - intros q Hq. rewrite marked_mark by (auto; congruence).
    destruct (Z.eq_dec p q) as [<-|Hne].
    + rewrite getobj_mark_eq by (auto; congruence).
      now rewrite (marks_only_unmarked ws0 ws p).
    + rewrite getobj_mark_ne by auto. apply H; auto.
Qed.

(** *** covers *)

Lemma covers_mono U ws ws' :
  covers U ws -> (forall p, marked ws p = true -> marked ws' p = true) -> covers U ws'.
Proof.
  intros [Hnd Hc] Hmono. split; auto. intros p Hv Hm. apply Hc; auto.
  destruct (marked ws p) eqn:E; auto. apply Hmono in E. congruence.
Qed.

Lemma remove_length_lt (x : Z) U :
  In x U -> (length (remove Z.eq_dec x U) < length U)%nat.
Proof.
  induction U as [|y U IH]; simpl; [tauto|].
  intros [->|Hin].
  - destruct (Z.eq_dec x x); [|congruence].
    pose proof (remove_length_le Z.eq_dec U x). lia.
  - destruct (Z.eq_dec x y); simpl.
    + pose proof (remove_length_le Z.eq_dec U x). lia.
    + apply IH in Hin. lia.
Qed.

Lemma NoDup_remove_Z (x : Z) U : NoDup U -> NoDup (remove Z.eq_dec x U).
Proof.
  induction 1 as [|y U Hy Hnd IH]; simpl; [constructor|].
  destruct (Z.eq_dec x y); auto. constructor; auto.
  intros Hin. apply in_remove in Hin. tauto.
Qed.

Lemma covers_mark U ws p :
  length ws = Z.to_nat WORKSPACESIZE -> valid p ->
  covers U ws -> marked ws p = false ->
  covers (remove Z.eq_dec p U) (mark ws p) /\
  (length (remove Z.eq_dec p U) < length U)%nat.
Proof.
  intros Hl Hv [Hnd Hc] Hm. split; [split|].
  - now apply NoDup_remove_Z.
  - intros q Hq Hmq. rewrite marked_mark in Hmq by auto.
    destruct (Z.eq_dec p q); [discriminate|].
    apply in_in_remove; auto.
  - apply remove_length_lt. auto.
Qed.

(** *** markchain *)

Lemma markchain_spec ws0 : forall l fuel ws p,
  length ws0 = Z.to_nat WORKSPACESIZE ->
  marks_only ws0 ws -> chain ws0 p l -> Forall valid l ->
  (forall c, In c l -> marked ws c = false) ->
  (length l < fuel)%nat ->
  exists ws',
    markchain fuel ws p = Some ws' /\ marks_only ws0 ws' /\
    forall q, marked ws' q = true <-> (In q l \/ marked ws q = true).
Proof.
  induction l as [|c l IH]; intros fuel ws p Hl0 Hmo Hc Hv Hum Hfuel;
    (destruct fuel as [|fuel]; [simpl in Hfuel; lia|]);
    inversion Hc; subst; cbn [markchain].
  - exists ws. rewrite Z.eqb_refl. split; [reflexivity|]. split; [exact Hmo|].
    intros q. simpl. tauto.
  - destruct (Z.eqb_spec c NULL) as [|_]; [contradiction|].
    inversion Hv as [|? ? Hvc Hvl]; subst.
    pose proof (chain_NoDup _ _ _ Hc) as Hnd. inversion Hnd as [|? ? Hnotin Hnd']; subst.
    assert (Hl : length ws = Z.to_nat WORKSPACESIZE) by (destruct Hmo; congruence).
    rewrite (marks_only_unmarked ws0 ws c Hmo Hvc) by (apply Hum; now left).
    destruct (IH fuel (mark ws c) (car (getobj ws0 c))) as (ws' & E & Hmo' & Hm'); auto.
    + apply marks_only_mark; auto. apply Hum. now left.
    + intros q Hq. rewrite marked_mark_ne by congruence. apply Hum. now right.
    + simpl in Hfuel. lia.
    + exists ws'. split; [exact E|]. split; [exact Hmo'|].
      intros q. rewrite Hm', marked_mark by auto. simpl.
      destruct (Z.eq_dec c q); intuition congruence.
Qed.

Lemma cons_not_chain_head ws p :
  is_cons_type (type_of ws p) = true -> is_chain_head ws p = false.
Proof.
  unfold is_cons_type, is_chain_head, PAIR, ZZERO, STRING, SYMBOL.
  intros H. apply orb_true_iff in H.
  destruct (Z.eqb_spec (type_of ws p) 14); [destruct H as [H|H]; lia|].
  destruct (Z.eqb_spec (type_of ws p) 2); [destruct H as [H|H]; lia|].
  reflexivity.
Qed.

Section MarkPhase.

Variable ws0 : list object.
Variable roots : list Z.
Hypothesis Hok : heap_ok ws0 roots.

Lemma chain_cells_not_obj h l c :
  reach_obj ws0 roots h -> is_chain_head ws0 h = true ->
  chain ws0 (cdr (getobj ws0 h)) l -> In c l ->
  valid c /\ ~ reach_obj ws0 roots c.
Proof.
  intros Hr Hh Hc Hin.
  destruct (ok_chain _ _ Hok h Hr Hh) as (l' & Hc' & Hv & Hn).
  pose proof (chain_inj _ _ _ _ Hc Hc'). subst l'.
  rewrite Forall_forall in Hv, Hn. auto.
Qed.

(** Marking an object that is not the head of a chain keeps the invariant. *)
Lemma mark_inv_mark ws obj :
  mark_inv ws0 roots ws -> reach_obj ws0 roots obj -> marked ws obj = false ->
  is_chain_head ws0 obj = false ->
  mark_inv ws0 roots (mark ws obj).
Proof.
  intros [Hmo Hre Hch] Hr Hm Hnh.
  pose proof (ok_length _ _ Hok) as Hl0.
  assert (Hv : valid obj) by (eapply ok_valid; eauto).
  assert (Hl : length ws = Z.to_nat WORKSPACESIZE) by (destruct Hmo; congruence).
  split.
  - apply marks_only_mark; auto.
  - intros p Hp. rewrite marked_mark by auto.
    destruct (Z.eq_dec obj p) as [<-|]; [intros _; now left | auto].
  - intros h l c Hrh Hh Hc Hin.
    destruct (chain_cells_not_obj h l c Hrh Hh Hc Hin) as [_ Hnc].
    rewrite !marked_mark_ne; [eapply Hch; eauto | | ]; congruence.
Qed.

(** Marking the head of a chain and then the cells of its chain keeps the
    invariant. *)
Lemma mark_inv_chain ws obj l ws' :
  mark_inv ws0 roots ws -> reach_obj ws0 roots obj -> marked ws obj = false ->
  is_chain_head ws0 obj = true ->
  chain ws0 (cdr (getobj ws0 obj)) l ->
  marks_only ws0 ws' ->
  (forall q, marked ws' q = true <-> (In q l \/ marked (mark ws obj) q = true)) ->
  mark_inv ws0 roots ws'.
Proof.
  intros [Hmo Hre Hch] Hr Hm Hh Hc Hmo' Hm'.
  pose proof (ok_length _ _ Hok) as Hl0.
  assert (Hv : valid obj) by (eapply ok_valid; eauto).
  assert (Hl : length ws = Z.to_nat WORKSPACESIZE) by (destruct Hmo; congruence).
  assert (Hiff : forall q, marked ws' q = true <-> (In q l \/ q = obj \/ marked ws q = true)).
  { intros q. rewrite Hm', marked_mark by auto.
    destruct (Z.eq_dec obj q); intuition congruence. }
  split; auto.
  - intros p Hp Hmp. apply Hiff in Hmp. destruct Hmp as [Hin | [-> | Hold]].
    + right. exists obj, l. auto.
    + now left.
    + auto.
  - intros h lh c Hrh Hhh Hch' Hin.
    destruct (chain_cells_not_obj h lh c Hrh Hhh Hch' Hin) as [_ Hnc].
    destruct (Z.eq_dec h obj) as [->|Hne].
    + pose proof (chain_inj _ _ _ _ Hc Hch'). subst lh.
      transitivity true; [|symmetry]; apply Hiff; auto.
    + assert (Hcl : ~ In c l).
      { intros Hcl. apply Hne. eapply (ok_owner _ _ Hok h obj lh l c); eauto. }
      assert (Hhl : ~ In h l).
      { intros Hhl. destruct (chain_cells_not_obj obj l h Hr Hh Hc Hhl). auto. }
      assert (Hco : c <> obj) by congruence.
      pose proof (Hch h lh c Hrh Hhh Hch' Hin) as Hold.
      destruct (marked ws' c) eqn:E1; destruct (marked ws' h) eqn:E2; auto.
      * apply Hiff in E1. destruct E1 as [|[|E1]]; try tauto.
        rewrite Hold in E1. assert (marked ws' h = true) by (apply Hiff; auto). congruence.
      * apply Hiff in E2. destruct E2 as [|[|E2]]; try tauto.
        rewrite <- Hold in E2. assert (marked ws' c = true) by (apply Hiff; auto). congruence.
Qed.

Lemma closed_at_mono ws ws' x :
  (forall p, marked ws p = true -> marked ws' p = true) ->
  closed_at ws0 ws x -> closed_at ws0 ws' x.
Proof.
  intros Hmono [H1 H2]. split.
  - intros Hc. destruct (H1 Hc). split; auto.
  - auto.
Qed.

(** [markobject] returns with any fuel above the number of cells that are
    not yet marked; it keeps the invariant, only adds marks, marks [obj], and
    leaves every object it newly marked with its successors marked. *)
Lemma markobject_spec : forall fuel ws obj U,
  mark_inv ws0 roots ws ->
  obj = NULL \/ reach_obj ws0 roots obj ->
  covers U ws -> (length U < fuel)%nat ->
  exists ws',
    markobject fuel ws obj = Some ws' /\
    mark_inv ws0 roots ws' /\
    (forall p, marked ws p = true -> marked ws' p = true) /\
    (obj <> NULL -> marked ws' obj = true) /\
    (forall x, reach_obj ws0 roots x -> marked ws' x = true -> marked ws x = false ->
               closed_at ws0 ws' x).
Proof.
  pose proof (ok_length _ _ Hok) as Hl0.
  induction fuel as [|fuel IH]; intros ws obj U Hinv Hobj Hcov Hfuel; [lia|].
  cbn [markobject].
  destruct (Z.eqb_spec obj NULL) as [->|Hnn].
  { exists ws. split; [reflexivity|]. split; [exact Hinv|]. split; [auto|].
    split; [congruence|]. intros; congruence. }
  destruct Hobj as [|Hr]; [contradiction|].
  assert (Hv : valid obj) by (eapply ok_valid; eauto).
  destruct (marked ws obj) eqn:Hm.
  { exists ws. split; [reflexivity|]. split; [exact Hinv|]. split; [auto|].
    split; [auto|]. intros; congruence. }
  pose proof (mi_marks _ _ _ Hinv) as Hmo.
  assert (Hl : length ws = Z.to_nat WORKSPACESIZE) by (destruct Hmo; congruence).
  pose proof (marks_only_unmarked ws0 ws obj Hmo Hv Hm) as Eobj.
  assert (Etype : type_of ws obj = type_of ws0 obj) by (unfold type_of; now rewrite Eobj).
  rewrite Etype, Eobj.
  destruct (covers_mark U ws obj Hl Hv Hcov Hm) as [Hcov1 Hlen1].
  assert (Hmo1 : marks_only ws0 (mark ws obj)) by (apply marks_only_mark; auto).
  assert (Hmono1 : forall p, marked ws p = true -> marked (mark ws obj) p = true).
  { intros p Hp. rewrite marked_mark by auto. destruct (Z.eq_dec obj p); auto. }
  assert (Hobj1 : marked (mark ws obj) obj = true) by (apply marked_mark_eq; auto).
  change ((PAIR <=? type_of ws0 obj) || (type_of ws0 obj =? ZZERO))
    with (is_cons_type (type_of ws0 obj)).
  destruct (is_cons_type (type_of ws0 obj)) eqn:Hcons.
  - (* a cons: markobject(arg), then obj = cdr(obj) and back to MARK *)
    assert (Hinv1 : mark_inv ws0 roots (mark ws obj)).
    { apply mark_inv_mark; auto. now apply cons_not_chain_head. }
    destruct (IH (mark ws obj) (car (getobj ws0 obj)) (remove Z.eq_dec obj U))
      as (ws2 & E2 & Hinv2 & Hmono2 & Hcar2 & Hclo2); auto; try lia.
    { destruct (Z.eq_dec (car (getobj ws0 obj)) NULL); [now left|right].
      now apply reach_car. }
    rewrite E2.
    rewrite (marks_only_cdr ws0 ws2 obj (mi_marks _ _ _ Hinv2) Hv).
    destruct (IH ws2 (cdr (getobj ws0 obj)) (remove Z.eq_dec obj U))
      as (ws3 & E3 & Hinv3 & Hmono3 & Hcdr3 & Hclo3); auto; try lia.
    { destruct (Z.eq_dec (cdr (getobj ws0 obj)) NULL); [now left|right].
      apply reach_cdr; auto. }
    { eapply covers_mono; eauto. }
    exists ws3. split; [exact E3|]. split; [exact Hinv3|].
    split; [auto|]. split; [auto|].
    intros x Hx Hm3 Hm0.
    destruct (Z.eq_dec x obj) as [->|Hxo].
    + split.
      * intros _. split; auto.
      * unfold is_cons_type, ARRAY, PAIR, ZZERO in *. intros Ha. rewrite Ha in Hcons.
        discriminate.
    + destruct (marked ws2 x) eqn:Hm2.
      * eapply closed_at_mono; [exact Hmono3|]. apply Hclo2; auto.
        rewrite marked_mark_ne by congruence. exact Hm0.
      * apply Hclo3; auto.
  - destruct (Z.eqb_spec (type_of ws0 obj) ARRAY) as [Harr|Hnarr].
    + (* an array: obj = cdr(obj) and back to MARK *)
      assert (Hinv1 : mark_inv ws0 roots (mark ws obj)).
      { apply mark_inv_mark; auto. unfold is_chain_head. rewrite Harr. reflexivity. }
      rewrite (marks_only_cdr ws0 (mark ws obj) obj Hmo1 Hv).
      destruct (IH (mark ws obj) (cdr (getobj ws0 obj)) (remove Z.eq_dec obj U))
        as (ws2 & E2 & Hinv2 & Hmono2 & Hcdr2 & Hclo2); auto; try lia.
      { destruct (Z.eq_dec (cdr (getobj ws0 obj)) NULL); [now left|right].
        apply reach_cdr; auto. }
      exists ws2. split; [exact E2|]. split; [exact Hinv2|].
      split; [auto|]. split; [auto|].
      intros x Hx Hm2 Hm0.
      destruct (Z.eq_dec x obj) as [->|Hxo].
      * split; [congruence | auto].
      * apply Hclo2; auto. rewrite marked_mark_ne by congruence. exact Hm0.
    + assert (Ehead : ((type_of ws0 obj =? STRING)
                       || ((type_of ws0 obj =? SYMBOL) && longsymbolp (mark ws obj) obj))
                      = is_chain_head ws0 obj).
      { unfold is_chain_head, longsymbolp.
        now rewrite (marks_only_cdr ws0 (mark ws obj) obj Hmo1 Hv). }
      rewrite Ehead.
      destruct (is_chain_head ws0 obj) eqn:Hhead.
      * (* a string or a long symbol: the loop over its chain *)
        destruct (ok_chain _ _ Hok obj Hr Hhead) as (l & Hc & Hvl & Hnl).
        rewrite (marks_only_cdr ws0 (mark ws obj) obj Hmo1 Hv).
        assert (Hum : forall c, In c l -> marked (mark ws obj) c = false).
        { intros c Hc'. rewrite Forall_forall in Hnl.
          rewrite marked_mark_ne by (intros ->; eapply Hnl; eauto).
          rewrite (mi_chain _ _ _ Hinv obj l c); auto. }
        assert (Hll : (length l <= length (remove Z.eq_dec obj U))%nat).
        { apply NoDup_incl_length; [eapply chain_NoDup; eauto|].
          intros c Hc'. rewrite Forall_forall in Hvl. apply Hcov1; auto. }
        destruct (markchain_spec ws0 l fuel (mark ws obj) (cdr (getobj ws0 obj)))
          as (ws' & E & Hmo' & Hm'); auto; try lia.
        exists ws'. split; [exact E|].
        split; [eapply mark_inv_chain; eauto|].
        split; [|split].
        -- intros p Hp. apply Hm'. right. auto.
        -- intros _. apply Hm'. right. auto.
        -- intros x Hx Hmx Hm0.
           assert (x = obj).
           { apply Hm' in Hmx. destruct Hmx as [Hin|Hmx].
             - rewrite Forall_forall in Hnl. exfalso. eapply Hnl; eauto.
             - rewrite marked_mark in Hmx by auto.
               destruct (Z.eq_dec obj x); congruence. }
           subst x. split; [congruence|]. intros; contradiction.
      * (* a scalar: only the cell is marked *)
        assert (Hinv1 : mark_inv ws0 roots (mark ws obj)) by (apply mark_inv_mark; auto).
        exists (mark ws obj). split; [reflexivity|]. split; [exact Hinv1|].
        split; [auto|]. split; [auto|].
        intros x Hx Hmx Hm0.
        assert (x = obj).
        { rewrite marked_mark in Hmx by auto. destruct (Z.eq_dec obj x); congruence. }
        subst x. split; [congruence|]. intros; contradiction.
Qed.

End MarkPhase.

(** *** The roots, one after the other *)

Lemma all_cells_cover ws : covers (map cell_addr (seq 0 (Z.to_nat WORKSPACESIZE))) ws.
Proof.
  split.
  - generalize (seq_NoDup (Z.to_nat WORKSPACESIZE) 0).
    generalize (seq 0 (Z.to_nat WORKSPACESIZE)).
    induction 1 as [|i l Hi Hnd IH]; simpl; constructor; auto.
    intros Hin. apply in_map_iff in Hin. destruct Hin as (j & E & Hj).
    apply cell_addr_inj in E. subst j. auto.
  - intros p Hv _. destruct (valid_index p Hv) as [Hi Ep].
    apply in_map_iff. exists (cell_index p). split; auto. apply in_seq. lia.
Qed.

Lemma markroots_spec ws0 roots (Hok : heap_ok ws0 roots) : forall rs ws,
  incl rs roots ->
  mark_inv ws0 roots ws ->
  (forall x, reach_obj ws0 roots x -> marked ws x = true -> closed_at ws0 ws x) ->
  exists ws',
    markroots rs ws = Some ws' /\
    mark_inv ws0 roots ws' /\
    (forall p, marked ws p = true -> marked ws' p = true) /\
    (forall r, In r rs -> r <> NULL -> marked ws' r = true) /\
    (forall x, reach_obj ws0 roots x -> marked ws' x = true -> closed_at ws0 ws' x).
Proof.
  unfold markroots.
  induction rs as [|r rs IH]; intros ws Hincl Hinv Hclo.
  - exists ws. cbn [fold_left]. split; [reflexivity|]. split; [exact Hinv|].
    split; [auto|]. split; [intros ? []|exact Hclo].
  - cbn [fold_left].
    assert (Hobj : r = NULL \/ reach_obj ws0 roots r).
    { destruct (Z.eq_dec r NULL); [now left|right].
      apply reach_root; auto. apply Hincl. now left. }
    assert (Hlen : (length (map cell_addr (seq 0 (Z.to_nat WORKSPACESIZE))) < mark_fuel)%nat).
    { rewrite length_map, length_seq. unfold mark_fuel. lia. }
    destruct (markobject_spec ws0 roots Hok mark_fuel ws r
                (map cell_addr (seq 0 (Z.to_nat WORKSPACESIZE)))
                Hinv Hobj (all_cells_cover ws) Hlen)
      as (ws1 & E1 & Hinv1 & Hmono1 & Hr1 & Hclo1).
    rewrite E1.
    destruct (IH ws1) as (ws' & E & Hinv' & Hmono' & Hr' & Hclo').
    + intros x Hx. apply Hincl. now right.
    + exact Hinv1.
    + intros x Hx Hm1. destruct (marked ws x) eqn:Hm.
      * eapply closed_at_mono; [exact Hmono1|]. now apply Hclo.
      * now apply Hclo1.
    + exists ws'. split; [exact E|]. split; [exact Hinv'|].
      split; [auto|]. split; [|exact Hclo'].
      intros r' [<-|Hin] Hnn; auto.
Qed.

(** After the mark phase from an unmarked well-formed heap, the cells that
    carry the mark bit are exactly the reachable ones. *)
Lemma marked_iff_reachable ws0 roots ws :
  heap_ok ws0 roots -> mark_inv ws0 roots ws ->
  (forall r, In r roots -> r <> NULL -> marked ws r = true) ->
  (forall x, reach_obj ws0 roots x -> marked ws x = true -> closed_at ws0 ws x) ->
  forall p, valid p -> (marked ws p = true <-> reachable ws0 roots p).
Proof.
  intros Hok Hinv Hroots Hclo.
  assert (Hobj : forall x, reach_obj ws0 roots x -> marked ws x = true).
  { induction 1 as [r Hr Hn | p Hp IH Hc Hn | p Hp IH Hc Hn].
    - auto.
    - destruct (Hclo p Hp IH) as [H1 _]. destruct (H1 Hc) as [H _]. auto.
    - destruct (Hclo p Hp IH) as [H1 H2]. destruct Hc as [Hc|Hc].
      + destruct (H1 Hc) as [_ H]. auto.
      + auto. }
  intros p Hv. split.
  - apply (mi_reach _ _ _ Hinv); auto.
  - intros [Hr | (h & l & Hr & Hh & Hc & Hin)]; auto.
    rewrite (mi_chain _ _ _ Hinv h l p); auto.
Qed.

Lemma reachable_valid ws0 roots p : heap_ok ws0 roots -> reachable ws0 roots p -> valid p.
Proof.
  intros Hok [Hr | (h & l & Hr & Hh & Hc & Hin)].
  - eapply ok_valid; eauto.
  - eapply chain_cells_not_obj; eauto.
Qed.

Lemma object_eta (o : object) : mkobj (car o) (cdr o) = o.
Proof. now destruct o. Qed.

Lemma in_unmarked_below ws n p :
  In p (map cell_addr (unmarked_below ws n)) <->
  exists i, (i < n)%nat /\ p = cell_addr i /\ marked ws p = false.
Proof.
  unfold unmarked_below. rewrite in_map_iff. split.
  - intros (i & <- & Hi). apply filter_In in Hi. destruct Hi as [Hi Hm].
    apply in_seq in Hi. apply negb_true_iff in Hm. exists i. split; [lia|auto].
  - intros (i & Hi & -> & Hm). exists i. split; auto. apply filter_In.
    split; [apply in_seq; lia | now rewrite Hm].
Qed.

(** ** Soundness of the [heap_ok] checker *)

Lemma memb_In x l : memb x l = true <-> In x l.
Proof.
  unfold memb. rewrite existsb_exists. split.
  - intros (y & Hy & E). apply Z.eqb_eq in E. now subst.
  - intros H. exists x. split; auto. apply Z.eqb_refl.
Qed.

Lemma nodupb_NoDup l : nodupb l = true -> NoDup l.
Proof.
  induction l as [|x l IH]; simpl; [constructor|].
  rewrite andb_true_iff, negb_true_iff. intros [Hx Hl]. constructor; auto.
  intros Hin. apply memb_In in Hin. congruence.
Qed.

Lemma null_or_in_spec x objs : null_or_in x objs = true -> x = NULL \/ In x objs.
Proof.
  unfold null_or_in. rewrite orb_true_iff, Z.eqb_eq, memb_In. tauto.
Qed.

Lemma chaincells_sound fuel ws : forall p l, chaincells fuel ws p = Some l -> chain ws p l.
Proof.
  induction fuel as [|fuel IH]; simpl; intros p l; [discriminate|].
  destruct (Z.eqb_spec p NULL) as [->|Hn].
  - intros [= <-]. constructor.
  - destruct (chaincells fuel ws (car (getobj ws p))) eqn:E; [|discriminate].
    intros [= <-]. constructor; auto.
Qed.

Lemma all_chains_head ws objs : forall cs h,
  all_chains ws objs = Some cs -> In h objs ->
  exists l, head_chain ws h = Some l /\ incl l cs.
Proof.
  induction objs as [|o objs IH]; simpl; intros cs h E Hin; [tauto|].
  destruct (head_chain ws o) as [l|] eqn:Eo; [|discriminate].
  destruct (all_chains ws objs) as [ls|] eqn:Els; [|discriminate].
  injection E as <-. destruct Hin as [->|Hin].
  - exists l. split; auto. apply incl_appl, incl_refl.
  - destruct (IH ls h eq_refl Hin) as (l' & E' & Hi). exists l'. split; auto.
    apply incl_appr; auto.
Qed.

Lemma all_chains_disjoint ws objs : forall cs h1 h2 l1 l2 c,
  all_chains ws objs = Some cs -> NoDup objs -> NoDup cs ->
  In h1 objs -> In h2 objs ->
  head_chain ws h1 = Some l1 -> head_chain ws h2 = Some l2 ->
  In c l1 -> In c l2 -> h1 = h2.
Proof.
  induction objs as [|o objs IH]; simpl; intros cs h1 h2 l1 l2 c E Hnd Hcs H1 H2 E1 E2 C1 C2;
    [tauto|].
  destruct (head_chain ws o) as [l|] eqn:Eo; [|discriminate].
  destruct (all_chains ws objs) as [ls|] eqn:Els; [|discriminate].
  injection E as <-. inversion Hnd as [|? ? Ho Hnd']; subst.
  assert (Hsplit : forall x, In x l -> In x ls -> False).
  { intros x Hx Hy. clear -Hcs Hx Hy. induction l as [|y l IHl]; simpl in *; [tauto|].
    inversion Hcs; subst. destruct Hx as [->|Hx]; auto.
    apply H1. apply in_or_app. now right. }
  assert (Hls : NoDup ls) by (eapply NoDup_app_remove_l; eauto).
  destruct H1 as [->|H1], H2 as [->|H2]; auto.
  - exfalso. rewrite Eo in E1. injection E1 as ->.
    destruct (all_chains_head ws objs ls h2 Els H2) as (l' & E' & Hi).
    rewrite E2 in E'. injection E' as <-. eapply Hsplit; eauto.
  - exfalso. rewrite Eo in E2. injection E2 as ->.
    destruct (all_chains_head ws objs ls h1 Els H1) as (l' & E' & Hi).
    rewrite E1 in E'. injection E' as <-. eapply Hsplit; eauto.
  - eapply (IH ls h1 h2 l1 l2 c); eauto.
Qed.

Lemma getobj_In ws p :
  valid p -> length ws = Z.to_nat WORKSPACESIZE -> In (getobj ws p) ws.
Proof.
  intros Hv Hl. unfold getobj. rewrite Hv. apply nth_In. rewrite Hl.
  apply valid_index; auto.
Qed.

Theorem heap_okb_sound ws roots objs : heap_okb ws roots objs = true -> heap_ok ws roots.
Proof.
  unfold heap_okb. rewrite !andb_true_iff.
  intros [[[[[Hlen Hwords] Hroots] Hclosed] Hnd] Hch].
  apply Nat.eqb_eq in Hlen. rewrite forallb_forall in Hwords, Hroots, Hclosed.
  apply nodupb_NoDup in Hnd.
  destruct (all_chains ws objs) as [cs|] eqn:Ecs; [|discriminate].
  rewrite !andb_true_iff in Hch. destruct Hch as [[Hcv Hcn] Hco].
  rewrite forallb_forall in Hcv, Hco. apply nodupb_NoDup in Hcn.
  assert (Hin : forall p, reach_obj ws roots p -> In p objs).
  { induction 1 as [r Hr Hn | p Hp IH Hc Hn | p Hp IH Hc Hn].
    - destruct (null_or_in_spec _ _ (Hroots r Hr)); [contradiction | auto].
    - specialize (Hclosed p IH). unfold obj_closed in Hclosed. rewrite Hc in Hclosed.
      rewrite !andb_true_iff in Hclosed. destruct Hclosed as (_ & H1 & _).
      destruct (null_or_in_spec _ _ H1); [contradiction | auto].
    - specialize (Hclosed p IH). unfold obj_closed in Hclosed.
      destruct Hc as [Hc|Hc].
      + rewrite Hc in Hclosed.
        rewrite !andb_true_iff in Hclosed. destruct Hclosed as (_ & _ & H1).
        destruct (null_or_in_spec _ _ H1); [contradiction | auto].
      + rewrite Hc in Hclosed. unfold is_cons_type, ARRAY, PAIR, ZZERO in Hclosed.
        cbn in Hclosed. rewrite andb_true_iff in Hclosed. destruct Hclosed as (_ & H1).
        destruct (null_or_in_spec _ _ H1); [contradiction | auto]. }
  assert (Hhead : forall h, reach_obj ws roots h -> is_chain_head ws h = true ->
            exists l, chain ws (cdr (getobj ws h)) l /\ head_chain ws h = Some l /\ incl l cs).
  { intros h Hr Hh. destruct (all_chains_head ws objs cs h Ecs (Hin h Hr)) as (l & El & Hi).
    exists l. split; [|auto]. unfold head_chain in El. rewrite Hh in El.
    eapply chaincells_sound; eauto. }
  split.
  - exact Hlen.
  - intros p Hv. pose proof (Hwords _ (getobj_In ws p Hv Hlen)) as H.
    unfold word_unmarked in H. rewrite !andb_true_iff, Z.leb_le, Z.ltb_lt in H. tauto.
  - intros p Hv. pose proof (Hwords _ (getobj_In ws p Hv Hlen)) as H.
    unfold word_unmarked in H. rewrite !andb_true_iff, Z.eqb_eq in H.
    apply marked_false_iff. tauto.
  - intros p Hp. specialize (Hclosed p (Hin p Hp)). unfold obj_closed in Hclosed.
    apply andb_true_iff in Hclosed. apply Hclosed.
  - intros h Hr Hh. destruct (Hhead h Hr Hh) as (l & Hc & _ & Hi).
    exists l. split; [exact Hc|]. split; apply Forall_forall; intros c Hc'.
    + apply Hcv. auto.
    + intros Hrc. specialize (Hco c (Hi c Hc')). apply negb_true_iff in Hco.
      apply Hin, memb_In in Hrc. congruence.
  - intros h1 h2 l1 l2 c Hr1 Hh1 Hr2 Hh2 Hc1 Hc2 Hi1 Hi2.
    destruct (Hhead h1 Hr1 Hh1) as (l1' & Hc1' & E1 & _).
    destruct (Hhead h2 Hr2 Hh2) as (l2' & Hc2' & E2 & _).
    pose proof (chain_inj _ _ _ _ Hc1 Hc1'). pose proof (chain_inj _ _ _ _ Hc2 Hc2').
    subst l1' l2'.
    eapply (all_chains_disjoint ws objs cs h1 h2 l1 l2 c); eauto.
Qed.

(** ** Allocator contract and the Freespace invariant *)

(** C4.  Under the allocator invariant, [myalloc] raises the recoverable
    "no room" error exactly when the free list is empty; otherwise it returns
    the free-list head, removes it from the list (the list becomes the chain
    that followed the head), leaves the arena untouched and decrements
    [Freespace] by one.  In every state, for every object address, [myfree]
    erases both words of the cell (the first becomes [NULL], the second is
    taken over by the link to the previous head), makes the cell the head of
    the free list in front of the previous chain, changes no other cell, and
    increments the 16-bit counter [Freespace]. *)
Theorem allocator_contract :
  (forall m, freelist_inv m ->
     ((exists m', myalloc m = Error "no room"%string m') <-> Freelist m = NULL) /\
     (Freelist m <> NULL ->
      exists l m',
        freechain (Workspace m) (Freelist m) (Freelist m :: l) /\
        myalloc m = Done (Freelist m) m' /\
        Workspace m' = Workspace m /\
        freechain (Workspace m') (Freelist m') l /\
        Freespace m' = Freespace m - 1)) /\
  (forall m obj, valid obj -> length (Workspace m) = Z.to_nat WORKSPACESIZE ->
     getobj (Workspace (myfree obj m)) obj = mkobj NULL (Freelist m) /\
     Freelist (myfree obj m) = obj /\
     (forall q, q <> obj ->
        getobj (Workspace (myfree obj m)) q = getobj (Workspace m) q) /\
     (forall l, freechain (Workspace m) (Freelist m) l -> ~ In obj l ->
        freechain (Workspace (myfree obj m)) (Freelist (myfree obj m)) (obj :: l)) /\
     Freespace (myfree obj m) = wrap16 (Freespace m + 1) /\
     (0 <= Freespace m < 65535 -> Freespace (myfree obj m) = Freespace m + 1)).
Proof.
  split.
  - intros m Hinv. pose proof (freelist_inv_empty m Hinv) as He.
    pose proof Hinv as (Hl & l & Hc & Hf). split.
    + rewrite myalloc_spec. destruct (Z.eqb_spec (Freespace m) 0) as [E0|N0].
      * split; [tauto|]. intros _. eexists. reflexivity.
      * split; [intros [m' H]; discriminate | tauto].
    + intros Hne. rewrite myalloc_spec.
      destruct (Z.eqb_spec (Freespace m) 0) as [E0|N0]; [tauto|].
      remember (Freelist m) as p eqn:Ep.
      destruct Hc as [|p l' Hn Hv Hc']; [congruence|].
      exists l'. eexists. split; [constructor; auto|]. split; [reflexivity|].
      simpl. split; auto. split; auto.
      assert (Hlen : (length (p :: l') <= Z.to_nat WORKSPACESIZE)%nat).
      { eapply freechain_length. constructor; eauto. }
      simpl in Hlen. rewrite Hf. simpl length. unfold wrap16, WORKSPACESIZE in *.
      rewrite Z.mod_small; lia.
  - intros m obj Hv Hl. simpl. repeat split.
    + now apply getobj_free_cell.
    + intros q Hq. apply getobj_free_cell_ne. congruence.
    + intros l Hc Hnot. now apply freechain_push.
    + intros Hr. unfold wrap16. rewrite Z.mod_small; lia.
Qed.

(** C9.  [Freespace] equals the number of cells in the [Freelist] chain
    ([freelist_inv]): [initworkspace] establishes it from the C initial value
    [Freespace = 0]; [myalloc] preserves it whether it returns or raises;
    [myfree] preserves it for every cell that is not already on the list (its
    only caller, [sweep], frees each cell at most once into a list it has
    emptied); [sweep] establishes it from any state of the arena; and under it
    the test [Freespace == 0] of [myalloc] is the test for an empty list. *)
Theorem Freespace_counts_Freelist :
  (forall m, Freespace m = 0 -> length (Workspace m) = Z.to_nat WORKSPACESIZE ->
     freelist_inv (initworkspace m)) /\
  (forall m, freelist_inv m ->
     match myalloc m with
     | Done _ m' => freelist_inv m'
     | Error _ m' => freelist_inv m'
     | _ => False
     end) /\
  (forall m obj, freelist_inv m -> valid obj ->
     (forall l, freechain (Workspace m) (Freelist m) l -> ~ In obj l) ->
     freelist_inv (myfree obj m)) /\
  (forall m, length (Workspace m) = Z.to_nat WORKSPACESIZE -> freelist_inv (sweep m)) /\
  (forall m, freelist_inv m -> (Freespace m = 0 <-> Freelist m = NULL)).
Proof.
  split; [exact freelist_inv_initworkspace|].
  split.
  { intros m Hinv. pose proof (freelist_inv_myalloc m Hinv) as H.
    destruct (myalloc m); tauto. }
  split; [exact freelist_inv_myfree|].
  split; [exact freelist_inv_sweep | exact freelist_inv_empty].
Qed.

(** ** eq *)

Lemma toint_wrap16 n : INT_MIN <= n <= INT_MAX -> toint (wrap16 n) = n.
Proof.
  unfold toint, wrap16, INT_MIN, INT_MAX. intros H.
  destruct (Z_lt_le_dec n 0).
  - replace (n mod 65536) with (n + 65536).
    + destruct (Z.ltb_spec (n + 65536) 32768); lia.
    + apply Z.mod_unique with (-1); lia.
  - rewrite Z.mod_small by lia. destruct (Z.ltb_spec n 32768); lia.
Qed.


(** ** Making a number; fn_add *)

Lemma make_cell_spec m (a d : Z) :
  freelist_inv m -> Freespace m <> 0 ->
  exists m',
    (ptr <- myalloc ;;
     modify (fun m => with_Workspace (set_car (Workspace m) ptr a) m) ;;;
     modify (fun m => with_Workspace (set_cdr (Workspace m) ptr d) m) ;;;
     ret ptr) m = Done (Freelist m) m' /\
    valid (Freelist m) /\
    getobj (Workspace m') (Freelist m) = mkobj a d /\
    (forall q, q <> Freelist m -> getobj (Workspace m') q = getobj (Workspace m) q) /\
    freelist_inv m' /\
    Freespace m' = Freespace m - 1 /\
    same_registers m m'.
Proof.
  intros Hinv Hfs. pose proof (freelist_inv_myalloc m Hinv) as Ha.
  pose proof Hinv as (Hl & l & Hc & Hf).
  unfold bind at 1. rewrite myalloc_spec in *.
  destruct (Z.eqb_spec (Freespace m) 0) as [|_]; [contradiction|].
  destruct Ha as (_ & Hne & Hinv').
  assert (Hv : valid (Freelist m)) by (inversion Hc; subst; congruence).
  eexists. split; [reflexivity|]. simpl.
  split; auto. split.
  { rewrite getobj_set_cdr_eq; auto.
    - rewrite getobj_set_car_eq; auto.
    - now rewrite length_set_car. }
  split.
  { intros q Hq. rewrite getobj_set_cdr_ne, getobj_set_car_ne; auto. }
  split.
  { destruct Hinv' as (Hl' & l' & Hc' & Hf'). simpl in Hl', Hc', Hf'. split; simpl.
    - now rewrite length_set_cdr, length_set_car.
    - exists l'. split; auto.
      assert (Hnot : ~ In (Freelist m) l').
      { remember (Freelist m) as p. destruct Hc as [|p l0 ? ? Hc0]; [congruence|].
        pose proof (freechain_inj _ _ _ _ Hc0 Hc'). subst l0.
        assert (Hnd : NoDup (p :: l')).
        { eapply freechain_NoDup. constructor; eauto. }
        now inversion Hnd. }
      unfold set_cdr, set_car. apply freechain_setobj; auto.
      apply freechain_setobj; auto. }
  split.
  { rewrite Hf. destruct l as [|p l']; [inversion Hc; subst; simpl in Hf; congruence|].
    pose proof (freechain_length _ _ _ Hc) as Hlen. simpl length in *.
    unfold wrap16, WORKSPACESIZE in *. rewrite Z.mod_small; lia. }
  repeat split.
Qed.

Lemma number_spec m n :
  freelist_inv m -> Freespace m <> 0 -> INT_MIN <= n <= INT_MAX ->
  exists m',
    number n m = Done (Freelist m) m' /\
    holds_int (Workspace m') (Freelist m) n /\
    (forall q, q <> Freelist m -> getobj (Workspace m') q = getobj (Workspace m) q) /\
    freelist_inv m'.
Proof.
  intros Hinv Hfs Hn.
  destruct (make_cell_spec m NUMBER (wrap16 n) Hinv Hfs) as (m' & E & Hv & Hg & Ho & Hi & _).
  exists m'. split; [exact E|]. split; [|split; auto].
  unfold holds_int, integerp, type_of. rewrite Hg. simpl.
  split; [|split; auto].
  apply valid_not_null in Hv. apply Z.eqb_neq in Hv. now rewrite Hv.
Qed.

Lemma checkinteger_holds m x n :
  holds_int (Workspace m) x n -> checkinteger x m = Done n m.
Proof.
  intros (Hi & Hr & Hc). unfold checkinteger. rewrite Hi, Hc.
  now rewrite toint_wrap16.
Qed.

Lemma int_sub_exact a b :
  INT_MIN <= a - b <= INT_MAX -> int_sub a b = a - b.
Proof. apply toint_wrap16. Qed.

Lemma int_add_exact a b :
  INT_MIN <= a + b <= INT_MAX -> int_add a b = a + b.
Proof. apply toint_wrap16. Qed.

(** One iteration of the loop of [fn_add] on an integer argument. *)
Lemma fn_add_loop_step fuel m args x n rest acc :
  valid args -> car (getobj (Workspace m) args) = x ->
  cdr (getobj (Workspace m) args) = rest ->
  holds_int (Workspace m) x n -> INT_MIN <= acc <= INT_MAX ->
  fn_add_loop (S fuel) args acc m =
  if (acc + n <? INT_MIN) || (INT_MAX <? acc + n)
  then Error "arithmetic overflow"%string (with_GCStack NULL m)
  else fn_add_loop fuel rest (acc + n) m.
Proof.
  intros Hv Hcar Hcdr Hx Hacc. pose proof Hx as (_ & Hn & _).
  cbn [fn_add_loop]. apply valid_not_null in Hv. apply Z.eqb_neq in Hv. rewrite Hv.
  unfold bind at 1. unfold get_machine at 1. unfold bind at 1.
  rewrite Hcar, (checkinteger_holds m x n Hx).
  unfold INT_MIN, INT_MAX in *.
  destruct (Z.ltb_spec n 1).
  - rewrite int_sub_exact by (unfold INT_MIN, INT_MAX; lia). unfold bind at 1.
    destruct (Z.gtb_spec (-32768 - n) acc).
    + destruct (Z.ltb_spec (acc + n) (-32768)); [reflexivity | lia].
    + destruct (Z.ltb_spec (acc + n) (-32768)); [lia|].
      destruct (Z.ltb_spec 32767 (acc + n)); [lia|]. cbn.
      rewrite Hcdr. rewrite int_add_exact by (unfold INT_MIN, INT_MAX; lia). reflexivity.
  - rewrite int_sub_exact by (unfold INT_MIN, INT_MAX; lia). unfold bind at 1.
    destruct (Z.ltb_spec (32767 - n) acc).
    + destruct (Z.ltb_spec (acc + n) (-32768)); [reflexivity|].
      destruct (Z.ltb_spec 32767 (acc + n)); [reflexivity | lia].
    + destruct (Z.ltb_spec (acc + n) (-32768)); [lia|].
      destruct (Z.ltb_spec 32767 (acc + n)); [lia|]. cbn.
      rewrite Hcdr. rewrite int_add_exact by (unfold INT_MIN, INT_MAX; lia). reflexivity.
Qed.

Lemma sum_list_running acc ns :
  fold_left Z.add ns acc = acc + sum_list ns.
Proof.
  revert acc; induction ns as [|n ns IH]; intros acc; simpl; [lia|].
  rewrite IH. unfold sum_list. lia.
Qed.

Lemma fn_add_loop_exact xs : forall fuel m args ns acc,
  lisp_list (Workspace m) args xs ->
  Forall2 (holds_int (Workspace m)) xs ns ->
  Forall (fun s => INT_MIN <= s <= INT_MAX) (running_sums acc ns) ->
  INT_MIN <= acc <= INT_MAX ->
  (length xs < fuel)%nat ->
  fn_add_loop fuel args acc m = Done (acc + sum_list ns) m.
Proof.
  induction xs as [|x xs IH]; intros fuel m args ns acc Hl Hx Hs Hacc Hfuel.
  - inversion Hl; subst. inversion Hx; subst. destruct fuel; [simpl in Hfuel; lia|].
    simpl. unfold ret. f_equal. lia.
  - inversion Hl as [|p x' l Hv Hcar Hrest]; subst.
    inversion Hx as [|x' n xs' ns' Hn Hns]; subst.
    destruct fuel as [|fuel]; [simpl in Hfuel; lia|].
    simpl in Hs. inversion Hs as [|s ss Hs1 Hs2]; subst.
    rewrite (fn_add_loop_step fuel m args _ n _ acc Hv eq_refl eq_refl Hn Hacc).
    destruct (Z.ltb_spec (acc + n) INT_MIN); [lia|].
    destruct (Z.ltb_spec INT_MAX (acc + n)); [lia|]. simpl orb. cbv iota.
    rewrite (IH fuel m _ ns' (acc + n)); auto.
    + f_equal. unfold sum_list. simpl. lia.
    + simpl in Hfuel. lia.
Qed.

Lemma running_sums_total ns : forall acc,
  INT_MIN <= acc <= INT_MAX ->
  Forall (fun s => INT_MIN <= s <= INT_MAX) (running_sums acc ns) ->
  INT_MIN <= acc + sum_list ns <= INT_MAX.
Proof.
  induction ns as [|n ns IH]; intros acc Hacc H.
  - unfold sum_list; simpl. lia.
  - simpl in H. inversion H; subst.
    replace (acc + sum_list (n :: ns)) with ((acc + n) + sum_list ns)
      by (unfold sum_list; simpl; lia).
    apply IH; auto.
Qed.

(** C8.  Called on two integer arguments whose exact sum is outside the
    range of [int], [fn_add] leaves through the error handler with
    "arithmetic overflow" and makes no number; called on any list of integer
    arguments whose running sums all stay in range (with a free cell for the
    result), it returns a number cell holding the exact sum. *)
Theorem fn_add_overflow_checked :
  (forall m args env fuel x y a b,
     lisp_list (Workspace m) args [x; y] ->
     holds_int (Workspace m) x a -> holds_int (Workspace m) y b ->
     ~ (INT_MIN <= a + b <= INT_MAX) ->
     (3 <= fuel)%nat ->
     fn_add fuel args env m = Error "arithmetic overflow"%string (with_GCStack NULL m)) /\
  (forall m args env fuel xs ns,
     freelist_inv m -> Freespace m <> 0 ->
     lisp_list (Workspace m) args xs ->
     Forall2 (holds_int (Workspace m)) xs ns ->
     Forall (fun s => INT_MIN <= s <= INT_MAX) (running_sums 0 ns) ->
     (length xs < fuel)%nat ->
     exists p m',
       fn_add fuel args env m = Done p m' /\
       holds_int (Workspace m') p (sum_list ns)).
Proof.
  split.
  - intros m args env fuel x y a b Hl Hx Hy Hout Hfuel.
    inversion Hl as [|p x' l Hv Hcar Hrest]; subst.
    inversion Hrest as [|p' y' l' Hv' Hcar' Hrest']; subst.
    destruct fuel as [|[|fuel]]; try lia.
    pose proof Hx as (_ & Ha & _). pose proof Hy as (_ & Hb & _).
    unfold fn_add, bind.
    rewrite (fn_add_loop_step _ m args _ a _ 0 Hv eq_refl eq_refl Hx)
      by (unfold INT_MIN, INT_MAX; lia).
    destruct (Z.ltb_spec (0 + a) INT_MIN); [lia|].
    destruct (Z.ltb_spec INT_MAX (0 + a)); [lia|]. simpl orb. cbv iota.
    rewrite (fn_add_loop_step _ m _ _ b _ (0 + a) Hv' eq_refl eq_refl Hy) by lia.
    destruct (Z.ltb_spec (0 + a + b) INT_MIN); [reflexivity|].
    destruct (Z.ltb_spec INT_MAX (0 + a + b)); [reflexivity|]. lia.
  - intros m args env fuel xs ns Hinv Hfs Hl Hx Hs Hfuel.
    unfold fn_add, bind.
    rewrite (fn_add_loop_exact xs fuel m args ns 0 Hl Hx Hs)
      by (auto; unfold INT_MIN, INT_MAX; lia).
    assert (Hsum : INT_MIN <= 0 + sum_list ns <= INT_MAX).
    { apply running_sums_total; auto. unfold INT_MIN, INT_MAX; lia. }
    destruct (number_spec m (0 + sum_list ns) Hinv Hfs Hsum) as (m' & E & Hh & _).
    exists (Freelist m), m'. split; auto.
Qed.

(** ** The reader: numbers *)

Lemma byte_forall (P : Z -> bool) :
  forallb P (map Z.of_nat (seq 0 256)) = true ->
  forall d, 0 <= d < 256 -> P d = true.
Proof.
  intros H d Hd. rewrite forallb_forall in H. apply H.
  apply in_map_iff. exists (Z.to_nat d). split; [lia|]. apply in_seq. lia.
Qed.

(** A digit (of any base up to 16) is none of the characters that [nextitem]
    treats specially before it gathers an atom. *)
Definition plain_char (d : Z) : bool :=
  negb (issp d) && negb (isbr d) && negb (d =? 59) && negb (d =? 10) && negb (d =? -1)
  && negb (d =? 39) && negb (d =? 46) && negb (d =? 43) && negb (d =? 45)
  && (0 <=? digitvalue d).

Lemma digit_plain d : 0 <= d < 256 -> digitvalue d < 16 -> plain_char d = true.
Proof.
  intros Hd Hv.
  pose proof (byte_forall (fun d => implb (digitvalue d <? 16) (plain_char d))
                eq_refl d Hd) as H.
  simpl in H. destruct (Z.ltb_spec (digitvalue d) 16); [exact H | lia].
Qed.

Lemma plain_char_elim d :
  plain_char d = true ->
  issp d = false /\ isbr d = false /\ (d =? 59) = false /\ (d =? 10) = false /\
  (d =? -1) = false /\ (d =? 39) = false /\ (d =? 46) = false /\
  (d =? 43) = false /\ (d =? 45) = false /\ 0 <= digitvalue d.
Proof.
  unfold plain_char. rewrite !andb_true_iff, !negb_true_iff, Z.leb_le. tauto.
Qed.

Lemma gfun_next m c rest :
  LastChar m = 0 -> Source m = c :: rest -> gfun m = Done c (with_Source rest m).
Proof. intros HL HS. unfold gfun. now rewrite HL, HS. Qed.

Lemma digits_value_mono base ds : forall acc,
  1 <= base -> 0 <= acc -> Forall (fun d => 0 <= digitvalue d) ds ->
  acc <= digits_value base ds acc.
Proof.
  induction ds as [|d ds IH]; intros acc Hb Hacc Hd; simpl; [lia|].
  inversion Hd; subst. unfold digits_value in *. simpl.
  etransitivity; [|apply IH; auto; nia]. nia.
Qed.

(** The loop that gathers the digits: with the first digit in [ch] and the
    others followed by a terminator in [Source], it stores them all, keeps
    [isnumber], and leaves in [result] the value of the digits, as long as
    that value fits 16 bits. *)
Lemma token_loop_digits base ds : forall fuel m d0 buffer result t rest,
  2 <= base <= 16 ->
  LastChar m = 0 -> Source m = ds ++ t :: rest ->
  Forall (digit_in base) (d0 :: ds) ->
  (issp t || isbr t) = true ->
  (length buffer + length (d0 :: ds) <= 21)%nat ->
  0 <= result ->
  digits_value base (d0 :: ds) result < 65536 ->
  (S (length ds) < fuel)%nat ->
  token_loop fuel d0 buffer result true base m
  = Done (t, buffer ++ map (fun c => c mod 256) (d0 :: ds),
          digits_value base (d0 :: ds) result, true)
         (with_Source rest m).
Proof.
  induction ds as [|d1 ds IH]; intros fuel m d0 buffer result t rest
    Hb HL HS Hd Ht Hlen Hr Hv Hfuel;
    (destruct fuel as [|fuel]; [simpl in Hfuel; lia|]);
    inversion Hd as [|? ? [Hd0 Hv0] Hd']; subst;
    destruct (plain_char_elim d0 (digit_plain d0 Hd0 ltac:(lia)))
      as (Hsp & Hbr & _ & _ & _ & _ & _ & _ & _ & Hnn);
    assert (Hlt : (Z.of_nat (length buffer) <? BUFFERSIZE - 1) = true)
      by (apply Z.ltb_lt; unfold BUFFERSIZE; simpl length in Hlen; lia);
    cbn [token_loop]; rewrite Hsp, Hbr, Hlt; cbn [negb andb];
    unfold bind at 1; simpl app in HS;
    rewrite (gfun_next m _ _ HL HS);
    (destruct (Z.ltb_spec (digitvalue d0) base); [|lia]);
    unfold digits_value in *; simpl fold_left in *.
  - destruct fuel as [|fuel]; [simpl in Hfuel; lia|].
    cbn [token_loop].
    assert (Hstop : (negb (issp t) && negb (isbr t)) = false).
    { apply orb_true_iff in Ht. destruct Ht as [-> | ->]; simpl; auto.
      now rewrite andb_false_r. }
    rewrite Hstop. cbn [andb]. unfold ret.
    assert (E : wrap16 (result * base + digitvalue d0) = result * base + digitvalue d0).
    { unfold wrap16. apply Z.mod_small. split; [nia | lia]. }
    rewrite E. reflexivity.
  - assert (Hmono : result * base + digitvalue d0
                    <= digits_value base (d1 :: ds) (result * base + digitvalue d0)).
    { apply digits_value_mono; try lia; try nia.
      eapply Forall_impl; [|exact Hd']. intros d [Hd1 Hd2].
      apply (plain_char_elim d (digit_plain d Hd1 ltac:(lia))). }
    unfold digits_value in Hmono. simpl fold_left in Hmono.
    assert (E : wrap16 (result * base + digitvalue d0) = result * base + digitvalue d0).
    { unfold wrap16. apply Z.mod_small. split; [nia | lia]. }
    rewrite E.
    rewrite (IH fuel (with_Source (ds ++ t :: rest) m) d1 (buffer ++ [d0 mod 256])
               (result * base + digitvalue d0) t rest); auto.
    + simpl. rewrite <- app_assoc. reflexivity.
    + rewrite length_app. simpl length in *. lia.
    + nia.
    + simpl length in *. lia.
Qed.

Lemma freelist_inv_registers m m' :
  Workspace m' = Workspace m -> Freelist m' = Freelist m -> Freespace m' = Freespace m ->
  freelist_inv m -> freelist_inv m'.
Proof.
  unfold freelist_inv. intros -> -> ->. auto.
Qed.

Lemma freelist_inv_with_Source m s : freelist_inv m -> freelist_inv (with_Source s m).
Proof. intros H. exact H. Qed.

Lemma freelist_inv_reading s : freelist_inv booted -> freelist_inv (reading s).
Proof. unfold reading. apply freelist_inv_with_Source. Qed.

(** [number] on any 16-bit pattern: the new cell has type [NUMBER] and holds
    the pattern. *)
Lemma number_word m n :
  freelist_inv m -> Freespace m <> 0 ->
  exists m',
    number n m = Done (Freelist m) m' /\
    integerp (Workspace m') (Freelist m) = true /\
    cdr (getobj (Workspace m') (Freelist m)) = wrap16 n.
Proof.
  intros Hinv Hfs.
  destruct (make_cell_spec m NUMBER (wrap16 n) Hinv Hfs) as (m' & E & Hv & Hg & _).
  exists m'. split; [exact E|]. unfold integerp, type_of. rewrite Hg. simpl.
  apply valid_not_null in Hv. apply Z.eqb_neq in Hv. now rewrite Hv.
Qed.

(** The machine after the digits and their terminator have been consumed. *)
Lemma nextitem_atom_number fuel m d0 ds t rest buffer base sign :
  2 <= base <= 16 ->
  LastChar m = 0 -> Source m = ds ++ t :: rest ->
  Forall (digit_in base) (d0 :: ds) ->
  (issp t || isbr t) = true ->
  (length buffer + length (d0 :: ds) <= 21)%nat ->
  digits_value base (d0 :: ds) 0 < 65536 ->
  (S (length ds) < fuel)%nat ->
  exists m1,
    Workspace m1 = Workspace m /\ Freelist m1 = Freelist m /\ Freespace m1 = Freespace m /\
    nextitem_atom fuel d0 buffer base sign m =
    if (base =? 10) && (INT_MAX + (1 - sign) / 2 <? digits_value base (d0 :: ds) 0)
    then Error "Number out of range"%string (with_GCStack NULL m1)
    else number (digits_value base (d0 :: ds) 0 * sign) m1.
Proof.
  intros Hb HL HS Hd Ht Hlen Hv Hfuel.
  assert (Hd0 : digitvalue d0 < base) by (inversion Hd as [|? ? [_ H] _]; exact H).
  unfold nextitem_atom. unfold bind at 1.
  destruct (Z.ltb_spec (digitvalue d0) base); [|lia].
  rewrite (token_loop_digits base ds fuel m d0 buffer 0 t rest); auto; try lia.
  exists (if isbr t then with_LastChar t (with_Source rest m) else with_Source rest m).
  destruct (isbr t); (split; [reflexivity|]); (split; [reflexivity|]);
    (split; [reflexivity|]); unfold bind at 1; unfold modify, ret;
    unfold bind at 1;
    destruct ((base =? 10) && (INT_MAX + (1 - sign) / 2 <? digits_value base (d0 :: ds) 0));
    reflexivity.
Qed.

Lemma skip_spaces_none fuel ch : issp ch = false -> skip_spaces (S fuel) ch = ret ch.
Proof. intros H. simpl. now rewrite H. Qed.

Lemma nextitem_plain fuel m d0 tl :
  0 <= d0 < 256 -> digitvalue d0 < 16 ->
  LastChar m = 0 -> Source m = d0 :: tl ->
  nextitem (S (S fuel)) m = nextitem_atom (S fuel) d0 [] 10 1 (with_Source tl m).
Proof.
  intros Hd Hv HL HS.
  destruct (plain_char_elim d0 (digit_plain d0 Hd Hv))
    as (Hsp & Hbr & H59 & H10 & Hm1 & H39 & H46 & H43 & H45 & _).
  apply orb_false_iff in Hbr. destruct Hbr as [Hbr H35].
  apply orb_false_iff in Hbr. destruct Hbr as [Hbr H34].
  apply orb_false_iff in Hbr. destruct Hbr as [H41 H40].
  cbn [nextitem]. unfold bind at 1. rewrite (gfun_next m d0 tl HL HS).
  rewrite skip_spaces_none by exact Hsp. unfold bind at 1. unfold ret at 1.
  rewrite H59. unfold bind at 1. unfold ret at 1.
  rewrite H10. unfold bind at 1. unfold ret at 1.
  rewrite Hm1, H41, H40, H39, H46, H34, H43, H45, H35. reflexivity.
Qed.

Lemma nextitem_signed fuel m s d0 tl :
  s = 43 \/ s = 45 ->
  LastChar m = 0 -> Source m = s :: d0 :: tl ->
  nextitem (S (S fuel)) m
  = nextitem_atom (S fuel) d0 [s] 10 (if s =? 45 then -1 else 1) (with_Source tl m).
Proof.
  intros Hs HL HS.
  cbn [nextitem]. unfold bind at 1. rewrite (gfun_next m s _ HL HS).
  destruct Hs as [-> | ->];
    (rewrite skip_spaces_none by reflexivity); unfold bind at 1; unfold ret at 1;
    cbn [Z.eqb Pos.eqb]; unfold bind at 1; unfold ret at 1;
    unfold bind at 1; unfold ret at 1; cbn [Z.eqb Pos.eqb orb]; unfold bind at 1;
    rewrite (gfun_next (with_Source (d0 :: tl) m) d0 tl HL eq_refl); reflexivity.
Qed.

Lemma nextitem_radix fuel m c d0 tl base :
  (base = 2 /\ (c = 66 \/ c = 98)) \/ (base = 8 /\ (c = 79 \/ c = 111)) \/
  (base = 16 /\ (c = 88 \/ c = 120)) ->
  LastChar m = 0 -> Source m = 35 :: c :: d0 :: tl ->
  nextitem (S (S fuel)) m = nextitem_atom (S fuel) d0 [] base 1 (with_Source tl m).
Proof.
  intros Hc HL HS.
  cbn [nextitem]. unfold bind at 1. rewrite (gfun_next m 35 _ HL HS).
  rewrite skip_spaces_none by reflexivity. unfold bind at 1. unfold ret at 1.
  cbn [Z.eqb Pos.eqb]. unfold bind at 1. unfold ret at 1.
  unfold bind at 1. unfold ret at 1. cbn [Z.eqb Pos.eqb orb]. unfold bind at 1.
  rewrite (gfun_next (with_Source (c :: d0 :: tl) m) c (d0 :: tl) HL eq_refl).
  destruct Hc as [[-> [-> | ->]] | [[-> [-> | ->]] | [-> [-> | ->]]]];
    cbn; unfold bind at 1;
    rewrite (gfun_next (with_Source (d0 :: tl) (with_Source _ m)) d0 tl HL eq_refl);
    reflexivity.
Qed.

Lemma number_token_shape tok base sign ds :
  number_token tok base sign ds ->
  2 <= base <= 16 /\ (sign = 1 \/ sign = -1) /\ (base <> 10 -> sign = 1) /\
  exists pre, tok = pre ++ ds /\ (length pre <= 2)%nat.
Proof.
  intros H. destruct H; (split; [lia|]); (split; [auto|]); (split; [intros; auto; lia|]).
  - exists []. auto.
  - exists [43]. auto.
  - exists [45]. auto.
  - exists [35; c]. auto.
  - exists [35; c]. auto.
  - exists [35; c]. auto.
Qed.

(** How [nextitem] reaches the atom loop on each form of number token. *)
Lemma nextitem_number_token fuel m tok base sign d0 ds tl :
  number_token tok base sign (d0 :: ds) ->
  digit_in base d0 ->
  LastChar m = 0 -> Source m = tok ++ tl ->
  exists buffer,
    (length buffer + length (d0 :: ds) <= S (length ds) + 1)%nat /\
    nextitem (S (S fuel)) m
    = nextitem_atom (S fuel) d0 buffer base sign (with_Source (ds ++ tl) m).
Proof.
  intros Htok [Hd0 Hv0] HL HS.
  inversion Htok; subst; simpl app in HS.
  - exists []. split; [simpl; lia|]. apply nextitem_plain; auto. lia.
  - exists [43]. split; [simpl; lia|].
    now rewrite (nextitem_signed fuel m 43 d0 (ds ++ tl)) by auto.
  - exists [45]. split; [simpl; lia|].
    now rewrite (nextitem_signed fuel m 45 d0 (ds ++ tl)) by auto.
  - exists []. split; [simpl; lia|]. apply (nextitem_radix fuel m c); auto.
  - exists []. split; [simpl; lia|]. apply (nextitem_radix fuel m c); auto.
  - exists []. split; [simpl; lia|]. apply (nextitem_radix fuel m c); auto.
Qed.



Lemma returns_int_sound o n :
  returns_int o n = true ->
  exists p m', o = Done p m' /\ holds_int (Workspace m') p n.
Proof.
  destruct o as [p m'| | |]; simpl; try discriminate.
  rewrite !andb_true_iff, Z.eqb_eq, !Z.leb_le. intros [[[H1 H2] H3] H4].
  exists p, m'. split; auto. repeat split; auto.
Qed.

(** ** Garbage collection *)

(** C1.  On every well-formed heap ([heap_ok]: no stale mark bits, reachable
    pointers are addresses of objects, reachable strings and long symbols own
    their chains), with the roots [tee], [GlobalEnv], [GCStack], [form] and
    [env], [gc] returns; every cell that was reachable from the roots keeps
    both its words, has its mark bit clear and is not on the free list; and the
    rebuilt free list holds every cell that was not reachable. *)
Theorem gc_sound : forall m form env,
  heap_ok (Workspace m) (gc_roots m form env) ->
  exists m' fl,
    gc form env m = Some m' /\
    freechain (Workspace m') (Freelist m') fl /\
    (forall p, reachable (Workspace m) (gc_roots m form env) p ->
       getobj (Workspace m') p = getobj (Workspace m) p /\
       marked (Workspace m') p = false /\ ~ In p fl) /\
    (forall p, valid p -> ~ reachable (Workspace m) (gc_roots m form env) p -> In p fl).
Proof.
  intros m form env Hok. set (roots := gc_roots m form env) in *.
  set (ws0 := Workspace m) in *.
  assert (Hinv0 : mark_inv ws0 roots ws0).
  { split.
    - apply marks_only_refl. apply (ok_unmarked _ _ Hok).
    - intros p Hv Hm. rewrite (ok_unmarked _ _ Hok p Hv) in Hm. discriminate.
    - intros h l c Hr Hh Hc Hin.
      destruct (chain_cells_not_obj ws0 roots Hok h l c Hr Hh Hc Hin) as [Hvc _].
      rewrite (ok_unmarked _ _ Hok c Hvc).
      now rewrite (ok_unmarked _ _ Hok h (ok_valid _ _ Hok h Hr)). }
  destruct (markroots_spec ws0 roots Hok roots ws0) as (ws & E & Hinv & _ & Hroots & Hclo).
  { apply incl_refl. }
  { exact Hinv0. }
  { intros x Hx Hm. rewrite (ok_unmarked _ _ Hok x (ok_valid _ _ Hok x Hx)) in Hm.
    discriminate. }
  pose proof (marked_iff_reachable ws0 roots ws Hok Hinv Hroots Hclo) as Hiff.
  pose proof (mi_marks _ _ _ Hinv) as Hmo.
  assert (Hl : length ws = Z.to_nat WORKSPACESIZE).
  { destruct Hmo as [Hl _]. rewrite Hl. apply (ok_length _ _ Hok). }
  destruct (sweep_spec (with_Workspace ws m) Hl) as (_ & Hfc & _ & Hkeep & _).
  cbn [Workspace with_Workspace] in Hfc, Hkeep.
  exists (sweep (with_Workspace ws m)).
  exists (map cell_addr (unmarked_below ws (Z.to_nat WORKSPACESIZE))).
  split.
  { unfold gc. fold roots. unfold roots, gc_roots in E. fold ws0. rewrite E. reflexivity. }
  split; [exact Hfc|].
  split.
  - intros p Hp. pose proof (reachable_valid ws0 roots p Hok Hp) as Hv.
    assert (Hm : marked ws p = true) by (apply Hiff; auto).
    assert (Hg : getobj (Workspace (sweep (with_Workspace ws m))) p = getobj ws0 p).
    { rewrite (Hkeep p Hv Hm). destruct Hmo as [_ Hmo]. rewrite (Hmo p Hv), Hm.
      cbn [car cdr]. rewrite unmark_mark_word.
      - apply object_eta.
      - apply (ok_words _ _ Hok); auto.
      - apply marked_false_iff. apply (ok_unmarked _ _ Hok); auto. }
    split; [exact Hg|]. split.
    + unfold marked. rewrite Hg. apply (ok_unmarked _ _ Hok p Hv).
    + intros Hin. apply in_unmarked_below in Hin.
      destruct Hin as (i & _ & _ & Hum). congruence.
  - intros p Hv Hnr. apply in_unmarked_below.
    destruct (valid_index p Hv) as [Hi Ep].
    exists (cell_index p). split; [exact Hi|]. split; [auto|].
    destruct (marked ws p) eqn:Hm; auto. exfalso. apply Hnr. apply Hiff; auto.
Qed.


(** ** The evaluator: environments *)

Lemma list_cells_ext ws ws' p cells xs :
  list_cells ws p cells xs ->
  (forall c, In c cells -> getobj ws' c = getobj ws c) ->
  list_cells ws' p cells xs.
Proof.
  induction 1 as [|p cells xs Hv Hl IH]; intros Hsame.
  - constructor.
  - rewrite <- (Hsame p) by (left; reflexivity).
    constructor; auto.
    rewrite (Hsame p) by (left; reflexivity).
    apply IH. intros c Hc. apply Hsame. now right.
Qed.

Lemma freechain_ext ws ws' p l :
  freechain ws p l ->
  (forall q, In q l -> getobj ws' q = getobj ws q) ->
  freechain ws' p l.
Proof.
  induction 1 as [|p l Hn Hv Hc IH]; intros Hsame; constructor; auto.
  rewrite (Hsame p) by (left; reflexivity).
  apply IH. intros q Hq. apply Hsame. now right.
Qed.

Lemma cons_spec m (a d : Z) :
  freelist_inv m -> Freespace m <> 0 ->
  exists m',
    cons a d m = Done (Freelist m) m' /\
    valid (Freelist m) /\
    getobj (Workspace m') (Freelist m) = mkobj a d /\
    (forall q, q <> Freelist m -> getobj (Workspace m') q = getobj (Workspace m) q) /\
    freelist_inv m' /\
    Freespace m' = Freespace m - 1 /\
    same_registers m m' /\
    Freelist m' = cdr (getobj (Workspace m) (Freelist m)).
Proof.
  intros Hinv Hfs.
  destruct (make_cell_spec m a d Hinv Hfs) as (m' & E & H1 & H2 & H3 & H4 & H5 & H6).
  exists m'. repeat (split; [assumption|]).
  unfold bind in E. rewrite myalloc_spec in E.
  destruct (Z.eqb_spec (Freespace m) 0); [contradiction|].
  injection E as Em1. rewrite <- Em1. reflexivity.
Qed.

Lemma list_cells_length ws p cells xs :
  list_cells ws p cells xs -> length cells = length xs.
Proof. induction 1; simpl; congruence. Qed.

Lemma list_cells_not_null ws p cells xs :
  list_cells ws p cells xs -> p <> NULL -> cells <> [].
Proof. destruct 1; congruence. Qed.

(** The loop of the [LAMBDA] case pushes the binding pairs of [env] on
    [envcopy]: the new list has new cells, its elements are the binding pairs
    themselves, and no cell that was in use is written. *)
Lemma copy_environment_spec :
  forall pairs cells m env envcopy acells acc fl fuel,
    freelist_inv m ->
    freechain (Workspace m) (Freelist m) fl ->
    list_cells (Workspace m) env cells pairs ->
    list_cells (Workspace m) envcopy acells acc ->
    (forall c, In c cells -> ~ In c fl) ->
    (forall c, In c acells -> ~ In c fl) ->
    (length (bindings pairs) <= length fl)%nat ->
    (length pairs < fuel)%nat ->
    exists r m' rcells,
      copy_environment fuel env envcopy m = Done r m' /\
      list_cells (Workspace m') r rcells (rev (bindings pairs) ++ acc) /\
      (forall q, ~ In q fl -> getobj (Workspace m') q = getobj (Workspace m) q) /\
      freelist_inv m'.
Proof.
  induction pairs as [|pair pairs IH];
    intros cells m env envcopy acells acc fl fuel Hinv Hfl Henv Hacc Hd Hda Hlen Hfuel.
  - inversion Henv; subst.
    destruct fuel as [|fuel]; [simpl in Hfuel; lia|].
    exists envcopy, m, acells. split; [reflexivity|].
    split; [exact Hacc|]. split; auto.
  - inversion Henv as [|p cells' xs Hv Htail]; subst.
    destruct fuel as [|fuel]; [simpl in Hfuel; lia|].
    assert (Hp : env <> NULL) by (apply valid_not_null; auto).
    cbn [copy_environment].
    destruct (Z.eqb_spec env NULL) as [|_]; [contradiction|].
    unfold bind at 1. unfold rd_car at 1.
    unfold bindings in *. cbn [filter] in *.
    destruct (Z.eqb_spec (car (getobj (Workspace m) env)) NULL) as [Hnull|Hnn];
      cbn [negb] in *.
    + unfold bind at 1. unfold ret at 1. unfold bind at 1. unfold rd_cdr at 1.
      destruct (IH cells' m (cdr (getobj (Workspace m) env)) envcopy acells acc fl fuel)
        as (r & m' & rcells & E & Hr & Hsame & Hinv'); auto.
      { intros c Hc. apply Hd. now right. }
      { simpl in Hfuel. lia. }
      exists r, m', rcells. split; [exact E|]. split; [exact Hr|]. split; auto.
    + destruct fl as [|f fl']; [simpl in Hlen; lia|].
      assert (Hhead : f = Freelist m) by (inversion Hfl; subst; reflexivity).
      subst f.
      assert (Hfs : Freespace m <> 0).
      { destruct Hinv as (_ & l & Hc & Hf).
        pose proof (freechain_inj _ _ _ _ Hc Hfl). subst l. simpl length in Hf. lia. }
      destruct (cons_spec m (car (getobj (Workspace m) env)) envcopy Hinv Hfs)
        as (m1 & E1 & Hv1 & Hg1 & Ho1 & Hinv1 & Hfs1 & Hreg1 & Hnext).
      assert (Hnd : NoDup (Freelist m :: fl')) by (eapply freechain_NoDup; eauto).
      assert (Hfl1 : freechain (Workspace m1) (Freelist m1) fl').
      { rewrite Hnext. inversion Hfl as [|? ? ? ? Hrest]; subst.
        apply freechain_ext with (ws := Workspace m); auto.
        intros q Hq. apply Ho1. intros ->. inversion Hnd; contradiction. }
      unfold bind at 1.
      rewrite E1. unfold bind at 1. unfold rd_cdr at 1.
      assert (Henvf : env <> Freelist m) by (intros ->; apply (Hd (Freelist m)); left; reflexivity).
      rewrite (Ho1 env Henvf).
      destruct (IH cells' m1 (cdr (getobj (Workspace m) env)) (Freelist m) (Freelist m :: acells)
                  (car (getobj (Workspace m) env) :: acc) fl' fuel)
        as (r & m' & rcells & E & Hr & Hsame & Hinv'); auto.
      { apply list_cells_ext with (ws := Workspace m); auto.
        intros c Hc. apply Ho1. intros ->. apply (Hd (Freelist m)); [now right|now left]. }
      { replace (car (getobj (Workspace m) env)) with (car (getobj (Workspace m1) (Freelist m)))
          by (now rewrite Hg1).
        constructor; auto. rewrite Hg1. cbn [cdr].
        apply list_cells_ext with (ws := Workspace m); auto.
        intros c Hc. apply Ho1. intros ->. apply (Hda (Freelist m)); [auto|now left]. }
      { intros c Hc Hin. apply (Hd c); [now right|now right]. }
      { intros c [<-|Hc] Hin.
        - inversion Hnd; contradiction.
        - apply (Hda c); [auto|now right]. }
      { simpl in Hlen. lia. }
      { simpl in Hfuel. lia. }
      exists r, m', rcells. split; [exact E|]. split.
      { cbn [rev]. rewrite <- app_assoc. exact Hr. }
      split; auto.
      intros q Hq. rewrite Hsame.
      * apply Ho1. intros ->. apply Hq. now left.
      * intros Hin. apply Hq. now right.
Qed.

Lemma bind_ext {A B : Type} (c1 c2 : M A) (k1 k2 : A -> M B) m :
  c1 m = c2 m -> (forall a m', k1 a m' = k2 a m') ->
  bind c1 k1 m = bind c2 k2 m.
Proof. intros E K. unfold bind. rewrite E. destruct (c2 m); auto. Qed.

(** In the [LET] case every initializer is evaluated in the environment
    outside the form: the loop consults the evaluator at [env] only. *)
Lemma let_bindings_outer :
  forall (ev1 ev2 : Z -> Z -> M Z) env,
    (forall form m, ev1 form env m = ev2 form env m) ->
    forall fuel assigns newenv m,
      let_bindings ev1 fuel LET assigns env newenv m =
      let_bindings ev2 fuel LET assigns env newenv m.
Proof.
  intros ev1 ev2 env Hev. induction fuel as [|fuel IH]; intros assigns newenv m.
  - reflexivity.
  - cbn [let_bindings].
    destruct (assigns =? NULL); [reflexivity|].
    apply bind_ext; [reflexivity|]. intros assign m1.
    apply bind_ext; [reflexivity|]. intros m2 m3.
    apply bind_ext.
    { destruct (negb (consp (Workspace m2) assign)); [reflexivity|].
      destruct (cdr (getobj (Workspace m2) assign) =? NULL); [reflexivity|].
      apply bind_ext; [apply Hev|reflexivity]. }
    intros b m4.
    repeat (apply bind_ext; [reflexivity|]; intros).
    replace (LET =? LETSTAR) with false by reflexivity. apply IH.
Qed.

(** * Further properties of the code *)

(** ** The arena after [initworkspace] *)

Lemma same_registers_initworkspace_cell i m : same_registers m (initworkspace_cell i m).
Proof. repeat split. Qed.

Lemma getobj_nth ws i :
  (i < Z.to_nat WORKSPACESIZE)%nat ->
  getobj ws (cell_addr i) = nth i ws (mkobj 0 0).
Proof.
  intros Hi. unfold getobj.
  pose proof (valid_cell_addr i Hi) as Hv. unfold valid in Hv. rewrite Hv.
  now rewrite cell_index_addr.
Qed.

Lemma initworkspace_cells n : forall m,
  (n <= Z.to_nat WORKSPACESIZE)%nat ->
  length (Workspace m) = Z.to_nat WORKSPACESIZE ->
  Freelist m = free_link n ->
  (forall i, (n <= i < Z.to_nat WORKSPACESIZE)%nat ->
     getobj (Workspace m) (cell_addr i) = mkobj NULL (free_link (S i))) ->
  length (Workspace (for_down n initworkspace_cell m)) = Z.to_nat WORKSPACESIZE /\
  Freelist (for_down n initworkspace_cell m) = free_link 0 /\
  (forall i, (i < Z.to_nat WORKSPACESIZE)%nat ->
     getobj (Workspace (for_down n initworkspace_cell m)) (cell_addr i)
     = mkobj NULL (free_link (S i))) /\
  same_registers m (for_down n initworkspace_cell m).
Proof.
  induction n as [|n IH]; intros m Hn Hl Hfl Hcells.
  - cbn [for_down]. split; [exact Hl|]. split; [exact Hfl|].
    split; [|apply same_registers_refl].
    intros i Hi. apply Hcells. lia.
  - change (for_down (S n) initworkspace_cell m)
      with (for_down n initworkspace_cell (initworkspace_cell n m)).
    assert (Hv : valid (cell_addr n)) by (apply valid_cell_addr; lia).
    destruct (IH (initworkspace_cell n m)) as (H1 & H2 & H3 & H4).
    + lia.
    + cbn [initworkspace_cell Workspace with_Freespace with_Freelist with_Workspace].
      now rewrite length_set_cdr, length_set_car.
    + cbn [initworkspace_cell Freelist with_Freespace with_Freelist].
      unfold free_link. destruct (Nat.eqb_spec n (Z.to_nat WORKSPACESIZE)); [lia|reflexivity].
    + intros i Hi.
      cbn [initworkspace_cell Workspace with_Freespace with_Freelist with_Workspace].
      destruct (Nat.eq_dec i n) as [->|Hne].
      * rewrite getobj_free_cell by auto. now rewrite Hfl.
      * rewrite getobj_free_cell_ne.
        -- apply Hcells. lia.
        -- intros E. apply cell_addr_inj in E. lia.
    + split; [exact H1|]. split; [exact H2|]. split; [exact H3|].
      eapply same_registers_trans; [apply same_registers_initworkspace_cell|exact H4].
Qed.

Lemma nth_map_seq {A : Type} (f : nat -> A) n i d :
  (i < n)%nat -> nth i (map f (seq 0 n)) d = f i.
Proof.
  intros Hi.
  rewrite nth_indep with (d' := f O) by (now rewrite length_map, length_seq).
  rewrite (map_nth f (seq 0 n) O i). now rewrite seq_nth.
Qed.

Lemma machine_ext (m m' : machine) :
  Workspace m' = Workspace m -> Freespace m' = Freespace m ->
  Freelist m' = Freelist m -> same_registers m m' -> m' = m.
Proof.
  destruct m, m'. unfold same_registers. cbn.
  intros -> -> -> (-> & -> & -> & -> & -> & -> & -> & -> & -> & -> & ->).
  reflexivity.
Qed.

Lemma initworkspace_closed m :
  Freespace m = 0 ->
  length (Workspace m) = Z.to_nat WORKSPACESIZE ->
  initworkspace m =
  with_Freespace WORKSPACESIZE (with_Freelist (cell_addr 0) (with_Workspace fresh_arena m)).
Proof.
  intros Hf Hl.
  pose proof (freelist_inv_initworkspace m Hf Hl) as (_ & l & Hc & Hfs).
  unfold initworkspace in *.
  assert (Hlink : Freelist (with_Freelist NULL m) = free_link (Z.to_nat WORKSPACESIZE)).
  { unfold free_link. now rewrite Nat.eqb_refl. }
  destruct (initworkspace_cells (Z.to_nat WORKSPACESIZE) (with_Freelist NULL m)
              (le_n _) Hl Hlink) as (H1 & H2 & H3 & H4).
  { intros i Hi. lia. }
  destruct (initworkspace_loop (Z.to_nat WORKSPACESIZE) (with_Freelist NULL m) []
              (le_n _) Hl (freechain_nil _) (Forall_nil _) Hf)
    as (_ & Hc' & Hfs').
  set (m' := for_down (Z.to_nat WORKSPACESIZE) initworkspace_cell (with_Freelist NULL m)) in *.
  apply machine_ext.
  - cbn [Workspace with_Freespace with_Freelist with_Workspace].
    apply nth_ext with (d := mkobj 0 0) (d' := mkobj 0 0).
    + unfold fresh_arena. now rewrite length_map, length_seq.
    + intros i Hi. rewrite H1 in Hi.
      rewrite <- getobj_nth by exact Hi. rewrite H3 by exact Hi.
      unfold fresh_arena. now rewrite nth_map_seq.
  - cbn [Freespace with_Freespace]. rewrite Hfs'.
    cbn [length]. rewrite Nat.add_0_r. unfold WORKSPACESIZE. reflexivity.
  - cbn [Freelist with_Freespace with_Freelist]. rewrite H2.
    unfold free_link, WORKSPACESIZE. reflexivity.
  - eapply same_registers_trans; [|exact H4]. repeat split.
Qed.

(** X1. [initworkspace] on a board whose counter is still zero puts every
    cell of the arena on the free list in ascending address order: each cell
    has [car] NULL and [cdr] the address of the next cell (NULL in the last
    one), [Freelist] is [Workspace[0]], [Freespace] is [WORKSPACESIZE], and
    no other global changes. *)
Theorem initworkspace_fresh m :
  Freespace m = 0 ->
  length (Workspace m) = Z.to_nat WORKSPACESIZE ->
  initworkspace m =
  with_Freespace WORKSPACESIZE (with_Freelist (cell_addr 0) (with_Workspace fresh_arena m)).
Proof. exact (initworkspace_closed m). Qed.

(** ** Symbol names: twisting, builtin indices, radix-40 packing *)

Lemma bits_49152 k : Z.testbit 49152 k = (14 <=? k) && (k <? 16).
Proof.
  change 49152 with (Z.shiftl (Z.ones 2) 14).
  destruct (Z.ltb_spec k 0).
  - rewrite Z.testbit_neg_r by lia. destruct (Z.leb_spec 14 k); [lia|reflexivity].
  - rewrite Z.shiftl_spec by lia. rewrite Z.testbit_ones by lia.
    destruct (Z.leb_spec 0 (k - 14)), (Z.ltb_spec (k - 14) 2),
      (Z.leb_spec 14 k), (Z.ltb_spec k 16); try lia; reflexivity.
Qed.

Lemma bits_16383 k : 0 <= k -> Z.testbit 16383 k = (k <? 14).
Proof. intros Hk. change 16383 with (Z.ones 14). apply Z.testbit_ones_nonneg; lia. Qed.

Lemma bits_3 k : Z.testbit 3 k = (0 <=? k) && (k <? 2).
Proof. change 3 with (Z.ones 2). apply Z.testbit_ones. lia. Qed.

Lemma testbit_high x n : 0 <= x < 65536 -> 16 <= n -> Z.testbit x n = false.
Proof.
  intros Hx Hn. rewrite <- (Z.mod_small x 65536) by lia.
  change 65536 with (2 ^ 16). apply Z.mod_pow2_bits_high. lia.
Qed.

Lemma word_of_bits a :
  0 <= a -> (forall n, 16 <= n -> Z.testbit a n = false) -> a < 65536.
Proof.
  intros Ha Hhigh.
  assert (E : a mod 2 ^ 16 = a).
  { apply Z.bits_inj'. intros n Hn. rewrite Z.testbit_mod_pow2 by lia.
    destruct (Z.ltb_spec n 16); [reflexivity|]. now rewrite Hhigh. }
  rewrite <- E. apply Z.mod_pos_bound. reflexivity.
Qed.

(** [twist] rotates a 16-bit word left by two bits, [untwist] right. *)
Lemma twist_bits x n :
  0 <= n ->
  Z.testbit (twist x) n =
  if n <? 2 then Z.testbit x (n + 14) else if n <? 16 then Z.testbit x (n - 2) else false.
Proof.
  intros Hn. unfold twist, wrap16. change 65536 with (2 ^ 16).
  rewrite Z.lor_spec, Z.testbit_mod_pow2 by lia. rewrite Z.shiftl_spec by lia.
  rewrite Z.shiftr_spec by lia. rewrite Z.land_spec, bits_49152.
  destruct (Z.ltb_spec n 2), (Z.ltb_spec n 16), (Z.leb_spec 14 (n + 14)),
    (Z.ltb_spec (n + 14) 16); try lia; cbn [andb orb];
    rewrite ?andb_true_r, ?andb_false_r, ?orb_false_r;
    rewrite ?(Z.testbit_neg_r x (n - 2)) by lia; reflexivity.
Qed.

Lemma untwist_bits x n :
  0 <= n ->
  Z.testbit (untwist x) n =
  if n <? 14 then Z.testbit x (n + 2) else if n <? 16 then Z.testbit x (n - 14) else false.
Proof.
  intros Hn. unfold untwist, wrap16. change 65536 with (2 ^ 16).
  rewrite Z.lor_spec, Z.land_spec, Z.testbit_mod_pow2 by lia.
  rewrite Z.shiftr_spec by lia. rewrite bits_16383 by lia.
  rewrite Z.shiftl_spec by lia. rewrite Z.land_spec, bits_3.
  destruct (Z.ltb_spec n 14), (Z.ltb_spec n 16), (Z.leb_spec 0 (n - 14)),
    (Z.ltb_spec (n - 14) 2); try lia; cbn [andb orb];
    rewrite ?andb_true_r, ?andb_false_r, ?orb_false_r; reflexivity.
Qed.

Lemma twist_nonneg x : 0 <= x -> 0 <= twist x.
Proof.
  intros Hx. unfold twist. apply Z.lor_nonneg. split.
  - unfold wrap16. apply Z.mod_pos_bound. reflexivity.
  - apply Z.shiftr_nonneg. apply Z.land_nonneg. now left.
Qed.

Lemma twist_word_facts x :
  0 <= x < 65536 ->
  untwist (twist x) = x /\ twist (untwist x) = x /\ 0 <= twist x < 65536 /\
  (16384 <= x -> longnamep (twist x) = false).
Proof.
  intros Hx. split; [|split; [|split]].
  - apply Z.bits_inj'. intros n Hn. rewrite untwist_bits by lia.
    destruct (Z.ltb_spec n 14); [|destruct (Z.ltb_spec n 16)].
    + rewrite twist_bits by lia.
      destruct (Z.ltb_spec (n + 2) 2), (Z.ltb_spec (n + 2) 16); try lia.
      f_equal. lia.
    + rewrite twist_bits by lia.
      destruct (Z.ltb_spec (n - 14) 2); try lia. f_equal. lia.
    + symmetry. apply testbit_high; lia.
  - apply Z.bits_inj'. intros n Hn. rewrite twist_bits by lia.
    destruct (Z.ltb_spec n 2); [|destruct (Z.ltb_spec n 16)].
    + rewrite untwist_bits by lia.
      destruct (Z.ltb_spec (n + 14) 14), (Z.ltb_spec (n + 14) 16); try lia.
      f_equal. lia.
    + rewrite untwist_bits by lia.
      destruct (Z.ltb_spec (n - 2) 14); try lia. f_equal. lia.
    + symmetry. apply testbit_high; lia.
  - split; [apply twist_nonneg; lia|].
    apply word_of_bits; [apply twist_nonneg; lia|].
    intros n Hn. rewrite twist_bits by lia.
    destruct (Z.ltb_spec n 2), (Z.ltb_spec n 16); first [lia | reflexivity].
  - intros Hge. unfold longnamep. apply Z.eqb_neq. intros E.
    assert (B : forall k, 0 <= k < 2 -> Z.testbit x (k + 14) = false).
    { intros k Hk.
      assert (T : Z.testbit (Z.land (twist x) 3) k = false)
        by (rewrite E; apply Z.bits_0).
      rewrite Z.land_spec, bits_3, twist_bits in T by lia.
      destruct (Z.ltb_spec k 2), (Z.leb_spec 0 k); try lia.
      now rewrite andb_true_r in T. }
    assert (Hlt : x mod 2 ^ 14 = x).
    { apply Z.bits_inj'. intros n Hn. rewrite Z.testbit_mod_pow2 by lia.
      destruct (Z.ltb_spec n 14); [reflexivity|]. cbn [andb]. symmetry.
      destruct (Z.ltb_spec n 16).
      - replace n with ((n - 14) + 14) by lia. apply B. lia.
      - apply testbit_high; lia. }
    pose proof (Z.mod_pos_bound x (2 ^ 14) ltac:(reflexivity)) as Hb.
    rewrite Hlt in Hb. change (2 ^ 14) with 16384 in Hb. lia.
Qed.

(** X2. [twist] and [untwist] are inverse to each other on 16-bit words. *)
Theorem twist_untwist_inverse x :
  0 <= x < 65536 ->
  untwist (twist x) = x /\ twist (untwist x) = x /\ 0 <= twist x < 65536.
Proof.
  intros Hx. destruct (twist_word_facts x Hx) as (H1 & H2 & H3 & _). auto.
Qed.

(** X3. The name [sym] gives to a builtin decodes to its index with
    [builtin], is recognised by [builtinp], and is never taken for the
    address of a long name by [longnamep]. *)
Theorem builtin_sym_inverse x :
  0 <= x < ENDFUNCTIONS ->
  builtin (sym x) = x /\ builtinp (sym x) = true /\ longnamep (sym x) = false.
Proof.
  unfold ENDFUNCTIONS. intros Hx.
  assert (Hw : wrap16 (x + BUILTINS) = x + BUILTINS).
  { unfold wrap16, BUILTINS. apply Z.mod_small. lia. }
  assert (Hr : 0 <= x + BUILTINS < 65536) by (unfold BUILTINS; lia).
  destruct (twist_word_facts (x + BUILTINS) Hr) as (H1 & _ & _ & H4).
  unfold builtin, builtinp, sym. rewrite Hw, H1.
  split; [|split].
  - unfold wrap16, BUILTINS. replace (x + 64000 - 64000) with x by lia.
    apply Z.mod_small. lia.
  - apply Z.leb_le. lia.
  - apply H4. unfold BUILTINS. lia.
Qed.

(** *** Radix-40 characters *)

Lemma radix40_byte_facts c :
  0 <= c < 256 ->
  -1 <= toradix40 c <= 39 /\
  (toradix40 c = 0 -> c = 0) /\
  (1 <= toradix40 c -> fromradix40 (toradix40 c) = tolower c /\ tolower c <> 0).
Proof.
  intros Hc.
  pose proof (byte_forall
    (fun c => (-1 <=? toradix40 c) && (toradix40 c <=? 39)
              && implb (toradix40 c =? 0) (c =? 0)
              && implb (1 <=? toradix40 c)
                   ((fromradix40 (toradix40 c) =? tolower c) && negb (tolower c =? 0)))
    eq_refl c Hc) as H.
  cbv beta in H. rewrite !andb_true_iff in H. destruct H as (((H1 & H2) & H3) & H4).
  apply Z.leb_le in H1, H2. split; [lia|]. split.
  - intros E. rewrite E in H3. cbn in H3. now apply Z.eqb_eq.
  - intros Hge. apply Z.leb_le in Hge. rewrite Hge in H4. cbn [implb] in H4.
    apply andb_true_iff in H4. destruct H4 as (H4 & H5).
    apply Z.eqb_eq in H4. apply negb_true_iff, Z.eqb_neq in H5. auto.
Qed.

(** X4. The 39 characters of a packed name and the codes 1 to 39 correspond:
    decoding the code of a character gives the character in lower case, and
    encoding the character of a code gives the code back; every other byte
    but the terminator is invalid. *)
Theorem radix40_characters :
  (forall c, 0 <= c < 256 -> 1 <= toradix40 c ->
     toradix40 c <= 39 /\ fromradix40 (toradix40 c) = tolower c) /\
  (forall n, 1 <= n <= 39 -> toradix40 (fromradix40 n) = n) /\
  (forall c, 0 <= c < 256 -> toradix40 c = 0 <-> c = 0).
Proof.
  split; [|split].
  - intros c Hc Hge. destruct (radix40_byte_facts c Hc) as (H1 & _ & H3).
    split; [lia|]. apply H3. exact Hge.
  - intros n Hn.
    assert (H : forallb (fun n => toradix40 (fromradix40 n) =? n) (zrange 39 1) = true)
      by reflexivity.
    rewrite forallb_forall in H. apply Z.eqb_eq. apply H. apply in_zrange. lia.
  - intros c Hc. destruct (radix40_byte_facts c Hc) as (_ & H2 & _).
    split; [exact H2|]. intros ->. reflexivity.
Qed.

(** *** Packed names *)

Lemma cstr_nonzero buffer : Forall (fun c => c <> 0) (cstr buffer).
Proof.
  induction buffer as [|c rest IH]; simpl; [constructor|].
  destruct (Z.eqb_spec c 0); constructor; auto.
Qed.

Lemma cstr_bytes buffer :
  Forall (fun c => 0 <= c < 256) buffer -> Forall (fun c => 0 <= c < 256) (cstr buffer).
Proof.
  induction 1 as [|c rest Hc Hrest IH]; simpl; [constructor|].
  destruct (c =? 0); constructor; auto.
Qed.

(** The value of the three digits [t0 t1 t2] printed by [pradix40]. *)
Lemma pradix40_loop_digits t0 t1 t2 :
  1 <= t0 <= 39 -> 0 <= t1 <= 39 -> 0 <= t2 <= 39 -> (t1 = 0 -> t2 = 0) ->
  pradix40_loop [1600; 40; 1] (t0 * 1600 + t1 * 40 + t2) =
  fromradix40 t0 ::
    (if t1 =? 0 then [] else fromradix40 t1 :: (if t2 =? 0 then [] else [fromradix40 t2])).
Proof.
  intros H0 H1 H2 Hz.
  assert (F : forall n, 1 <= n <= 39 -> (fromradix40 n =? 0) = false).
  { intros n Hn.
    assert (H : forallb (fun n => negb (fromradix40 n =? 0)) (zrange 39 1) = true)
      by reflexivity.
    rewrite forallb_forall in H. apply negb_true_iff. apply H. apply in_zrange. lia. }
  cbn [pradix40_loop].
  assert (E0 : (t0 * 1600 + t1 * 40 + t2) / 1600 = t0).
  { symmetry. apply Z.div_unique with (t1 * 40 + t2); lia. }
  rewrite E0, (F t0 H0).
  replace (wrap16 (t0 * 1600 + t1 * 40 + t2 - t0 * 1600)) with (t1 * 40 + t2)
    by (unfold wrap16; rewrite Z.mod_small; lia).
  assert (E1 : (t1 * 40 + t2) / 40 = t1).
  { symmetry. apply Z.div_unique with t2; lia. }
  rewrite E1.
  destruct (Z.eqb_spec t1 0) as [->|Hn1].
  - reflexivity.
  - rewrite (F t1) by lia.
    replace (wrap16 (t1 * 40 + t2 - t1 * 40)) with t2
      by (unfold wrap16; rewrite Z.mod_small; lia).
    rewrite Z.div_1_r.
    destruct (Z.eqb_spec t2 0) as [->|Hn2].
    + reflexivity.
    + rewrite (F t2) by lia. reflexivity.
Qed.

Lemma pack40_digits buffer :
  Forall (fun c => 0 <= c < 256) buffer ->
  valid40 buffer = true -> (length (cstr buffer) <= 3)%nat ->
  exists t0 t1 t2,
    1 <= t0 /\ 11 <= t0 <= 39 /\ 0 <= t1 <= 39 /\ 0 <= t2 <= 39 /\ (t1 = 0 -> t2 = 0) /\
    pack40 buffer = t0 * 1600 + t1 * 40 + t2 /\
    map tolower (cstr buffer) =
    fromradix40 t0 ::
      (if t1 =? 0 then [] else fromradix40 t1 :: (if t2 =? 0 then [] else [fromradix40 t2])).
Proof.
  intros Hb Hv Hlen.
  pose proof (cstr_nonzero buffer) as Hnz.
  pose proof (cstr_bytes buffer Hb) as Hby.
  unfold valid40, pack40 in *.
  destruct (cstr buffer) as [|c0 [|c1 [|c2 [|c3 rest]]]]; cbn [length] in Hlen; try lia.
  - cbn in Hv. discriminate.
  - cbn [nth] in *.
    inversion Hnz as [|? ? N0 _]; subst. inversion Hby as [|? ? B0 _]; subst.
    destruct (radix40_byte_facts c0 B0) as (R1 & R2 & R3).
    destruct (Z.ltb_spec (toradix40 c0) 11) as [|G0]; [discriminate|].
    destruct (R3 ltac:(lia)) as (D0 & _).
    exists (toradix40 c0), 0, 0. repeat (split; [lia|]). split.
    + cbn beta iota zeta. cbn [fst snd nth Z.eqb].
      destruct (Z.eqb_spec c0 0); [contradiction|]. cbn [fst snd nth Z.eqb].
      change (toradix40 0) with 0. unfold wrap16. rewrite Z.mod_small; lia.
    + cbn [map Z.eqb]. now rewrite D0.
  - cbn [nth] in *.
    inversion Hnz as [|? ? N0 Hnz']; subst. inversion Hnz' as [|? ? N1 _]; subst.
    inversion Hby as [|? ? B0 Hby']; subst. inversion Hby' as [|? ? B1 _]; subst.
    destruct (radix40_byte_facts c0 B0) as (R1 & R2 & R3).
    destruct (radix40_byte_facts c1 B1) as (S1 & S2 & S3).
    destruct (Z.ltb_spec (toradix40 c0) 11) as [|G0]; [discriminate|].
    destruct (Z.eqb_spec c0 0); [contradiction|].
    destruct (Z.ltb_spec (toradix40 c1) 0) as [|G1]; [discriminate|].
    assert (G1' : 1 <= toradix40 c1).
    { destruct (Z.eq_dec (toradix40 c1) 0) as [E|]; [apply S2 in E; contradiction|lia]. }
    destruct (R3 ltac:(lia)) as (D0 & _). destruct (S3 G1') as (D1 & _).
    exists (toradix40 c0), (toradix40 c1), 0. repeat (split; [lia|]). split.
    + cbn beta iota zeta. cbn [fst snd nth Z.eqb].
      destruct (Z.eqb_spec c1 0); [contradiction|]. cbn [fst snd nth Z.eqb].
      change (toradix40 0) with 0. unfold wrap16. rewrite Z.mod_small; lia.
    + cbn [map Z.eqb]. rewrite D0, D1.
      destruct (Z.eqb_spec (toradix40 c1) 0); [lia|]. reflexivity.
  - cbn [nth] in *.
    inversion Hnz as [|? ? N0 Hnz']; subst. inversion Hnz' as [|? ? N1 Hnz'']; subst.
    inversion Hnz'' as [|? ? N2 _]; subst.
    inversion Hby as [|? ? B0 Hby']; subst. inversion Hby' as [|? ? B1 Hby'']; subst.
    inversion Hby'' as [|? ? B2 _]; subst.
    destruct (radix40_byte_facts c0 B0) as (R1 & R2 & R3).
    destruct (radix40_byte_facts c1 B1) as (S1 & S2 & S3).
    destruct (radix40_byte_facts c2 B2) as (T1 & T2 & T3).
    destruct (Z.ltb_spec (toradix40 c0) 11) as [|G0]; [discriminate|].
    destruct (Z.eqb_spec c0 0); [contradiction|].
    destruct (Z.ltb_spec (toradix40 c1) 0) as [|G1]; [discriminate|].
    destruct (Z.eqb_spec c1 0); [contradiction|].
    destruct (Z.ltb_spec (toradix40 c2) 0) as [|G2]; [discriminate|].
    assert (G1' : 1 <= toradix40 c1).
    { destruct (Z.eq_dec (toradix40 c1) 0) as [E|]; [apply S2 in E; contradiction|lia]. }
    assert (G2' : 1 <= toradix40 c2).
    { destruct (Z.eq_dec (toradix40 c2) 0) as [E|]; [apply T2 in E; contradiction|lia]. }
    destruct (R3 ltac:(lia)) as (D0 & _). destruct (S3 G1') as (D1 & _).
    destruct (T3 G2') as (D2 & _).
    exists (toradix40 c0), (toradix40 c1), (toradix40 c2). repeat (split; [lia|]). split.
    + cbn beta iota zeta. cbn [fst snd nth Z.eqb].
      destruct (Z.eqb_spec c2 0); [contradiction|]. cbn [fst snd nth Z.eqb].
      unfold wrap16. rewrite Z.mod_small; lia.
    + cbn [map Z.eqb]. rewrite D0, D1, D2.
      destruct (Z.eqb_spec (toradix40 c1) 0); [lia|].
      destruct (Z.eqb_spec (toradix40 c2) 0); [lia|]. reflexivity.
Qed.

(** X5. A name of up to three characters that [valid40] accepts packs to a
    value from [PACKEDS] up to below [BUILTINS]; its twisted form is neither a
    builtin nor the address of a long name, and [psymbol] prints the name
    back, in lower case, whatever the state. *)
Theorem packed_name_round_trip buffer fuel m :
  Forall (fun c => 0 <= c < 256) buffer ->
  valid40 buffer = true -> (length (cstr buffer) <= 3)%nat ->
  PACKEDS <= pack40 buffer < BUILTINS /\
  builtinp (twist (pack40 buffer)) = false /\
  longnamep (twist (pack40 buffer)) = false /\
  psymbol fuel (twist (pack40 buffer)) m = Done (map tolower (cstr buffer)) m.
Proof.
  intros Hb Hv Hlen.
  destruct (pack40_digits buffer Hb Hv Hlen)
    as (t0 & t1 & t2 & H0 & H0' & H1 & H2 & Hz & Ep & Em).
  assert (Hr : PACKEDS <= pack40 buffer < BUILTINS) by (unfold PACKEDS, BUILTINS; lia).
  assert (Hw : 0 <= pack40 buffer < 65536) by (unfold PACKEDS, BUILTINS in Hr; lia).
  destruct (twist_word_facts _ Hw) as (U1 & _ & _ & U4).
  assert (Hl : longnamep (twist (pack40 buffer)) = false)
    by (apply U4; unfold PACKEDS in Hr; lia).
  split; [exact Hr|]. split; [|split; [exact Hl|]].
  - unfold builtinp. rewrite U1. apply Z.leb_gt. lia.
  - unfold psymbol. rewrite Hl, U1.
    destruct (Z.ltb_spec (pack40 buffer) PACKEDS); [lia|].
    destruct (Z.leb_spec BUILTINS (pack40 buffer)); [lia|].
    unfold pradix40. rewrite U1, Ep, Em. f_equal.
    apply pradix40_loop_digits; lia.
Qed.

(** *** Flags *)

Lemma flag_byte_facts f x y :
  0 <= f < 256 -> 0 <= x < 8 -> 0 <= y < 8 ->
  negb (Z.land (Z.lor f (Z.shiftl 1 x)) (Z.shiftl 1 x) =? 0) = true /\
  negb (Z.land (Z.land f (255 - Z.shiftl 1 x)) (Z.shiftl 1 x) =? 0) = false /\
  0 <= Z.lor f (Z.shiftl 1 x) < 256 /\
  0 <= Z.land f (255 - Z.shiftl 1 x) < 256 /\
  (y <> x ->
   Z.land (Z.lor f (Z.shiftl 1 x)) (Z.shiftl 1 y) = Z.land f (Z.shiftl 1 y) /\
   Z.land (Z.land f (255 - Z.shiftl 1 x)) (Z.shiftl 1 y) = Z.land f (Z.shiftl 1 y)).
Proof.
  intros Hf Hx Hy.
  set (P := fun f =>
    forallb (fun x =>
      negb (Z.land (Z.lor f (Z.shiftl 1 x)) (Z.shiftl 1 x) =? 0)
      && (Z.land (Z.land f (255 - Z.shiftl 1 x)) (Z.shiftl 1 x) =? 0)
      && (0 <=? Z.lor f (Z.shiftl 1 x)) && (Z.lor f (Z.shiftl 1 x) <? 256)
      && (0 <=? Z.land f (255 - Z.shiftl 1 x)) && (Z.land f (255 - Z.shiftl 1 x) <? 256)
      && forallb (fun y =>
           (y =? x)
           || ((Z.land (Z.lor f (Z.shiftl 1 x)) (Z.shiftl 1 y) =? Z.land f (Z.shiftl 1 y))
               && (Z.land (Z.land f (255 - Z.shiftl 1 x)) (Z.shiftl 1 y)
                   =? Z.land f (Z.shiftl 1 y))))
           (zrange 8 0))
      (zrange 8 0)).
  pose proof (byte_forall P ltac:(vm_compute; reflexivity) f Hf) as H.
  unfold P in H. rewrite forallb_forall in H.
  specialize (H x (in_zrange 8 0 x ltac:(lia))). cbv beta in H.
  rewrite !andb_true_iff in H.
  destruct H as ((((((H1 & H2) & H3) & H4) & H5) & H6) & H7).
  rewrite forallb_forall in H7. specialize (H7 y (in_zrange 8 0 y ltac:(lia))).
  cbv beta in H7.
  apply Z.leb_le in H3, H5. apply Z.ltb_lt in H4, H6.
  split; [exact H1|]. split; [now rewrite H2|].
  split; [lia|]. split; [lia|].
  intros Hne. apply orb_true_iff in H7. destruct H7 as [E|E].
  - apply Z.eqb_eq in E. contradiction.
  - apply andb_true_iff in E. destruct E as (E1 & E2).
    apply Z.eqb_eq in E1, E2. auto.
Qed.

(** X6. [setflag], [clrflag] and [tstflag] on the eight flags: a flag reads
    as set after [setflag] and as clear after [clrflag], no other flag is
    changed by either, and [Flags] stays a byte. *)
Theorem flags_set_clear_test m x :
  0 <= Flags m < 256 -> 0 <= x < 8 ->
  tstflag x (setflag x m) = true /\
  tstflag x (clrflag x m) = false /\
  0 <= Flags (setflag x m) < 256 /\
  0 <= Flags (clrflag x m) < 256 /\
  (forall y, 0 <= y < 8 -> y <> x ->
     tstflag y (setflag x m) = tstflag y m /\
     tstflag y (clrflag x m) = tstflag y m).
Proof.
  intros Hf Hx.
  destruct (flag_byte_facts (Flags m) x x Hf Hx Hx) as (H1 & H2 & H3 & H4 & _).
  unfold tstflag, setflag, clrflag.
  destruct m as [ws fs fl cx ge gs lc flags te tf td src si sl].
  cbn [Flags with_Flags] in *.
  split; [exact H1|]. split; [exact H2|]. split; [exact H3|]. split; [exact H4|].
  intros y Hy Hne.
  destruct (flag_byte_facts flags x y Hf Hx Hy) as (_ & _ & _ & _ & H5).
  destruct (H5 Hne) as (E1 & E2). now rewrite E1, E2.
Qed.

(** ** Making objects; the allocator *)

Lemma freelist_inv_bounds m :
  freelist_inv m -> 0 <= Freespace m <= WORKSPACESIZE.
Proof.
  intros (_ & l & Hc & Hf). pose proof (freechain_length _ _ _ Hc) as Hlen.
  rewrite Hf. unfold WORKSPACESIZE in *. lia.
Qed.

Lemma list_update_same {A : Type} (l : list A) i d :
  list_update l i (nth i l d) = l.
Proof.
  revert i. induction l as [|h t IH]; intros [|i]; simpl; auto.
  now rewrite IH.
Qed.

Lemma setobj_same ws p : setobj ws p (getobj ws p) = ws.
Proof.
  unfold setobj, getobj. destruct (validb p); [|reflexivity].
  apply list_update_same.
Qed.

(** X7. [cons] with a free cell at hand: the cell at the head of the free
    list is returned holding the two arguments, no other cell and no other
    global is written, and the counter drops by one.  With no free cell it
    leaves through the error handler with "no room", the arena untouched. *)
Theorem cons_allocates m a d :
  freelist_inv m ->
  (Freespace m <> 0 ->
   exists m',
     cons a d m = Done (Freelist m) m' /\
     valid (Freelist m) /\
     getobj (Workspace m') (Freelist m) = mkobj a d /\
     (forall q, q <> Freelist m -> getobj (Workspace m') q = getobj (Workspace m) q) /\
     freelist_inv m' /\ Freespace m' = Freespace m - 1 /\ same_registers m m') /\
  (Freespace m = 0 ->
   cons a d m = Error "no room"%string (with_GCStack NULL (with_Context NIL m))).
Proof.
  intros Hinv. split.
  - intros Hfs.
    destruct (cons_spec m a d Hinv Hfs) as (m' & E & H1 & H2 & H3 & H4 & H5 & H6 & _).
    exists m'. repeat (split; [assumption|]). assumption.
  - intros Hz. unfold cons, bind. rewrite myalloc_spec, Hz. reflexivity.
Qed.

(** X8. [myalloc] and [myfree] undo each other.  Freeing the cell that was
    just handed out gives back the machine as it was, when that cell had a
    NULL [car] (as every cell freed by [myfree], [initworkspace] or [sweep]
    has); and after [myfree (p)] the next [myalloc] returns [p] and puts the
    list head and the counter back. *)
Theorem myalloc_myfree_inverse m :
  freelist_inv m ->
  (Freespace m <> 0 -> car (getobj (Workspace m) (Freelist m)) = NULL ->
   exists m', myalloc m = Done (Freelist m) m' /\ myfree (Freelist m) m' = m) /\
  (forall p, valid p -> Freespace m < 65535 ->
   exists m', myalloc (myfree p m) = Done p m' /\
              Freelist m' = Freelist m /\ Freespace m' = Freespace m /\
              getobj (Workspace m') p = mkobj NULL (Freelist m) /\
              (forall q, q <> p -> getobj (Workspace m') q = getobj (Workspace m) q)).
Proof.
  intros Hinv. pose proof (freelist_inv_bounds m Hinv) as Hb.
  unfold WORKSPACESIZE in Hb. split.
  - intros Hfs Hcar. rewrite myalloc_spec.
    destruct (Z.eqb_spec (Freespace m) 0); [contradiction|].
    eexists. split; [reflexivity|].
    unfold myfree.
    cbn [Workspace Freespace Freelist with_Freespace with_Freelist with_Workspace].
    assert (Ews : set_cdr (set_car (Workspace m) (Freelist m) NULL) (Freelist m)
                    (cdr (getobj (Workspace m) (Freelist m))) = Workspace m).
    { assert (E1 : set_car (Workspace m) (Freelist m) NULL = Workspace m).
      { unfold set_car. rewrite <- Hcar, object_eta. apply setobj_same. }
      rewrite E1. unfold set_cdr. rewrite object_eta. apply setobj_same. }
    rewrite Ews.
    replace (wrap16 (wrap16 (Freespace m - 1) + 1)) with (Freespace m).
    + destruct m; reflexivity.
    + unfold wrap16. rewrite (Z.mod_small (Freespace m - 1)) by lia.
      rewrite Z.mod_small; lia.
  - intros p Hv Hlt. rewrite myalloc_spec. unfold myfree.
    cbn [Workspace Freespace Freelist with_Freespace with_Freelist with_Workspace].
    destruct Hinv as (Hl & _).
    assert (Hw : wrap16 (Freespace m + 1) = Freespace m + 1)
      by (unfold wrap16; apply Z.mod_small; lia).
    rewrite Hw. destruct (Z.eqb_spec (Freespace m + 1) 0); [lia|].
    eexists. split; [reflexivity|].
    cbn [Workspace Freespace Freelist with_Freespace with_Freelist with_Workspace].
    rewrite getobj_free_cell by auto. cbn [cdr].
    split; [reflexivity|]. split.
    { replace (Freespace m + 1 - 1) with (Freespace m) by lia.
      unfold wrap16. apply Z.mod_small. lia. }
    split; [reflexivity|].
    intros q Hq. apply getobj_free_cell_ne. congruence.
Qed.

(** X9. [protect] then [unprotect]: the protected object is on top of
    [GCStack] in between, and afterwards [GCStack] is what it was; the pair
    costs one cell, the old head of the free list, and writes no other. *)
Theorem protect_unprotect m y :
  freelist_inv m -> Freespace m <> 0 ->
  exists m1 m2,
    protect y m = Done tt m1 /\ unprotect m1 = Done tt m2 /\
    GCStack m1 = Freelist m /\
    getobj (Workspace m1) (GCStack m1) = mkobj y (GCStack m) /\
    GCStack m2 = GCStack m /\ Workspace m2 = Workspace m1 /\
    (forall q, q <> Freelist m -> getobj (Workspace m2) q = getobj (Workspace m) q).
Proof.
  intros Hinv Hfs.
  destruct (cons_spec m y (GCStack m) Hinv Hfs) as (m' & E & H1 & H2 & H3 & H4 & H5 & H6 & _).
  unfold protect, bind at 1. unfold get_machine at 1. unfold bind at 1. rewrite E.
  unfold modify, unprotect. eexists. eexists.
  split; [reflexivity|]. split; [reflexivity|].
  cbn [GCStack Workspace with_GCStack].
  split; [reflexivity|]. rewrite H2. split; [reflexivity|].
  cbn [cdr]. split; [reflexivity|]. split; [reflexivity|]. exact H3.
Qed.

(** ** The symbol table: intern *)

Lemma scan_workspace_found f ws : forall i k,
  scan_workspace f ws i = Some k ->
  (i <= k < i + length ws)%nat /\ f (nth (k - i) ws (mkobj 0 0)) = true /\
  (forall j, (j < k - i)%nat -> f (nth j ws (mkobj 0 0)) = false).
Proof.
  induction ws as [|o rest IH]; intros i k; simpl; [discriminate|].
  destruct (f o) eqn:Ef.
  - intros [= <-]. rewrite Nat.sub_diag. split; [lia|]. split; [exact Ef|]. intros j Hj; lia.
  - intros H. apply IH in H. destruct H as (Hr & Hk & Hbefore).
    split; [lia|].
    replace (k - i)%nat with (S (k - S i)) by lia. split; [exact Hk|].
    intros [|j] Hj; [exact Ef|]. apply Hbefore. lia.
Qed.

Lemma scan_workspace_none f ws : forall i,
  scan_workspace f ws i = None ->
  forall j, (j < length ws)%nat -> f (nth j ws (mkobj 0 0)) = false.
Proof.
  induction ws as [|o rest IH]; intros i; simpl; [intros _ j Hj; lia|].
  destruct (f o) eqn:Ef; [discriminate|].
  intros H [|j] Hj; [exact Ef|]. apply (IH _ H). lia.
Qed.

Lemma scan_workspace_first f ws : forall i j,
  (j < length ws)%nat -> f (nth j ws (mkobj 0 0)) = true ->
  (forall j', (j' < j)%nat -> f (nth j' ws (mkobj 0 0)) = false) ->
  scan_workspace f ws i = Some (i + j)%nat.
Proof.
  induction ws as [|o rest IH]; intros i j Hj Hf Hbefore; simpl in *; [lia|].
  destruct j as [|j].
  - rewrite Hf. f_equal. lia.
  - rewrite (Hbefore O) by lia.
    rewrite (IH (S i) j); [f_equal; lia|lia|exact Hf|].
    intros j' Hj'. apply (Hbefore (S j')). lia.
Qed.

Lemma symbol_spec m name :
  freelist_inv m -> Freespace m <> 0 ->
  exists m',
    symbol name m = Done (Freelist m) m' /\
    valid (Freelist m) /\
    getobj (Workspace m') (Freelist m) = mkobj SYMBOL name /\
    (forall q, q <> Freelist m -> getobj (Workspace m') q = getobj (Workspace m) q) /\
    freelist_inv m' /\
    Freespace m' = Freespace m - 1 /\
    same_registers m m'.
Proof. intros Hinv Hfs. exact (make_cell_spec m SYMBOL name Hinv Hfs). Qed.

(** X10. [intern] gives the symbol of a name: it returns a cell that holds
    the symbol, allocating one (the head of the free list) only if no cell of
    the arena holds that symbol yet, and a second [intern] of the same name
    returns the same cell without changing anything, so that two symbols of
    one name are a single object. *)
Theorem intern_unique m name :
  freelist_inv m -> Freespace m <> 0 ->
  exists p m',
    intern name m = Done p m' /\
    valid p /\ getobj (Workspace m') p = mkobj SYMBOL name /\
    intern name m' = Done p m' /\
    (forall q, q <> Freelist m -> getobj (Workspace m') q = getobj (Workspace m) q) /\
    ((exists q, valid q /\ getobj (Workspace m) q = mkobj SYMBOL name) -> m' = m).
Proof.
  intros Hinv Hfs. pose proof Hinv as (Hl & _).
  set (f := fun o => (car o =? SYMBOL) && (cdr o =? name)).
  assert (Hf : forall o, f o = true <-> o = mkobj SYMBOL name).
  { intros [a d]. unfold f. cbn [car cdr]. rewrite andb_true_iff, !Z.eqb_eq.
    split; [intros (-> & ->); reflexivity | intros [= -> ->]; auto]. }
  unfold intern. fold f.
  destruct (scan_workspace f (Workspace m) 0) as [k|] eqn:Es.
  - pose proof Es as Es0.
    apply scan_workspace_found in Es. destruct Es as (Hk & Hfk & _).
    rewrite Nat.sub_0_r in Hfk. rewrite Hl in Hk.
    assert (Hk' : (k < Z.to_nat WORKSPACESIZE)%nat) by lia.
    exists (cell_addr k), m.
    split; [reflexivity|]. split; [now apply valid_cell_addr|].
    split; [rewrite getobj_nth by exact Hk'; now apply Hf|].
    split; [now rewrite Es0|]. split; auto.
  - destruct (symbol_spec m name Hinv Hfs) as (m' & E & Hv & Hg & Ho & Hinv' & _).
    exists (Freelist m), m'.
    split; [exact E|]. split; [exact Hv|]. split; [exact Hg|].
    split; [|split; [exact Ho|]].
    + destruct (valid_index _ Hv) as (Hi & Ea).
      destruct Hinv' as (Hl' & _).
      rewrite (scan_workspace_first f (Workspace m') 0 (cell_index (Freelist m))).
      * cbn [Nat.add]. now rewrite Ea.
      * now rewrite Hl'.
      * rewrite <- getobj_nth by exact Hi. rewrite Ea, Hg. now apply Hf.
      * intros j Hj.
        assert (Hj' : (j < Z.to_nat WORKSPACESIZE)%nat) by lia.
        rewrite <- getobj_nth by exact Hj'. rewrite Ho.
        -- rewrite getobj_nth by exact Hj'.
           apply (scan_workspace_none f (Workspace m) 0 Es). now rewrite Hl.
        -- intros E'. rewrite <- Ea in E'. apply cell_addr_inj in E'. lia.
    + intros (q & Hq & Hgq). exfalso.
      destruct (valid_index _ Hq) as (Hi & Ea).
      pose proof (scan_workspace_none f (Workspace m) 0 Es (cell_index q)) as Hn.
      rewrite Hl in Hn. specialize (Hn Hi).
      rewrite <- getobj_nth in Hn by exact Hi. rewrite Ea, Hgq in Hn.
      assert (Ht : f (mkobj SYMBOL name) = true) by now apply Hf.
      congruence.
Qed.

(** ** The lookup table *)

Lemma list_eqb_eq a : forall b, list_eqb a b = true <-> a = b.
Proof.
  induction a as [|x a IH]; intros [|y b]; simpl; split; try discriminate; auto.
  - rewrite andb_true_iff, Z.eqb_eq, IH. intros (-> & ->). reflexivity.
  - intros [= -> ->]. rewrite Z.eqb_refl. cbn [andb]. now apply IH.
Qed.

Lemma keys_distinct_NoDup ks : keys_distinct ks = true -> NoDup ks.
Proof.
  induction ks as [|k rest IH]; simpl; [constructor|].
  rewrite andb_true_iff. intros (Hk & Hrest). constructor; auto.
  intros Hin. rewrite forallb_forall in Hk. specialize (Hk k Hin).
  apply negb_true_iff in Hk.
  assert (list_eqb k k = true) by now apply list_eqb_eq. congruence.
Qed.

Lemma strcaseeq_iff a : forall b,
  strcaseeq a b = true <-> map tolower a = map tolower b.
Proof.
  induction a as [|x a IH]; intros [|y b]; simpl; split; try discriminate; auto.
  - rewrite andb_true_iff, Z.eqb_eq, IH. intros (-> & ->). reflexivity.
  - intros [= E1 E2]. rewrite E1, Z.eqb_refl. cbn [andb]. now apply IH.
Qed.

Lemma strcaseeq_same_key a a' b :
  map tolower a = map tolower a' -> strcaseeq a b = strcaseeq a' b.
Proof.
  intros E. destruct (strcaseeq a b) eqn:E1; symmetry.
  - apply strcaseeq_iff. rewrite <- E. now apply strcaseeq_iff.
  - destruct (strcaseeq a' b) eqn:E2; [|reflexivity].
    apply strcaseeq_iff in E2. rewrite <- E in E2. apply strcaseeq_iff in E2. congruence.
Qed.

Lemma find_name_same_key a a' names : forall i,
  map tolower a = map tolower a' -> find_name a names i = find_name a' names i.
Proof.
  induction names as [|[s mm] rest IH]; intros i E; simpl; [reflexivity|].
  rewrite (strcaseeq_same_key a a' _ E). destruct (strcaseeq a' (codes s)); auto.
Qed.

Lemma find_name_app c l1 : forall l2 i,
  find_name c (l1 ++ l2) i =
  match find_name c l1 i with
  | Some k => Some k
  | None => find_name c l2 (i + Z.of_nat (length l1))
  end.
Proof.
  induction l1 as [|[s mm] rest IH]; intros l2 i; simpl.
  - now rewrite Z.add_0_r.
  - destruct (strcaseeq c (codes s)); [reflexivity|].
    rewrite IH. destruct (find_name c rest (i + 1)); [reflexivity|].
    f_equal. lia.
Qed.

Lemma find_name_range c names : forall i k,
  find_name c names i = Some k -> i <= k < i + Z.of_nat (length names).
Proof.
  induction names as [|[s mm] rest IH]; intros i k; simpl; [discriminate|].
  destruct (strcaseeq c (codes s)).
  - intros [= <-]. lia.
  - intros H. apply IH in H. lia.
Qed.

Lemma find_name_nth rows : forall i k,
  (k < length rows)%nat -> NoDup (map row_key rows) ->
  find_name (codes (fst (nth k rows (""%string, 0)))) rows i = Some (i + Z.of_nat k).
Proof.
  induction rows as [|[s mm] rest IH]; intros i k Hk Hnd; simpl in Hk; [lia|].
  inversion Hnd as [|? ? Hnot Hnd']; subst.
  destruct k as [|k]; cbn [nth find_name fst].
  - assert (E : strcaseeq (codes s) (codes s) = true) by now apply strcaseeq_iff.
    rewrite E. f_equal. lia.
  - destruct (strcaseeq (codes (fst (nth k rest (""%string, 0)))) (codes s)) eqn:E.
    + exfalso. apply Hnot. apply strcaseeq_iff in E.
      replace (row_key (s, mm)) with (row_key (nth k rest (""%string, 0)))
        by (unfold row_key; cbn [fst]; exact E).
      apply in_map. apply nth_In. lia.
    + rewrite IH by (auto; lia). f_equal. lia.
Qed.

Lemma lookupbuiltin_all_rows c :
  lookupbuiltin c =
  match find_name (cstr c) all_rows 0 with
  | Some i => i
  | None => ENDFUNCTIONS
  end.
Proof.
  unfold lookupbuiltin, all_rows. rewrite find_name_app.
  destruct (find_name (cstr c) lookup_table 0); reflexivity.
Qed.

Lemma table_entry_all_rows i :
  0 <= i < Z.of_nat (length all_rows) ->
  table_entry i = nth (Z.to_nat i) all_rows (""%string, 0).
Proof.
  intros Hi. unfold table_entry, all_rows, tablesize0 in *.
  rewrite length_app in Hi.
  destruct (Z.ltb_spec i (Z.of_nat (length lookup_table))).
  - rewrite app_nth1 by lia. reflexivity.
  - rewrite app_nth2 by lia. f_equal. lia.
Qed.

Lemma cstr_no_zero l : forallb (fun c => negb (c =? 0)) l = true -> cstr l = l.
Proof.
  induction l as [|c rest IH]; simpl; [reflexivity|].
  rewrite andb_true_iff, negb_true_iff. intros (-> & H). now rewrite IH.
Qed.

Lemma all_rows_checked :
  keys_distinct (map row_key all_rows) = true /\
  forallb (fun r => forallb (fun c => negb (c =? 0)) (codes (fst r))) all_rows = true /\
  length all_rows = 256%nat.
Proof. split; [|split]; vm_compute; reflexivity. Qed.

(** X11. Every row of the lookup tables is found under its own name: for
    each of the 256 builtins, [lookupbuiltin] applied to the name [pbuiltin]
    prints returns the index of that builtin, so no name is hidden by an
    earlier row; and whatever it is given, [lookupbuiltin] returns the index
    of a row or [ENDFUNCTIONS]. *)
Theorem lookupbuiltin_finds_every_row :
  (forall i, 0 <= i < 256 -> lookupbuiltin (pbuiltin i) = i) /\
  (forall c, lookupbuiltin c = ENDFUNCTIONS \/ 0 <= lookupbuiltin c < 256).
Proof.
  destruct all_rows_checked as (Hk & Hz & Hlen). split.
  - intros i Hi. rewrite lookupbuiltin_all_rows. unfold pbuiltin.
    rewrite table_entry_all_rows by (rewrite Hlen; lia).
    rewrite forallb_forall in Hz.
    rewrite cstr_no_zero by (apply Hz; apply nth_In; rewrite Hlen; lia).
    rewrite find_name_nth.
    + lia.
    + rewrite Hlen. lia.
    + apply keys_distinct_NoDup. exact Hk.
  - intros c. rewrite lookupbuiltin_all_rows.
    destruct (find_name (cstr c) all_rows 0) as [k|] eqn:E; [right|now left].
    apply find_name_range in E. rewrite Hlen in E. lia.
Qed.

(** X12. [lookupbuiltin] ignores the case of letters: two names that are
    the same once their letters are put in lower case find the same row. *)
Theorem lookupbuiltin_ignores_case a a' :
  map tolower (cstr a) = map tolower (cstr a') ->
  lookupbuiltin a = lookupbuiltin a'.
Proof.
  intros E. rewrite !lookupbuiltin_all_rows.
  now rewrite (find_name_same_key (cstr a) (cstr a') all_rows 0 E).
Qed.

(** ** Printing and reading numbers *)

(** The character [pintbase] prints for a digit is read back as that digit
    by [digitvalue]. *)
Lemma digit_char_value j :
  0 <= j < 16 ->
  0 <= (if j <? 10 then j + 48 else j + 87) mod 256 < 256 /\
  digitvalue ((if j <? 10 then j + 48 else j + 87) mod 256) = j.
Proof.
  intros Hj.
  assert (H : forallb (fun j =>
              (0 <=? (if j <? 10 then j + 48 else j + 87) mod 256)
              && ((if j <? 10 then j + 48 else j + 87) mod 256 <? 256)
              && (digitvalue ((if j <? 10 then j + 48 else j + 87) mod 256) =? j))
            (zrange 16 0) = true) by reflexivity.
  rewrite forallb_forall in H. specialize (H j (in_zrange 16 0 j ltac:(lia))).
  cbv beta in H. rewrite !andb_true_iff in H. destruct H as ((H1 & H2) & H3).
  apply Z.leb_le in H1. apply Z.ltb_lt in H2. apply Z.eqb_eq in H3. auto.
Qed.

Lemma digits_value_cons base c ds acc :
  digits_value base (c :: ds) acc = digits_value base ds (acc * base + digitvalue c).
Proof. reflexivity. Qed.

(** The loop of [pintbase] started at [d = base^k] on a value below
    [base^(k+1)]: it prints at most [k+1] digits, at least one, leading
    zeros left out, and the digits read in that base give the value back. *)
Lemma pintbase_loop_spec base : forall (k : nat) fuel i lead acc,
  2 <= base <= 16 -> base ^ Z.of_nat k <= 65536 ->
  0 <= i < base ^ (Z.of_nat k + 1) ->
  (k + 2 <= fuel)%nat -> (lead = false -> acc = 0) ->
  exists out,
    pintbase_loop fuel base (base ^ Z.of_nat k) i lead = Some out /\
    digits_value base out acc = acc * base ^ (Z.of_nat k + 1) + i /\
    Forall (digit_in base) out /\ out <> [] /\ (length out <= k + 1)%nat.
Proof.
  induction k as [|k IH]; intros fuel i lead acc Hb Hp Hi Hfuel Hlead.
  - change (Z.of_nat 0 + 1) with 1 in *. rewrite Z.pow_1_r in *.
    change (base ^ Z.of_nat 0) with 1.
    destruct fuel as [|[|fuel]]; try lia.
    cbn [pintbase_loop]. change (0 <? 1) with true. cbn [negb].
    rewrite Z.div_1_r. change (1 =? 1) with true.
    rewrite !orb_true_r.
    assert (E0 : 1 / base = 0) by (apply Z.div_small; lia).
    rewrite E0. change (0 <? 0) with false. cbn [negb app].
    destruct (digit_char_value i ltac:(lia)) as (Hc & Hv).
    eexists. split; [reflexivity|].
    split; [rewrite digits_value_cons, Hv; reflexivity|].
    split; [constructor; [split; [exact Hc|rewrite Hv; lia]|constructor]|].
    split; [discriminate|]. cbn [length]. lia.
  - set (d := base ^ Z.of_nat (S k)) in *.
    assert (Hd : d = base * base ^ Z.of_nat k).
    { unfold d. rewrite Nat2Z.inj_succ, Z.pow_succ_r by lia. reflexivity. }
    assert (Hdk : base ^ (Z.of_nat k + 1) = d).
    { unfold d. f_equal. lia. }
    assert (Hd1 : base ^ (Z.of_nat (S k) + 1) = base * d).
    { replace (Z.of_nat (S k) + 1) with (Z.succ (Z.of_nat (S k))) by lia.
      rewrite Z.pow_succ_r by lia. reflexivity. }
    rewrite Hd1 in *.
    assert (Hkpos : 0 < base ^ Z.of_nat k) by (apply Z.pow_pos_nonneg; lia).
    assert (Hdpos : 2 <= d) by nia.
    destruct fuel as [|fuel]; try lia.
    cbn [pintbase_loop].
    destruct (Z.ltb_spec 0 d); [|lia]. cbn [negb].
    assert (Hj : 0 <= i / d < base).
    { split; [apply Z.div_pos; lia|]. apply Z.div_lt_upper_bound; lia. }
    assert (Hm : wrap16 (i - i / d * d) = i mod d).
    { rewrite Z.mod_eq by lia. unfold wrap16.
      replace (i - i / d * d) with (i - d * (i / d)) by lia.
      pose proof (Z.mod_pos_bound i d ltac:(lia)) as Hmb.
      rewrite Z.mod_eq in Hmb by lia. apply Z.mod_small. lia. }
    rewrite Hm.
    assert (Hdb : d / base = base ^ Z.of_nat k).
    { rewrite Hd. rewrite Z.mul_comm. apply Z_div_mult. lia. }
    rewrite Hdb.
    destruct (Z.eqb_spec d 1) as [|_]; [lia|]. rewrite orb_false_r.
    pose proof (Z.mod_pos_bound i d ltac:(lia)) as Hmb.
    pose proof (Z.div_mod i d ltac:(lia)) as Hdm.
    destruct (negb (i / d =? 0) || lead) eqn:Eshown.
    + destruct (IH fuel (i mod d) (lead || true) (acc * base + i / d))
        as (rest & E & Hval & Hdig & Hne & Hlen); auto.
      { nia. }
      { rewrite Hdk. lia. }
      { lia. }
      { rewrite orb_true_r. discriminate. }
      rewrite E.
      destruct (digit_char_value (i / d) ltac:(lia)) as (Hc & Hv).
      eexists. split; [reflexivity|]. cbn [app].
      split.
      { rewrite digits_value_cons, Hv, Hval, Hdk. nia. }
      split; [constructor; [split; [exact Hc|rewrite Hv; lia]|exact Hdig]|].
      split; [discriminate|]. cbn [length]. lia.
    + apply orb_false_iff in Eshown. destruct Eshown as (Ej & El).
      apply negb_false_iff, Z.eqb_eq in Ej. subst lead.
      specialize (Hlead eq_refl). subst acc.
      destruct (IH fuel (i mod d) (false || false) 0)
        as (rest & E & Hval & Hdig & Hne & Hlen); auto.
      { nia. }
      { rewrite Hdk. lia. }
      { lia. }
      rewrite E. exists rest. cbn [app].
      split; [reflexivity|]. split.
      { rewrite Hval. rewrite Ej in Hdm. lia. }
      split; [exact Hdig|]. split; [exact Hne|]. lia.
Qed.

Lemma pintbase_spec i base :
  base = 2 \/ base = 10 \/ base = 16 -> 0 <= i < 65536 ->
  exists ds,
    pintbase i base = Some ds /\ ds <> [] /\ (length ds <= 16)%nat /\
    Forall (digit_in base) ds /\ digits_value base ds 0 = i.
Proof.
  intros Hb Hi. unfold pintbase.
  destruct Hb as [-> | [-> | ->]]; cbn [Z.eqb Pos.eqb].
  - assert (P : 2 ^ (Z.of_nat 15 + 1) = 65536) by reflexivity.
    destruct (pintbase_loop_spec 2 15 17 i false 0) as (ds & E & Hv & Hd & Hn & Hl);
      [lia | change (2 ^ Z.of_nat 15) with 32768; lia | rewrite P; lia | lia
       | reflexivity |].
    exists ds. change (2 ^ Z.of_nat 15) with 32768 in E.
    split; [exact E|]. split; [exact Hn|]. split; [lia|]. split; [exact Hd|].
    rewrite Hv. lia.
  - assert (P : 10 ^ (Z.of_nat 4 + 1) = 100000) by reflexivity.
    destruct (pintbase_loop_spec 10 4 17 i false 0) as (ds & E & Hv & Hd & Hn & Hl);
      [lia | change (10 ^ Z.of_nat 4) with 10000; lia | rewrite P; lia | lia
       | reflexivity |].
    exists ds. change (10 ^ Z.of_nat 4) with 10000 in E.
    split; [exact E|]. split; [exact Hn|]. split; [lia|]. split; [exact Hd|].
    rewrite Hv. lia.
  - assert (P : 16 ^ (Z.of_nat 3 + 1) = 65536) by reflexivity.
    destruct (pintbase_loop_spec 16 3 17 i false 0) as (ds & E & Hv & Hd & Hn & Hl);
      [lia | change (16 ^ Z.of_nat 3) with 4096; lia | rewrite P; lia | lia
       | reflexivity |].
    exists ds. change (16 ^ Z.of_nat 3) with 4096 in E.
    split; [exact E|]. split; [exact Hn|]. split; [lia|]. split; [exact Hd|].
    rewrite Hv. lia.
Qed.

(** X13. [pintbase] in base 2, 10 or 16 prints a 16-bit value as at least
    one digit of that base with no leading zeros kept, and the digits,
    accumulated the way the reader does, give the value back. *)
Theorem pintbase_digits_read_back i base :
  base = 2 \/ base = 10 \/ base = 16 -> 0 <= i < 65536 ->
  exists ds,
    pintbase i base = Some ds /\ ds <> [] /\
    Forall (digit_in base) ds /\ digits_value base ds 0 = i.
Proof.
  intros Hb Hi. destruct (pintbase_spec i base Hb Hi) as (ds & E & Hn & _ & Hd & Hv).
  exists ds. auto.
Qed.

(** A decimal token within the signed range is read as that number. *)
Lemma nextitem_decimal m fuel tok sign ds t rest :
  freelist_inv m -> Freespace m <> 0 -> LastChar m = 0 ->
  number_token tok 10 sign ds ->
  ds <> [] -> Forall (digit_in 10) ds -> (length ds <= 20)%nat ->
  (issp t || isbr t) = true ->
  Source m = tok ++ t :: rest ->
  digits_value 10 ds 0 < 65536 ->
  (25 <= fuel)%nat ->
  INT_MIN <= sign * digits_value 10 ds 0 <= INT_MAX ->
  exists p m', nextitem fuel m = Done p m' /\
               holds_int (Workspace m') p (sign * digits_value 10 ds 0).
Proof.
  intros Hinv Hfs HL Htok Hne Hd Hlen Ht HS Hv Hfuel Hin.
  destruct ds as [|d0 ds]; [congruence|].
  destruct (number_token_shape _ _ _ _ Htok) as (Hb & Hsign & _ & _).
  destruct fuel as [|[|fuel]]; try lia.
  assert (Hd0 : digit_in 10 d0) by (inversion Hd; auto).
  destruct (nextitem_number_token fuel m tok 10 sign d0 ds (t :: rest) Htok Hd0 HL HS)
    as (buffer & Hbuf & E).
  rewrite E.
  destruct (nextitem_atom_number (S fuel) (with_Source (ds ++ t :: rest) m)
              d0 ds t rest buffer 10 sign) as (m1 & W1 & F1 & S1 & E1); auto.
  { simpl length in *. lia. }
  { simpl length in *. lia. }
  rewrite E1. clear E E1.
  assert (Hinv1 : freelist_inv m1) by (eapply freelist_inv_registers; eauto).
  assert (Hfs1 : Freespace m1 <> 0) by (simpl in S1; congruence).
  set (v := digits_value 10 (d0 :: ds) 0) in *.
  unfold INT_MIN, INT_MAX in *.
  change (10 =? 10) with true. cbn [andb].
  assert (Hno : (32767 + (1 - sign) / 2 <? v) = false).
  { destruct Hsign as [-> | ->].
    - change ((1 - 1) / 2) with 0. apply Z.ltb_ge. lia.
    - change ((1 - -1) / 2) with 1. apply Z.ltb_ge. lia. }
  rewrite Hno.
  destruct (number_word m1 (v * sign) Hinv1 Hfs1) as (m' & En & Hi & Hc).
  exists (Freelist m1), m'. split; [exact En|].
  split; [exact Hi|]. split; [unfold INT_MIN, INT_MAX; lia|].
  rewrite Hc. f_equal. lia.
Qed.

(** X14. What [pint] prints for a C [int], followed by white space or a
    bracket, is read back by [nextitem] as a number cell that holds the same
    value. *)
Theorem pint_read_back m fuel n text t rest :
  freelist_inv m -> Freespace m <> 0 -> LastChar m = 0 ->
  INT_MIN <= n <= INT_MAX ->
  pint n = Some text ->
  (issp t || isbr t) = true ->
  Source m = text ++ t :: rest ->
  (25 <= fuel)%nat ->
  exists p m', nextitem fuel m = Done p m' /\ holds_int (Workspace m') p n.
Proof.
  unfold INT_MIN, INT_MAX. intros Hinv Hfs HL Hn Hp Ht HS Hfuel.
  unfold pint in Hp. destruct (Z.ltb_spec n 0) as [Hneg|Hpos].
  - assert (Hw : wrap16 (- n) = - n) by (unfold wrap16; apply Z.mod_small; lia).
    rewrite Hw in Hp.
    destruct (pintbase_spec (- n) 10) as (ds & E & Hne & Hl & Hd & Hv); [auto|lia|].
    rewrite E in Hp. injection Hp as <-.
    assert (Hv' : digits_value 10 ds 0 < 65536) by (rewrite Hv; lia).
    assert (Hr : INT_MIN <= -1 * digits_value 10 ds 0 <= INT_MAX)
      by (rewrite Hv; unfold INT_MIN, INT_MAX; lia).
    destruct (nextitem_decimal m fuel (45 :: ds) (-1) ds t rest Hinv Hfs HL
                (number_minus ds) Hne Hd ltac:(lia) Ht HS Hv' Hfuel Hr)
      as (p & m' & En & Hh).
    exists p, m'. split; [exact En|]. rewrite Hv in Hh.
    replace (-1 * - n) with n in Hh by lia. exact Hh.
  - assert (Hw : wrap16 n = n) by (unfold wrap16; apply Z.mod_small; lia).
    rewrite Hw in Hp.
    destruct (pintbase_spec n 10) as (ds & E & Hne & Hl & Hd & Hv); [auto|lia|].
    rewrite E in Hp. injection Hp as <-.
    assert (Hv' : digits_value 10 ds 0 < 65536) by (rewrite Hv; lia).
    assert (Hr : INT_MIN <= 1 * digits_value 10 ds 0 <= INT_MAX)
      by (rewrite Hv; unfold INT_MIN, INT_MAX; lia).
    destruct (nextitem_decimal m fuel ds 1 ds t rest Hinv Hfs HL
                (number_plain ds) Hne Hd ltac:(lia) Ht HS Hv' Hfuel Hr)
      as (p & m' & En & Hh).
    exists p, m'. split; [exact En|]. rewrite Hv in Hh.
    replace (1 * n) with n in Hh by lia. exact Hh.
Qed.

(** ** Environments and lists *)

Lemma value_loop_spec ws n : forall pairs cells env fuel,
  list_cells ws env cells pairs -> (length pairs < fuel)%nat ->
  value_loop fuel ws n env = Some (first_binding ws n pairs).
Proof.
  induction pairs as [|pair pairs IH]; intros cells env fuel Hl Hfuel;
    inversion Hl as [|p cells' xs Hv Htail]; subst;
    (destruct fuel as [|fuel]; [simpl in Hfuel; lia|]); cbn [value_loop].
  - reflexivity.
  - destruct (Z.eqb_spec env NULL) as [E|_]; [apply valid_not_null in Hv; contradiction|].
    unfold first_binding. cbn [find]. fold (binds ws n (car (getobj ws env))).
    destruct (binds ws n (car (getobj ws env))); [reflexivity|].
    apply (IH cells'); auto. simpl in Hfuel. lia.
Qed.

Lemma first_binding_not_null ws n pairs :
  first_binding ws n pairs <> NULL ->
  In (first_binding ws n pairs) pairs /\ binds ws n (first_binding ws n pairs) = true.
Proof.
  unfold first_binding. destruct (find (binds ws n) pairs) as [p|] eqn:E.
  - intros _. apply find_some in E. exact E.
  - congruence.
Qed.

Lemma first_binding_app ws n l1 l2 :
  first_binding ws n (l1 ++ l2) =
  if first_binding ws n l1 =? NULL then first_binding ws n l2 else first_binding ws n l1.
Proof.
  unfold first_binding. induction l1 as [|x l1 IH]; cbn [app find].
  - reflexivity.
  - destruct (binds ws n x) eqn:E.
    + unfold binds in E. apply andb_true_iff in E. destruct E as (E & _).
      apply negb_true_iff in E. now rewrite E.
    + exact IH.
Qed.

(** X15. Looking a variable up: [value] returns the first entry of the
    environment that binds the name, so an inner binding hides the outer
    ones, and leaves the machine as it is; [findvalue] looks in the local
    environment before the global one and raises "unknown variable" exactly
    when neither binds the name. *)
Theorem lookup_finds_innermost m fuel var env cells pairs gcells gpairs :
  list_cells (Workspace m) env cells pairs ->
  list_cells (Workspace m) (GlobalEnv m) gcells gpairs ->
  (length pairs < fuel)%nat -> (length gpairs < fuel)%nat ->
  let name := cdr (getobj (Workspace m) var) in
  value fuel name env m = Done (first_binding (Workspace m) name pairs) m /\
  findvalue fuel var env m =
  (if first_binding (Workspace m) name (pairs ++ gpairs) =? NULL
   then Error "unknown variable"%string (with_GCStack NULL m)
   else Done (first_binding (Workspace m) name (pairs ++ gpairs)) m).
Proof.
  intros Hl Hg Hf Hgf name.
  assert (Ev : forall e cs ps, list_cells (Workspace m) e cs ps -> (length ps < fuel)%nat ->
                 value fuel name e m = Done (first_binding (Workspace m) name ps) m).
  { intros e cs ps H1 H2. unfold value. now rewrite (value_loop_spec _ _ ps cs). }
  split; [apply (Ev env cells pairs); auto|].
  unfold findvalue, findpair, bind at 1. unfold bind at 1. unfold get_machine at 1.
  fold name. unfold bind at 1.
  rewrite (Ev env cells pairs Hl Hf). rewrite first_binding_app.
  destruct (Z.eqb_spec (first_binding (Workspace m) name pairs) NULL) as [E|E].
  - rewrite (Ev (GlobalEnv m) gcells gpairs Hg Hgf).
    destruct (first_binding (Workspace m) name gpairs =? NULL); reflexivity.
  - unfold ret.
    destruct (Z.eqb_spec (first_binding (Workspace m) name pairs) NULL); [contradiction|].
    reflexivity.
Qed.

(** X16. [listlength] returns the number of cells of a proper list, and
    raises "argument is not a proper list" when the chain of [cdr]s ends in
    an object that is not a list; it changes nothing in either case. *)
Theorem listlength_proper_or_error m fuel p cells e :
  spine (Workspace m) p cells e ->
  Forall (fun c => listp (Workspace m) c = true) cells ->
  (length cells < fuel)%nat ->
  (e = NULL -> listlength fuel p 0 m = Done (Z.of_nat (length cells)) m) /\
  (listp (Workspace m) e = false ->
   listlength fuel p 0 m
   = Error "argument is not a proper list"%string (with_GCStack NULL m)).
Proof.
  intros Hs Hc Hfuel.
  assert (G : forall acc,
    (e = NULL -> listlength fuel p acc m = Done (acc + Z.of_nat (length cells)) m) /\
    (listp (Workspace m) e = false ->
     listlength fuel p acc m
     = Error "argument is not a proper list"%string (with_GCStack NULL m))).
  { revert fuel Hfuel.
    induction Hs as [e|p cells e Hp Hs IH]; intros fuel Hfuel acc;
      (destruct fuel as [|fuel]; [simpl in Hfuel; lia|]); cbn [listlength].
    - split.
      + intros ->. rewrite Z.eqb_refl. cbn [length]. unfold ret. f_equal. lia.
      + intros He. destruct (Z.eqb_spec e NULL) as [->|_]; [discriminate|].
        unfold bind, get_machine. rewrite He. reflexivity.
    - destruct (Z.eqb_spec p NULL) as [|_]; [contradiction|].
      inversion Hc as [|? ? Hlp Hc']; subst.
      destruct (IH Hc' fuel ltac:(simpl in Hfuel; lia) (acc + 1)) as (I1 & I2).
      split; intros He; unfold bind, get_machine; rewrite Hlp; cbn [negb].
      + rewrite (I1 He). cbn [length]. f_equal. lia.
      + exact (I2 He). }
  destruct (G 0) as (G1 & G2). split; [|exact G2].
  intros He. rewrite (G1 He). f_equal.
Qed.

(** ** The collector: what marking changes, how many cells a cycle frees *)

Lemma only_mark_bits_refl ws : only_mark_bits ws ws.
Proof. split; [reflexivity|]. intros q. split; [reflexivity|now left]. Qed.

Lemma only_mark_bits_trans ws1 ws2 ws3 :
  only_mark_bits ws1 ws2 -> only_mark_bits ws2 ws3 -> only_mark_bits ws1 ws3.
Proof.
  intros (L1 & H1) (L2 & H2). split; [congruence|].
  intros q. destruct (H1 q) as (C1 & A1). destruct (H2 q) as (C2 & A2).
  split; [congruence|].
  destruct A2 as [-> | ->]; destruct A1 as [-> | ->]; auto.
  right. now rewrite <- Z.lor_assoc, Z.lor_diag.
Qed.

Lemma only_mark_bits_mark ws x :
  length ws = Z.to_nat WORKSPACESIZE -> only_mark_bits ws (mark ws x).
Proof.
  intros Hl. split; [apply length_mark|].
  intros q. destruct (Z.eq_dec x q) as [<-|Hne].
  - destruct (validb x) eqn:Hv.
    + rewrite getobj_mark_eq by auto. cbn [car cdr]. auto.
    + unfold mark, set_car, setobj. rewrite Hv. auto.
  - rewrite getobj_mark_ne by auto. auto.
Qed.

Lemma markchain_only_marks : forall fuel ws obj ws',
  length ws = Z.to_nat WORKSPACESIZE ->
  markchain fuel ws obj = Some ws' -> only_mark_bits ws ws'.
Proof.
  induction fuel as [|fuel IH]; intros ws obj ws' Hl; cbn [markchain]; [discriminate|].
  destruct (obj =? NULL).
  - intros [= <-]. apply only_mark_bits_refl.
  - intros H. apply IH in H; [|now rewrite length_mark].
    eapply only_mark_bits_trans; [apply only_mark_bits_mark; exact Hl|exact H].
Qed.

Lemma markobject_only_marks : forall fuel ws obj ws',
  length ws = Z.to_nat WORKSPACESIZE ->
  markobject fuel ws obj = Some ws' -> only_mark_bits ws ws'.
Proof.
  induction fuel as [|fuel IH]; intros ws obj ws' Hl; cbn [markobject]; [discriminate|].
  destruct (obj =? NULL); [intros [= <-]; apply only_mark_bits_refl|].
  destruct (marked ws obj); [intros [= <-]; apply only_mark_bits_refl|].
  pose proof (only_mark_bits_mark ws obj Hl) as Hm.
  assert (Hl1 : length (mark ws obj) = Z.to_nat WORKSPACESIZE) by now rewrite length_mark.
  destruct ((PAIR <=? type_of ws obj) || (type_of ws obj =? ZZERO)).
  - destruct (markobject fuel (mark ws obj) (car (getobj ws obj))) as [ws2|] eqn:E2;
      [|discriminate].
    intros H3. pose proof (IH _ _ _ Hl1 E2) as H2.
    assert (Hl2 : length ws2 = Z.to_nat WORKSPACESIZE) by (destruct H2; congruence).
    apply IH in H3; [|exact Hl2].
    eauto using only_mark_bits_trans.
  - destruct (type_of ws obj =? ARRAY).
    + intros H. apply IH in H; [|exact Hl1]. eauto using only_mark_bits_trans.
    + destruct ((type_of ws obj =? STRING)
                || (type_of ws obj =? SYMBOL) && longsymbolp (mark ws obj) obj).
      * intros H. apply markchain_only_marks in H; [|exact Hl1].
        eauto using only_mark_bits_trans.
      * intros [= <-]. exact Hm.
Qed.

Lemma markroots_only_marks : forall roots ws ws',
  length ws = Z.to_nat WORKSPACESIZE ->
  markroots roots ws = Some ws' -> only_mark_bits ws ws'.
Proof.
  unfold markroots.
  induction roots as [|r roots IH]; intros ws ws' Hl; cbn [fold_left].
  - intros [= <-]. apply only_mark_bits_refl.
  - destruct (markobject mark_fuel ws r) as [ws1|] eqn:E1.
    + intros H. pose proof (markobject_only_marks _ _ _ _ Hl E1) as H1.
      assert (Hl1 : length ws1 = Z.to_nat WORKSPACESIZE) by (destruct H1; congruence).
      apply IH in H; [|exact Hl1]. eauto using only_mark_bits_trans.
    + intros H. exfalso. clear - H.
      induction roots as [|r' roots IHr]; cbn [fold_left] in H; [discriminate|auto].
Qed.


Lemma NoDup_map_cell_addr l : NoDup l -> NoDup (map cell_addr l).
Proof.
  induction 1 as [|i l Hnot Hnd IH]; cbn [map]; constructor; auto.
  intros Hin. apply in_map_iff in Hin. destruct Hin as (j & E & Hj).
  apply cell_addr_inj in E. subst j. contradiction.
Qed.

(** The mark phase of [gc] on a well-formed heap: it returns, and it marks
    the reachable cells and no other. *)
Lemma gc_mark_phase m form env :
  heap_ok (Workspace m) (gc_roots m form env) ->
  exists ws,
    markroots (gc_roots m form env) (Workspace m) = Some ws /\
    length ws = Z.to_nat WORKSPACESIZE /\
    forall p, valid p ->
      (marked ws p = true <-> reachable (Workspace m) (gc_roots m form env) p).
Proof.
  intros Hok. set (roots := gc_roots m form env) in *.
  set (ws0 := Workspace m) in *.
  assert (Hinv0 : mark_inv ws0 roots ws0).
  { split.
    - apply marks_only_refl. apply (ok_unmarked _ _ Hok).
    - intros p Hv Hm. rewrite (ok_unmarked _ _ Hok p Hv) in Hm. discriminate.
    - intros h l c Hr Hh Hc Hin.
      destruct (chain_cells_not_obj ws0 roots Hok h l c Hr Hh Hc Hin) as [Hvc _].
      rewrite (ok_unmarked _ _ Hok c Hvc).
      now rewrite (ok_unmarked _ _ Hok h (ok_valid _ _ Hok h Hr)). }
  destruct (markroots_spec ws0 roots Hok roots ws0) as (ws & E & Hinv & _ & Hroots & Hclo).
  { apply incl_refl. }
  { exact Hinv0. }
  { intros x Hx Hm. rewrite (ok_unmarked _ _ Hok x (ok_valid _ _ Hok x Hx)) in Hm.
    discriminate. }
  exists ws. split; [exact E|]. split.
  - destruct (mi_marks _ _ _ Hinv) as [Hl _]. rewrite Hl. apply (ok_length _ _ Hok).
  - exact (marked_iff_reachable ws0 roots ws Hok Hinv Hroots Hclo).
Qed.

(** X18. A collection on a well-formed heap frees all but the reachable
    cells: afterwards [Freespace] is [WORKSPACESIZE] less the number of cells
    that were reachable from the roots. *)
Theorem gc_free_count m form env :
  heap_ok (Workspace m) (gc_roots m form env) ->
  exists m' live,
    gc form env m = Some m' /\
    NoDup live /\
    (forall p, In p live <-> reachable (Workspace m) (gc_roots m form env) p) /\
    Freespace m' = WORKSPACESIZE - Z.of_nat (length live).
Proof.
  intros Hok. destruct (gc_mark_phase m form env Hok) as (ws & E & Hl & Hiff).
  destruct (sweep_spec (with_Workspace ws m) Hl) as (_ & _ & Hfs & _).
  cbn [Workspace with_Workspace] in Hfs.
  exists (sweep (with_Workspace ws m)).
  exists (map cell_addr
            (filter (fun i => marked ws (cell_addr i)) (seq 0 (Z.to_nat WORKSPACESIZE)))).
  split.
  { unfold gc. unfold gc_roots in E. now rewrite E. }
  split.
  { apply NoDup_map_cell_addr. apply NoDup_filter. apply seq_NoDup. }
  split.
  - intros p. rewrite in_map_iff. split.
    + intros (i & <- & Hi). apply filter_In in Hi. destruct Hi as (Hi & Hm).
      apply in_seq in Hi. apply Hiff; [apply valid_cell_addr; lia|exact Hm].
    + intros Hr. pose proof (reachable_valid _ _ _ Hok Hr) as Hv.
      destruct (valid_index p Hv) as (Hi & Ea).
      exists (cell_index p). split; [exact Ea|]. apply filter_In. split.
      * apply in_seq. lia.
      * rewrite Ea. apply Hiff; auto.
  - rewrite Hfs. unfold unmarked_below. rewrite length_map.
    pose proof (filter_length (fun i => marked ws (cell_addr i))
                  (seq 0 (Z.to_nat WORKSPACESIZE))) as Hsum.
    rewrite length_seq in Hsum.
    unfold WORKSPACESIZE in *. lia.
Qed.
(** ** Strings: [buildstring], [lispstring], [readstring], [printstring] *)

Lemma two_chars_low c1 c2 :
  0 <= c1 -> 0 <= c2 < 256 -> Z.land (Z.lor (Z.shiftl c1 8) c2) 255 = c2.
Proof.
  intros H1 H2. change 255 with (Z.ones 8). rewrite Z.land_lor_distr_l.
  rewrite !Z.land_ones by lia. rewrite Z.shiftl_mul_pow2 by lia.
  rewrite Z.mod_mul by lia. rewrite Z.mod_small by (change (2 ^ 8) with 256; lia).
  reflexivity.
Qed.

Lemma two_chars_high c1 c2 :
  0 <= c1 < 256 -> 0 <= c2 < 256 ->
  Z.land (Z.shiftr (Z.lor (Z.shiftl c1 8) c2) 8) 255 = c1.
Proof.
  intros H1 H2. rewrite Z.shiftr_lor. rewrite Z.shiftr_shiftl_l by lia.
  change (8 - 8) with 0. rewrite Z.shiftl_0_r.
  rewrite (Z.shiftr_div_pow2 c2) by lia.
  rewrite (Z.div_small c2) by (change (2 ^ 8) with 256; lia).
  rewrite Z.lor_0_r. change 255 with (Z.ones 8). rewrite Z.land_ones by lia.
  apply Z.mod_small. change (2 ^ 8) with 256. lia.
Qed.

Lemma first_char_word c :
  0 <= c < 256 -> wrap16 (Z.shiftl (c mod 256) 8) = Z.shiftl c 8 /\ Z.shiftl c 8 = c * 256.
Proof.
  intros H. rewrite Z.mod_small by lia. rewrite Z.shiftl_mul_pow2 by lia.
  change (2 ^ 8) with 256. split; [|reflexivity].
  unfold wrap16. apply Z.mod_small. lia.
Qed.

Lemma freechain_head ws p cell fl :
  freechain ws p (cell :: fl) ->
  p = cell /\ valid cell /\ ~ In cell fl /\ freechain ws (cdr (getobj ws cell)) fl.
Proof.
  intros H. pose proof (freechain_NoDup _ _ _ H) as Hnd.
  inversion H; subst. inversion Hnd; subst. auto.
Qed.

(** One call of [buildstring] while a string is built. *)
Lemma buildstring_step m tail st fl c :
  building m tail st fl -> 1 <= c < 256 ->
  (takes_cell st = true -> fl <> []) ->
  exists m' tail' fl',
    buildstring c tail m = Done tail' m' /\
    building m' tail' (next_state st c) fl' /\
    fl = (if takes_cell st then [tail'] else []) ++ fl' /\
    (takes_cell st = false -> tail' = tail) /\
    (forall p, p <> tail -> ~ In p fl -> getobj (Workspace m') p = getobj (Workspace m) p) /\
    same_registers m m' /\
    (forall ws'' s,
       (tail' <> tail -> getobj ws'' tail = getobj (Workspace m') tail) ->
       attached ws'' tail' (next_state st c) s -> attached ws'' tail st (c :: s)).
Proof.
  intros (Hl & Hc & Hf & Hv & Hnot & Hok) Hchar Hroom.
  destruct (first_char_word c ltac:(lia)) as (Ew & Ew').
  assert (Hlow : Z.land (Z.shiftl c 8) 255 = 0).
  { rewrite <- (Z.lor_0_r (Z.shiftl c 8)). apply two_chars_low; lia. }
  destruct st as [h|c0|w]; cbn [tail_ok takes_cell next_state attached] in *.
  - destruct fl as [|cell fl']; [exfalso; now apply Hroom|].
    destruct (freechain_head _ _ _ _ Hc) as (Ehead & Hvc & Hnc & Hc').
    assert (Hne : tail <> cell) by (intros ->; apply Hnot; now left).
    unfold buildstring, bind, get_machine. rewrite Hok. cbn [cdr].
    change (NULL =? NULL) with true. cbv beta iota. rewrite myalloc_spec.
    destruct (Z.eqb_spec (Freespace m) 0) as [E0|_]; [cbn [length] in Hf; lia|].
    unfold store_cdr, store_car, modify, ret. cbn [Workspace with_Workspace with_Freespace with_Freelist].
    rewrite Ew, Ehead.
    eexists _, cell, fl'. split; [reflexivity|].
    cbn [Workspace Freelist Freespace with_Workspace with_Freespace with_Freelist].
    assert (Hl1 : length (set_cdr (Workspace m) tail cell) = Z.to_nat WORKSPACESIZE)
      by now rewrite length_set_cdr.
    assert (Gcell : getobj (set_cdr (set_car (set_cdr (Workspace m) tail cell) cell NULL)
                             cell (Z.shiftl c 8)) cell = mkobj NULL (Z.shiftl c 8))
      by (apply getobj_free_cell; auto).
    assert (Gtail : getobj (set_cdr (set_car (set_cdr (Workspace m) tail cell) cell NULL)
                             cell (Z.shiftl c 8)) tail = mkobj h cell).
    { rewrite getobj_free_cell_ne by auto. rewrite getobj_set_cdr_eq by auto.
      now rewrite Hok. }
    split; [|split; [|split; [|split; [|split]]]].
    + unfold building. cbn [Workspace Freelist Freespace with_Workspace with_Freespace with_Freelist tail_ok].
      split; [now rewrite length_set_cdr, length_set_car|].
      split.
      { unfold set_cdr at 1, set_car. apply freechain_setobj; auto.
        apply freechain_setobj; auto. unfold set_cdr. apply freechain_setobj; auto.
        intros Hin. apply Hnot. now right. }
      split.
      { rewrite Hf. cbn [length]. unfold wrap16.
        pose proof (freechain_length _ _ _ Hc) as Hlen. cbn [length] in Hlen.
        unfold WORKSPACESIZE in *. rewrite Z.mod_small; lia. }
      split; [exact Hvc|]. split; [exact Hnc|].
      split; [exact Hchar|exact Gcell].
    + reflexivity.
    + discriminate.
    + intros p Hp Hpf. rewrite getobj_free_cell_ne by (intros ->; apply Hpf; now left).
      apply getobj_set_cdr_ne. congruence.
    + repeat split.
    + intros ws'' s Hframe Hatt. rewrite Hframe by congruence. rewrite Gtail. cbn [car cdr].
      split; [reflexivity|exact Hatt].
  - destruct Hok as (Hc0 & Hok).
    destruct (first_char_word c0 ltac:(unfold is_char in Hc0; lia)) as (_ & Ew0).
    assert (Hlow0 : Z.land (Z.shiftl c0 8) 255 = 0).
    { rewrite <- (Z.lor_0_r (Z.shiftl c0 8)). apply two_chars_low; unfold is_char in *; lia. }
    unfold buildstring, bind, get_machine. rewrite Hok. cbn [cdr].
    destruct (Z.eqb_spec (Z.shiftl c0 8) NULL) as [E0|_];
      [unfold NULL, is_char in *; lia|].
    rewrite Hlow0. change (0 =? 0) with true. cbv beta iota.
    unfold store_cdr, modify, ret. rewrite (Z.mod_small c 256) by lia.
    eexists _, tail, fl. split; [reflexivity|].
    cbn [Workspace Freelist Freespace with_Workspace].
    assert (Gtail : getobj (set_cdr (Workspace m) tail (Z.lor (Z.shiftl c0 8) c)) tail
                    = mkobj NULL (Z.lor (Z.shiftl c0 8) c)).
    { rewrite getobj_set_cdr_eq by auto. now rewrite Hok. }
    split; [|split; [|split; [|split; [|split]]]].
    + unfold building. cbn [Workspace Freelist Freespace with_Workspace with_Freespace with_Freelist tail_ok].
      split; [now rewrite length_set_cdr|].
      split; [unfold set_cdr; apply freechain_setobj; auto|].
      split; [exact Hf|]. split; [exact Hv|]. split; [exact Hnot|].
      split; [exact Gtail|].
      rewrite two_chars_low by (unfold is_char in *; lia). lia.
    + reflexivity.
    + reflexivity.
    + intros p Hp _. apply getobj_set_cdr_ne. congruence.
    + repeat split.
    + intros ws'' s _ (Hw & Hatt). apply chars_at_two; auto.
  - destruct Hok as (Hok & Hw).
    destruct fl as [|cell fl']; [exfalso; now apply Hroom|].
    destruct (freechain_head _ _ _ _ Hc) as (Ehead & Hvc & Hnc & Hc').
    assert (Hne : tail <> cell) by (intros ->; apply Hnot; now left).
    unfold buildstring, bind, get_machine. rewrite Hok. cbn [cdr].
    destruct (Z.eqb_spec w NULL) as [E0|_]; [subst w; now rewrite Z.land_0_l in Hw|].
    destruct (Z.eqb_spec (Z.land w 255) 0) as [E0|_]; [contradiction|].
    cbv beta iota. rewrite myalloc_spec.
    destruct (Z.eqb_spec (Freespace m) 0) as [E0|_]; [cbn [length] in Hf; lia|].
    unfold store_cdr, store_car, modify, ret. cbn [Workspace with_Workspace with_Freespace with_Freelist].
    rewrite Ew, Ehead.
    eexists _, cell, fl'. split; [reflexivity|].
    cbn [Workspace Freelist Freespace with_Workspace with_Freespace with_Freelist].
    assert (Hl1 : length (set_car (Workspace m) tail cell) = Z.to_nat WORKSPACESIZE)
      by now rewrite length_set_car.
    assert (Gcell : getobj (set_cdr (set_car (set_car (Workspace m) tail cell) cell NULL)
                             cell (Z.shiftl c 8)) cell = mkobj NULL (Z.shiftl c 8))
      by (apply getobj_free_cell; auto).
    assert (Gtail : getobj (set_cdr (set_car (set_car (Workspace m) tail cell) cell NULL)
                             cell (Z.shiftl c 8)) tail = mkobj cell w).
    { rewrite getobj_free_cell_ne by auto. rewrite getobj_set_car_eq by auto.
      now rewrite Hok. }
    split; [|split; [|split; [|split; [|split]]]].
    + unfold building. cbn [Workspace Freelist Freespace with_Workspace with_Freespace with_Freelist tail_ok].
      split; [now rewrite length_set_cdr, !length_set_car|].
      split.
      { unfold set_cdr, set_car. apply freechain_setobj; auto.
        apply freechain_setobj; auto. apply freechain_setobj; auto.
        intros Hin. apply Hnot. now right. }
      split.
      { rewrite Hf. cbn [length]. unfold wrap16.
        pose proof (freechain_length _ _ _ Hc) as Hlen. cbn [length] in Hlen.
        unfold WORKSPACESIZE in *. rewrite Z.mod_small; lia. }
      split; [exact Hvc|]. split; [exact Hnc|].
      split; [exact Hchar|exact Gcell].
    + reflexivity.
    + discriminate.
    + intros p Hp Hpf. rewrite getobj_free_cell_ne by (intros ->; apply Hpf; now left).
      apply getobj_set_car_ne. congruence.
    + repeat split.
    + intros ws'' s Hframe Hatt. rewrite Hframe by congruence. rewrite Gtail. cbn [car cdr].
      split; [reflexivity|exact Hatt].
Qed.

Lemma cells_needed_cons st c s :
  cells_needed st (c :: s)
  = (if takes_cell st then 1 else 0) + cells_needed (next_state st c) s.
Proof.
  destruct st; cbn [cells_needed takes_cell next_state length];
    rewrite Nat2Z.inj_succ; Z.div_mod_to_equations; lia.
Qed.

Lemma tail_ok_attached ws tail st :
  valid tail -> tail_ok ws tail st -> attached ws tail st [].
Proof.
  intros Hv. destruct st as [h|c|w]; cbn [tail_ok attached].
  - intros ->. cbn [car cdr]. split; [reflexivity|constructor].
  - intros (_ & H). now apply chars_at_one.
  - intros (-> & _). cbn [car cdr]. split; [reflexivity|constructor].
Qed.

Lemma appended_nil m tail st fl :
  building m tail st fl -> appended (Workspace m) fl m tail st [].
Proof.
  intros (Hl & Hc & Hf & Hv & Hnot & Hok). exists [], fl.
  split; [reflexivity|]. split; [now destruct st|].
  split; [exact Hl|]. split; [exact Hc|]. split; [exact Hf|].
  split; [now apply tail_ok_attached|]. reflexivity.
Qed.

(** A call of [buildstring] and what the calls after it do, put together. *)
Lemma buildstring_then m tail st fl c s :
  building m tail st fl -> 1 <= c < 256 ->
  cells_needed st (c :: s) <= Z.of_nat (length fl) ->
  exists m1 tail1 fl1,
    buildstring c tail m = Done tail1 m1 /\
    building m1 tail1 (next_state st c) fl1 /\
    cells_needed (next_state st c) s <= Z.of_nat (length fl1) /\
    same_registers m m1 /\
    (forall m', appended (Workspace m1) fl1 m' tail1 (next_state st c) s ->
                appended (Workspace m) fl m' tail st (c :: s)).
Proof.
  intros Hb Hc Hroom. rewrite cells_needed_cons in Hroom.
  assert (Hpos : 0 <= cells_needed (next_state st c) s).
  { destruct st; cbn [cells_needed next_state]; apply Z.div_pos; lia. }
  destruct (buildstring_step m tail st fl c Hb Hc) as
    (m1 & tail1 & fl1 & E & Hb1 & Efl & Hsame & Hframe & Hreg & Hcomp).
  { intros Ht ->. rewrite Ht in Hroom. cbn [length] in Hroom. lia. }
  exists m1, tail1, fl1. split; [exact E|]. split; [exact Hb1|].
  split.
  { rewrite Efl, length_app, Nat2Z.inj_add in Hroom.
    destruct (takes_cell st); cbn [length] in Hroom; lia. }
  split; [exact Hreg|].
  intros m' (used & fl' & Eu & Hlen & Hl' & Hc' & Hf' & Hatt & Hfr).
  destruct Hb as (Hl & Hch & Hf & Hv & Hnot & Hok).
  assert (Hsub : forall p, In p fl1 -> In p fl).
  { intros p Hp. rewrite Efl. apply in_or_app. now right. }
  exists ((if takes_cell st then [tail1] else []) ++ used), fl'.
  split; [rewrite <- app_assoc, <- Eu; exact Efl|].
  split.
  { rewrite cells_needed_cons, length_app, Nat2Z.inj_add, Hlen.
    destruct (takes_cell st); reflexivity. }
  split; [exact Hl'|]. split; [exact Hc'|]. split; [exact Hf'|].
  split.
  - apply Hcomp; [|exact Hatt]. intros Hne. apply Hfr; [congruence|].
    intros Hin. apply Hnot. now apply Hsub.
  - intros p Hp Hpf. destruct (Z.eq_dec p tail1) as [->|Hp1].
    + exfalso. destruct (takes_cell st) eqn:Et.
      * apply Hpf. rewrite Efl. now left.
      * apply Hp. now apply Hsame.
    + rewrite Hfr; [|exact Hp1|intros Hin; apply Hpf; now apply Hsub].
      now apply Hframe.
Qed.

(** *** The printers *)

Lemma out_escape ch :
  (if (ch =? 34) || (ch =? 92) then [92] else []) ++ (if ch =? 0 then [] else [ch])
  = escape (if ch =? 0 then [] else [ch]).
Proof.
  destruct (Z.eqb_spec ch 0) as [->|_]; [reflexivity|].
  unfold escape. cbn [flat_map]. destruct ((ch =? 34) || (ch =? 92)); reflexivity.
Qed.

Lemma escape_app s1 s2 : escape (s1 ++ s2) = escape s1 ++ escape s2.
Proof. unfold escape. apply flat_map_app. Qed.

Lemma plispstr_readably fuel ws : forall p,
  plispstr fuel ws true p = option_map escape (plispstr fuel ws false p).
Proof.
  induction fuel as [|fuel IH]; intros p; cbn [plispstr]; [reflexivity|].
  destruct (p =? NULL); [reflexivity|].
  rewrite IH. destruct (plispstr fuel ws false (car (getobj ws p))) as [rest|];
    [|reflexivity].
  cbn [option_map andb app]. rewrite !escape_app, !out_escape. reflexivity.
Qed.

Lemma stringlength_loop_counts fuel ws : forall p acc,
  stringlength_loop fuel ws p acc
  = option_map (fun out => acc + Z.of_nat (length out)) (plispstr fuel ws false p).
Proof.
  induction fuel as [|fuel IH]; intros p acc; cbn [plispstr stringlength_loop];
    [reflexivity|].
  destruct (p =? NULL); [cbn; f_equal; lia|].
  rewrite IH. destruct (plispstr fuel ws false (car (getobj ws p))) as [rest|];
    [|reflexivity].
  cbn [option_map andb app]. f_equal. rewrite !length_app.
  destruct (Z.land (Z.shiftr (cdr (getobj ws p)) 8) 255 =? 0),
           (Z.land (cdr (getobj ws p)) 255 =? 0); cbn [length]; lia.
Qed.

Lemma plispstr_chars_at ws p s :
  chars_at ws p s -> Forall is_char s ->
  forall fuel, (length s + 1 < 2 * fuel)%nat -> plispstr fuel ws false p = Some s.
Proof.
  induction 1 as [|p c Hv Hg|p c1 c2 rest Hv Hw Hc IH]; intros Hs fuel Hfuel.
  - destruct fuel; [lia|]. reflexivity.
  - destruct fuel as [|[|fuel]]; cbn [length] in Hfuel; try lia.
    assert (Hc : 1 <= c < 256) by (inversion Hs; auto).
    cbn [plispstr]. destruct (Z.eqb_spec p NULL) as [->|_];
      [now apply valid_not_null in Hv|].
    rewrite Hg. cbn [car cdr]. change (NULL =? NULL) with true. cbv beta iota.
    cbn [andb app].
    rewrite <- (Z.lor_0_r (Z.shiftl c 8)).
    rewrite two_chars_high, two_chars_low by lia.
    destruct (Z.eqb_spec c 0); [lia|]. reflexivity.
  - destruct fuel as [|fuel]; cbn [length] in Hfuel; try lia.
    assert (Hc1 : 1 <= c1 < 256) by (inversion Hs; auto).
    assert (Hc2 : 1 <= c2 < 256) by (inversion Hs as [|? ? ? H2]; inversion H2; auto).
    assert (Hrest : Forall is_char rest)
      by (inversion Hs as [|? ? ? H2]; inversion H2; auto).
    cbn [plispstr]. destruct (Z.eqb_spec p NULL) as [->|_];
      [now apply valid_not_null in Hv|].
    rewrite (IH Hrest fuel) by lia. rewrite Hw.
    rewrite two_chars_high, two_chars_low by lia.
    cbn [andb app].
    destruct (Z.eqb_spec c1 0); [lia|]. destruct (Z.eqb_spec c2 0); [lia|]. reflexivity.
Qed.

(** X19. The two print modes and the length of a string agree on every
    arena: what [printstring] prints readably is a double quote, then what it
    prints plainly with a backslash before each double quote and backslash,
    then a double quote; and [stringlength] is the number of characters
    printed plainly.  The three run out of fuel together. *)
Theorem printstring_modes_and_length fuel ws form :
  printstring fuel ws true form
  = option_map (fun s => 34 :: escape s ++ [34]) (printstring fuel ws false form) /\
  stringlength fuel ws form
  = option_map (fun s => Z.of_nat (length s)) (printstring fuel ws false form).
Proof.
  unfold printstring, stringlength. rewrite plispstr_readably, stringlength_loop_counts.
  destruct (plispstr fuel ws false (cdr (getobj ws form))) as [s|]; cbn [option_map app];
    [|split; reflexivity].
  rewrite app_nil_r. split; reflexivity.
Qed.

(** *** Building strings *)

Lemma newstring_spec m :
  freelist_inv m -> Freespace m <> 0 ->
  exists m' fl,
    newstring m = Done (Freelist m) m' /\
    building m' (Freelist m) (AtHeader STRING) fl /\
    freechain (Workspace m) (Freelist m) (Freelist m :: fl) /\
    (forall p, p <> Freelist m -> getobj (Workspace m') p = getobj (Workspace m) p) /\
    same_registers m m'.
Proof.
  intros (Hl & l & Hc & Hf) Hfs.
  destruct l as [|cell fl]; [cbn [length] in Hf; lia|].
  destruct (freechain_head _ _ _ _ Hc) as (Ehead & Hvc & Hnc & Hc').
  unfold newstring, bind. rewrite myalloc_spec.
  destruct (Z.eqb_spec (Freespace m) 0) as [|_]; [contradiction|].
  unfold modify, ret. cbn [Workspace with_Workspace with_Freespace with_Freelist].
  rewrite Ehead in *. eexists _, fl. split; [reflexivity|].
  split; [|split; [|split]].
  - unfold building.
    cbn [Workspace Freelist Freespace with_Workspace with_Freespace with_Freelist tail_ok].
    split; [now rewrite length_set_cdr, length_set_car|].
    split.
    { unfold set_cdr, set_car. apply freechain_setobj; auto. apply freechain_setobj; auto. }
    split.
    { rewrite Hf. cbn [length]. unfold wrap16.
      pose proof (freechain_length _ _ _ Hc) as Hlen. cbn [length] in Hlen.
      unfold WORKSPACESIZE in *. rewrite Z.mod_small; lia. }
    split; [exact Hvc|]. split; [exact Hnc|].
    rewrite getobj_set_cdr_eq; [|exact Hvc|now rewrite length_set_car].
    rewrite getobj_set_car_eq by auto. reflexivity.
  - exact Hc.
  - intros p Hp. cbn [Workspace with_Workspace with_Freespace with_Freelist].
    rewrite getobj_set_cdr_ne, getobj_set_car_ne; auto.
  - repeat split.
Qed.

Lemma unbackslash_chars s : forall t,
  unbackslash s = Some t -> Forall is_char s -> Forall is_char t.
Proof.
  assert (H : forall n s t, (length s <= n)%nat -> unbackslash s = Some t ->
                            Forall is_char s -> Forall is_char t).
  { induction n as [|n IH]; intros [|c rest] t Hn; cbn [length] in Hn; try lia;
      cbn [unbackslash]; try (intros [= <-]; constructor).
    destruct (c =? 92).
    - destruct rest as [|c' rest']; [discriminate|].
      destruct (unbackslash rest') as [t'|] eqn:E; [|discriminate].
      cbn [option_map]. intros [= <-] Hs.
      inversion Hs as [|? ? _ Hs1]; subst. inversion Hs1; subst.
      constructor; auto. apply (IH rest'); auto. cbn [length] in Hn. lia.
    - destruct (unbackslash rest) as [t'|] eqn:E; [|discriminate].
      cbn [option_map]. intros [= <-] Hs. inversion Hs; subst.
      constructor; auto. apply (IH rest); auto. lia. }
  intros t. apply (H (length s)). lia.
Qed.

Lemma lispstring_loop_spec n : forall s t m tail st fl,
  (length s <= n)%nat ->
  unbackslash s = Some t -> Forall is_char s ->
  building m tail st fl ->
  cells_needed st t <= Z.of_nat (length fl) ->
  exists m', lispstring_loop s tail m = Done tt m' /\
             appended (Workspace m) fl m' tail st t /\
             same_registers m m'.
Proof.
  induction n as [|n IH]; intros [|c rest] t m tail st fl Hn Hu Hs Hb Hroom;
    cbn [length] in Hn; try lia; cbn [unbackslash] in Hu.
  - injection Hu as <-. exists m. split; [reflexivity|].
    split; [now apply appended_nil|apply same_registers_refl].
  - injection Hu as <-. exists m. split; [reflexivity|].
    split; [now apply appended_nil|apply same_registers_refl].
  - cbn [lispstring_loop]. destruct (c =? 92).
    + destruct rest as [|c' rest']; [discriminate|].
      destruct (unbackslash rest') as [t'|] eqn:E; [|discriminate].
      cbn [option_map] in Hu. injection Hu as <-.
      assert (Hc' : 1 <= c' < 256)
        by (inversion Hs as [|? ? _ Hs1]; inversion Hs1; auto).
      assert (Hs' : Forall is_char rest')
        by (inversion Hs as [|? ? _ Hs1]; inversion Hs1; auto).
      destruct (buildstring_then m tail st fl c' t' Hb Hc' Hroom)
        as (m1 & tail1 & fl1 & E1 & Hb1 & Hroom1 & Hreg1 & Hcomp).
      unfold bind. rewrite E1.
      destruct (IH rest' t' m1 tail1 (next_state st c') fl1) as (m' & E' & Happ & Hreg');
        auto.
      { cbn [length] in Hn. lia. }
      exists m'. split; [exact E'|]. split; [now apply Hcomp|].
      eapply same_registers_trans; eauto.
    + destruct (unbackslash rest) as [t'|] eqn:E; [|discriminate].
      cbn [option_map] in Hu. injection Hu as <-.
      assert (Hc' : 1 <= c < 256) by (inversion Hs; auto).
      assert (Hs' : Forall is_char rest) by (inversion Hs; auto).
      destruct (buildstring_then m tail st fl c t' Hb Hc' Hroom)
        as (m1 & tail1 & fl1 & E1 & Hb1 & Hroom1 & Hreg1 & Hcomp).
      unfold bind. rewrite E1.
      destruct (IH rest t' m1 tail1 (next_state st c) fl1) as (m' & E' & Happ & Hreg');
        auto.
      { lia. }
      exists m'. split; [exact E'|]. split; [now apply Hcomp|].
      eapply same_registers_trans; eauto.
Qed.

Lemma printstring_attached ws obj h s fuel :
  attached ws obj (AtHeader h) s -> Forall is_char s ->
  (length s + 1 < 2 * fuel)%nat ->
  printstring fuel ws false obj = Some s.
Proof.
  intros (_ & Hc) Hs Hfuel. unfold printstring.
  rewrite (plispstr_chars_at _ _ _ Hc Hs fuel Hfuel). cbn [app].
  now rewrite app_nil_r.
Qed.

Lemma seven_bit_chars s : Forall (fun c => 1 <= c < 128) s -> Forall is_char s.
Proof. apply Forall_impl. unfold is_char. intros c Hc. lia. Qed.

Lemma chars_no_zero s : Forall is_char s -> cstr s = s.
Proof.
  intros Hs. apply cstr_no_zero. apply forallb_forall. intros c Hc.
  rewrite Forall_forall in Hs. specialize (Hs c Hc). unfold is_char in Hs.
  destruct (Z.eqb_spec c 0); [lia|reflexivity].
Qed.

(** X20. [lispstring] builds the string of its text, a backslash dropped
    and the byte after it kept: for a text of characters 1 to 127 that does
    not end in a lone backslash, with a free cell for the header and one for
    every two characters, it returns the first free cell as a string that
    [printstring] prints as that text; the cells come from the free list and
    no cell in use is written. *)
Theorem lispstring_builds m s t :
  freelist_inv m ->
  Forall (fun c => 1 <= c < 128) s ->
  unbackslash s = Some t ->
  1 + (Z.of_nat (length t) + 1) / 2 <= Freespace m ->
  exists m',
    lispstring s m = Done (Freelist m) m' /\
    car (getobj (Workspace m') (Freelist m)) = STRING /\
    (forall fuel, (length t + 1 < 2 * fuel)%nat ->
       printstring fuel (Workspace m') false (Freelist m) = Some t) /\
    freelist_inv m' /\
    Freespace m' = Freespace m - 1 - (Z.of_nat (length t) + 1) / 2 /\
    (forall l p, freechain (Workspace m) (Freelist m) l -> ~ In p l ->
       getobj (Workspace m') p = getobj (Workspace m) p) /\
    same_registers m m'.
Proof.
  intros Hinv Hs7 Hu Hroom. pose proof (seven_bit_chars s Hs7) as Hs.
  assert (Hpos : 0 <= (Z.of_nat (length t) + 1) / 2) by (apply Z.div_pos; lia).
  destruct (newstring_spec m Hinv ltac:(lia)) as (m0 & fl0 & E0 & Hb0 & Hc0 & Hfr0 & Hreg0).
  assert (Hf : Freespace m = Z.of_nat (length (Freelist m :: fl0))).
  { destruct Hinv as (_ & l & Hc & Hf). now rewrite (freechain_inj _ _ _ _ Hc0 Hc). }
  cbn [length] in Hf.
  destruct (lispstring_loop_spec (length s) s t m0 (Freelist m) (AtHeader STRING) fl0)
    as (m' & E' & Happ & Hreg'); auto.
  { cbn [cells_needed]. lia. }
  exists m'. unfold lispstring, bind. rewrite E0, (chars_no_zero s Hs), E'.
  split; [reflexivity|].
  destruct Happ as (used & fl' & Eu & Hlen & Hl' & Hc' & Hf' & Hatt & Hfr).
  split; [exact (proj1 Hatt)|]. split.
  { intros fuel Hfuel. eapply printstring_attached; eauto.
    eapply unbackslash_chars; eauto. }
  split; [split; [exact Hl'|exists fl'; auto]|].
  split.
  { rewrite Hf', Hf. cbn [cells_needed] in Hlen. rewrite <- Hlen, Eu, length_app. lia. }
  split; [|eapply same_registers_trans; eauto].
  intros l p Hl Hp. rewrite (freechain_inj _ _ _ _ Hl Hc0) in Hp.
  rewrite Hfr.
  - apply Hfr0. intros ->. apply Hp. now left.
  - intros ->. apply Hp. now left.
  - intros Hin. apply Hp. now right.
Qed.

(** *** Reading a string *)

Lemma escape_then_quote s rest :
  Forall is_char s -> exists x xs, escape s ++ 34 :: rest = x :: xs /\ x <> -1.
Proof.
  intros Hs. destruct s as [|c s'].
  - exists 34, rest. split; [reflexivity|lia].
  - assert (Hc : 1 <= c < 256) by (inversion Hs; auto).
    unfold escape. cbn [flat_map]. destruct ((c =? 34) || (c =? 92)).
    + eexists 92, _. split; [reflexivity|lia].
    + eexists c, _. split; [reflexivity|lia].
Qed.

Lemma same_registers_with_Source r a b :
  same_registers a b -> same_registers (with_Source r a) (with_Source r b).
Proof.
  unfold same_registers. cbn. intros (H1 & H2 & H3 & H4 & H5 & H6 & H7 & H8 & _ & H10 & H11).
  repeat split; assumption.
Qed.

Lemma readstring_loop_spec rest : forall s m tail st fl ch fuel,
  Forall is_char s ->
  building m tail st fl ->
  cells_needed st s <= Z.of_nat (length fl) ->
  LastChar m = 0 ->
  ch :: Source m = escape s ++ 34 :: rest ->
  (length s < fuel)%nat ->
  exists m', readstring_loop fuel 34 true ch tail m = Done tt m' /\
             appended (Workspace m) fl m' tail st s /\
             same_registers (with_Source rest m) m'.
Proof.
  induction s as [|c s' IH]; intros m tail st fl ch fuel Hs Hb Hroom HL HS Hfuel;
    (destruct fuel as [|fuel]; [cbn [length] in Hfuel; lia|]).
  - cbn [escape flat_map app] in HS. injection HS as -> HS.
    exists m. split; [reflexivity|]. split; [now apply appended_nil|].
    unfold same_registers. cbn. rewrite HS. repeat split.
  - assert (Hc : 1 <= c < 256) by (inversion Hs; auto).
    assert (Hs' : Forall is_char s') by (inversion Hs; auto).
    destruct (escape_then_quote s' rest Hs') as (x & xs & Ex & Hx).
    assert (Hcommon : forall ma,
              building ma tail st fl -> LastChar ma = 0 ->
              Source ma = escape s' ++ 34 :: rest ->
              exists m',
                (tail' <- buildstring c tail ;;
                 ch2 <- gfun ;;
                 readstring_loop fuel 34 true ch2 tail') ma = Done tt m' /\
                appended (Workspace ma) fl m' tail st (c :: s') /\
                same_registers (with_Source rest ma) m').
    { intros ma Hba HLa HSa.
      destruct (buildstring_then ma tail st fl c s' Hba Hc Hroom)
        as (m1 & tail1 & fl1 & E1 & Hb1 & Hroom1 & Hreg1 & Hcomp).
      assert (HL1 : LastChar m1 = 0).
      { destruct Hreg1 as (_ & _ & _ & H & _). congruence. }
      assert (HS1 : Source m1 = x :: xs).
      { destruct Hreg1 as (_ & _ & _ & _ & _ & _ & _ & _ & H & _). congruence. }
      destruct (IH (with_Source xs m1) tail1 (next_state st c) fl1 x fuel)
        as (m' & E' & Happ & Hreg'); auto.
      { cbn [length] in Hfuel. lia. }
      exists m'. unfold bind at 1. rewrite E1. unfold bind at 1.
      rewrite (gfun_next m1 x xs HL1 HS1). split; [exact E'|].
      split; [apply Hcomp; exact Happ|].
      eapply same_registers_trans; [|exact Hreg'].
      apply (same_registers_with_Source rest) in Hreg1. exact Hreg1. }
    unfold escape in HS. cbn [flat_map] in HS. fold (escape s') in HS.
    cbn [readstring_loop].
    destruct ((c =? 34) || (c =? 92)) eqn:Ee.
    + cbn [app] in HS. injection HS as -> HS.
      change (negb (92 =? 34) && negb (92 =? -1)) with true. cbv beta iota.
      change (true && (92 =? 92)) with true. cbv beta iota.
      unfold bind at 1. rewrite (gfun_next m c _ HL HS).
      destruct (Hcommon (with_Source (escape s' ++ 34 :: rest) m)) as (m' & E' & Ha & Hr);
        auto.
      exists m'. split; [exact E'|]. split; [exact Ha|exact Hr].
    + cbn [app] in HS. injection HS as -> HS.
      apply orb_false_iff in Ee. destruct Ee as (E34 & E92).
      rewrite E34, E92. destruct (Z.eqb_spec c (-1)) as [|_]; [lia|].
      cbn [negb andb]. unfold bind at 1. unfold ret at 1. cbv beta iota.
      apply (Hcommon m); auto.
Qed.

Lemma readstring_spec m s rest fuel :
  freelist_inv m -> Forall is_char s -> LastChar m = 0 ->
  Source m = escape s ++ 34 :: rest ->
  1 + (Z.of_nat (length s) + 1) / 2 <= Freespace m ->
  (length s < fuel)%nat ->
  exists m',
    readstring fuel 34 true m = Done (Freelist m) m' /\
    car (getobj (Workspace m') (Freelist m)) = STRING /\
    (forall f, (length s + 1 < 2 * f)%nat ->
       printstring f (Workspace m') false (Freelist m) = Some s) /\
    freelist_inv m' /\
    Freespace m' = Freespace m - 1 - (Z.of_nat (length s) + 1) / 2 /\
    (forall l p, freechain (Workspace m) (Freelist m) l -> ~ In p l ->
       getobj (Workspace m') p = getobj (Workspace m) p) /\
    same_registers (with_Source rest m) m'.
Proof.
  intros Hinv Hs HL HS Hroom Hfuel.
  assert (Hpos : 0 <= (Z.of_nat (length s) + 1) / 2) by (apply Z.div_pos; lia).
  destruct (newstring_spec m Hinv ltac:(lia)) as (m0 & fl0 & E0 & Hb0 & Hc0 & Hfr0 & Hreg0).
  assert (Hf : Freespace m = Z.of_nat (length (Freelist m :: fl0))).
  { destruct Hinv as (_ & l & Hc & Hf). now rewrite (freechain_inj _ _ _ _ Hc0 Hc). }
  cbn [length] in Hf.
  destruct (escape_then_quote s rest Hs) as (x & xs & Ex & Hx).
  assert (HL0 : LastChar m0 = 0).
  { destruct Hreg0 as (_ & _ & _ & H & _). congruence. }
  assert (HS0 : Source m0 = x :: xs).
  { destruct Hreg0 as (_ & _ & _ & _ & _ & _ & _ & _ & H & _). congruence. }
  destruct (readstring_loop_spec rest s (with_Source xs m0) (Freelist m) (AtHeader STRING)
              fl0 x fuel) as (m' & E' & Happ & Hreg'); auto.
  { cbn [cells_needed]. lia. }
  exists m'. unfold readstring, bind. rewrite E0, (gfun_next m0 x xs HL0 HS0).
  destruct (Z.eqb_spec x (-1)) as [|_]; [contradiction|]. rewrite E'.
  split; [reflexivity|].
  destruct Happ as (used & fl' & Eu & Hlen & Hl' & Hc' & Hf' & Hatt & Hfr).
  split; [exact (proj1 Hatt)|]. split.
  { intros f Hfu. eapply printstring_attached; eauto. }
  split; [split; [exact Hl'|exists fl'; auto]|].
  split.
  { rewrite Hf', Hf. cbn [cells_needed] in Hlen. rewrite <- Hlen, Eu, length_app. lia. }
  split.
  - intros l p Hl Hp. rewrite (freechain_inj _ _ _ _ Hl Hc0) in Hp.
    rewrite Hfr.
    + apply Hfr0. intros ->. apply Hp. now left.
    + intros ->. apply Hp. now left.
    + intros Hin. apply Hp. now right.
  - eapply same_registers_trans; [|exact Hreg'].
    apply (same_registers_with_Source rest) in Hreg0. exact Hreg0.
Qed.

(** X21. A string is read back from what [printstring] prints readably: if
    a string of characters 1 to 127 prints plainly as [s] and readably as
    [text], then [nextitem], given [text] and whatever follows it, with a
    free cell for the header and one for every two characters, returns a new
    string that prints plainly as [s] again, leaves what follows [text]
    unread, and writes no cell that was in use. *)
Theorem printstring_read_back fuel ws form s text m rest fuel' :
  printstring fuel ws false form = Some s ->
  printstring fuel ws true form = Some text ->
  Forall (fun c => 1 <= c < 128) s ->
  freelist_inv m -> LastChar m = 0 ->
  Source m = text ++ rest ->
  1 + (Z.of_nat (length s) + 1) / 2 <= Freespace m ->
  (length s + 2 < fuel')%nat ->
  exists m',
    nextitem fuel' m = Done (Freelist m) m' /\
    car (getobj (Workspace m') (Freelist m)) = STRING /\
    (forall f, (length s + 1 < 2 * f)%nat ->
       printstring f (Workspace m') false (Freelist m) = Some s) /\
    Source m' = rest /\
    freelist_inv m' /\
    Freespace m' = Freespace m - 1 - (Z.of_nat (length s) + 1) / 2 /\
    (forall l p, freechain (Workspace m) (Freelist m) l -> ~ In p l ->
       getobj (Workspace m') p = getobj (Workspace m) p).
Proof.
  intros Hplain Hread Hs7 Hinv HL HS Hroom Hfuel.
  pose proof (seven_bit_chars s Hs7) as Hs.
  assert (Et : text = 34 :: escape s ++ [34]).
  { unfold printstring in Hplain, Hread. rewrite plispstr_readably in Hread.
    destruct (plispstr fuel ws false (cdr (getobj ws form))) as [s0|]; [|discriminate].
    cbn [option_map app] in *. rewrite app_nil_r in Hplain. congruence. }
  subst text. cbn [app] in HS. rewrite <- app_assoc in HS. cbn [app] in HS.
  destruct fuel' as [|[|f]]; try lia.
  destruct (readstring_spec (with_Source (escape s ++ 34 :: rest) m) s rest (S f))
    as (m' & E' & Hcar & Hprint & Hinv' & Hfs' & Hfr & Hreg); auto.
  { lia. }
  exists m'. split.
  { cbn [nextitem]. unfold bind at 1. rewrite (gfun_next m 34 _ HL HS).
    cbn [skip_spaces]. change (issp 34) with false. cbv beta iota.
    unfold bind at 1, ret at 1. cbv beta iota.
    change (34 =? 59) with false. cbv beta iota.
    unfold bind at 1, ret at 1. cbv beta iota.
    change (34 =? 10) with false. cbv beta iota.
    unfold bind at 1, ret at 1. cbv beta iota.
    exact E'. }
  split; [exact Hcar|]. split; [exact Hprint|].
  split; [destruct Hreg as (_ & _ & _ & _ & _ & _ & _ & _ & H & _); exact H|].
  split; [exact Hinv'|]. split; [exact Hfs'|exact Hfr].
Qed.
(** ** The global environment: [defun], [defvar] and lookup *)

Lemma SYMBOL_not_valid : ~ valid SYMBOL.
Proof. intros H. apply valid_ge_PAIR in H. unfold SYMBOL, PAIR in H. lia. Qed.

Lemma list_cells_car_in ws g cells pairs c :
  list_cells ws g cells pairs -> In c cells -> In (car (getobj ws c)) pairs.
Proof.
  induction 1 as [|p cells xs Hv Hl IH]; cbn [In]; [tauto|].
  intros [->|Hin]; [now left|right; auto].
Qed.

Lemma genv_pair_not_cell ws fl g cells pairs p :
  genv_ok ws fl g cells pairs -> In p pairs -> ~ In p cells.
Proof.
  intros (Hl & _ & Hp) Hin Hc.
  destruct (Hp p Hin) as (_ & _ & Hsym).
  pose proof (list_cells_car_in _ _ _ _ _ Hl Hc) as Hq.
  destruct (Hp _ Hq) as (_ & ((Hv & _) & _)).
  rewrite Hsym in Hv. now apply SYMBOL_not_valid.
Qed.

Lemma genv_var_not_pair ws fl g cells pairs p q :
  genv_ok ws fl g cells pairs -> In p pairs -> In q pairs -> car (getobj ws p) <> q.
Proof.
  intros (_ & _ & Hp) Hin Hq E.
  destruct (Hp p Hin) as (_ & _ & Hsym).
  destruct (Hp q Hq) as (_ & ((Hv & _) & _)).
  rewrite <- E, Hsym in Hv. now apply SYMBOL_not_valid.
Qed.

Lemma find_ext {A : Type} (f g : A -> bool) l :
  (forall x, In x l -> f x = g x) -> find f l = find g l.
Proof.
  induction l as [|x l IH]; intros H; cbn [find]; [reflexivity|].
  rewrite (H x) by now left. destruct (g x); [reflexivity|].
  apply IH. intros y Hy. apply H. now right.
Qed.

(** Writes that leave the cells in use alone leave the environment and what
    it binds alone. *)
Lemma genv_ok_frame ws ws' fl fl' g cells pairs :
  genv_ok ws fl g cells pairs ->
  (forall q, ~ In q fl -> getobj ws' q = getobj ws q) ->
  (forall q, In q fl' -> In q fl) ->
  genv_ok ws' fl' g cells pairs /\
  forall n, first_binding ws' n pairs = first_binding ws n pairs.
Proof.
  intros (Hl & Hc & Hp) Hfr Hsub. split; [split; [|split]|].
  - apply (list_cells_ext ws); auto.
  - intros c Hin Hf. apply (Hc c Hin). auto.
  - intros p Hin. destruct (Hp p Hin) as ((Hv & Hn) & (Hv' & Hn') & Hs).
    rewrite (Hfr p Hn), (Hfr _ Hn'). unfold in_use. repeat split; auto.
  - intros n. unfold first_binding. erewrite find_ext; [reflexivity|].
    intros p Hin. destruct (Hp p Hin) as ((Hv & Hn) & (Hv' & Hn') & Hs).
    unfold binds. now rewrite (Hfr p Hn), (Hfr _ Hn').
Qed.

(** [cons] with the free list in hand. *)
Lemma cons_tracked m a d fl :
  freelist_inv m -> freechain (Workspace m) (Freelist m) fl -> fl <> [] ->
  exists m' b fl',
    fl = b :: fl' /\
    cons a d m = Done b m' /\
    in_use fl' b /\
    getobj (Workspace m') b = mkobj a d /\
    (forall q, q <> b -> getobj (Workspace m') q = getobj (Workspace m) q) /\
    freelist_inv m' /\
    freechain (Workspace m') (Freelist m') fl' /\
    same_registers m m'.
Proof.
  intros Hinv Hc Hne. destruct fl as [|b fl']; [contradiction|].
  destruct (freechain_head _ _ _ _ Hc) as (Ehead & Hvb & Hnb & Hc').
  assert (Hfs : Freespace m <> 0).
  { destruct Hinv as (_ & l & Hcl & Hf). rewrite (freechain_inj _ _ _ _ Hcl Hc) in Hf.
    cbn [length] in Hf. lia. }
  destruct (cons_spec m a d Hinv Hfs) as (m' & E & _ & Hg & Hfr & Hinv' & _ & Hreg & Efl).
  rewrite Ehead in *.
  exists m', b, fl'. split; [reflexivity|]. split; [exact E|].
  split; [split; assumption|]. split; [exact Hg|]. split; [exact Hfr|].
  split; [exact Hinv'|]. split; [|exact Hreg].
  rewrite Efl. apply (freechain_ext (Workspace m)); [exact Hc'|].
  intros q Hq. apply Hfr. intros ->. contradiction.
Qed.

(** The tail of [sp_defun] and [sp_defvar]: the global environment after
    [var] is bound to [val]. *)
Lemma define_global_spec m fuel var val fl cells pairs :
  freelist_inv m ->
  freechain (Workspace m) (Freelist m) fl ->
  (2 <= length fl)%nat ->
  genv_ok (Workspace m) fl (GlobalEnv m) cells pairs ->
  in_use fl var ->
  car (getobj (Workspace m) var) = SYMBOL ->
  (length pairs < fuel)%nat ->
  let name := cdr (getobj (Workspace m) var) in
  let old := first_binding (Workspace m) name pairs in
  exists m' fl' cells' pairs',
    define_global fuel var val m = Done var m' /\
    freelist_inv m' /\
    freechain (Workspace m') (Freelist m') fl' /\
    (forall q, In q fl' -> In q fl) /\
    genv_ok (Workspace m') fl' (GlobalEnv m') cells' pairs' /\
    (length pairs' <= S (length pairs))%nat /\
    first_binding (Workspace m') name pairs' <> NULL /\
    cdr (getobj (Workspace m') (first_binding (Workspace m') name pairs')) = val /\
    (forall n, n <> name ->
       first_binding (Workspace m') n pairs' = first_binding (Workspace m) n pairs /\
       cdr (getobj (Workspace m') (first_binding (Workspace m) n pairs))
       = cdr (getobj (Workspace m) (first_binding (Workspace m) n pairs))) /\
    (forall q, ~ In q fl -> q <> old -> getobj (Workspace m') q = getobj (Workspace m) q) /\
    (old <> NULL -> GlobalEnv m' = GlobalEnv m /\ Freespace m' = Freespace m) /\
    (old = NULL -> cdr (getobj (Workspace m') (GlobalEnv m')) = GlobalEnv m /\
                   Freespace m' = Freespace m - 2) /\
    same_registers (with_GlobalEnv (GlobalEnv m') m) m'.
Proof.
  intros Hinv Hc Hroom Hok (Hvv & Hnv) Hsym Hfuel name old.
  pose proof Hok as (Hl & Hcells & Hpairs).
  pose proof Hinv as (Hlen & _).
  assert (Ev : value fuel name (GlobalEnv m) m = Done old m).
  { unfold value. now rewrite (value_loop_spec _ _ pairs cells). }
  unfold define_global, bind at 1. unfold get_machine at 1. fold name.
  unfold bind at 1. rewrite Ev.
  destruct (Z.eqb_spec old NULL) as [Eold|Nold]; cbn [negb].
  - (* a new binding *)
    destruct (cons_tracked m var val fl Hinv Hc) as
      (m1 & b & fl1 & Efl & E1 & (Hvb & Hnb) & Gb & Fr1 & Hinv1 & Hc1 & Hreg1).
    { destruct fl; [cbn [length] in Hroom; lia|discriminate]. }
    destruct (cons_tracked m1 b (GlobalEnv m1) fl1 Hinv1 Hc1) as
      (m2 & g & fl2 & Efl1 & E2 & (Hvg & Hng) & Gg & Fr2 & Hinv2 & Hc2 & Hreg2).
    { subst fl. destruct fl1; [cbn [length] in Hroom; lia|discriminate]. }
    assert (Eg1 : GlobalEnv m1 = GlobalEnv m) by (destruct Hreg1 as (_ & H & _); exact H).
    unfold bind at 1. unfold bind at 1. rewrite E1. unfold bind at 1.
    unfold get_machine at 1. unfold bind at 1. rewrite E2. unfold modify, ret.
    subst fl fl1.
    assert (Hbg : b <> g) by (intros ->; apply Hnb; now left).
    assert (Hsub : forall q, In q fl2 -> In q (b :: g :: fl2)) by (intros q Hq; now do 2 right).
    assert (Fr : forall q, ~ In q (b :: g :: fl2) ->
                 getobj (Workspace m2) q = getobj (Workspace m) q).
    { intros q Hq. rewrite Fr2, Fr1; auto.
      - intros ->. apply Hq. now left.
      - intros ->. apply Hq. right. now left. }
    destruct (genv_ok_frame _ (Workspace m2) _ fl2 _ _ _ Hok Fr Hsub) as (Hok2 & Hfb).
    destruct Hok2 as (Hl2 & Hcells2 & Hpairs2).
    assert (Gb2 : getobj (Workspace m2) b = mkobj var val) by (rewrite Fr2; auto).
    assert (Gv2 : getobj (Workspace m2) var = getobj (Workspace m) var) by (apply Fr; exact Hnv).
    assert (Hbind : forall n, binds (Workspace m2) n b = (name =? n)).
    { intros n. unfold binds. rewrite Gb2. cbn [car]. rewrite Gv2. fold name.
      destruct (Z.eqb_spec b NULL) as [->|_]; [now apply valid_not_null in Hvb|].
      reflexivity. }
    exists (with_GlobalEnv g m2), fl2, (g :: cells), (b :: pairs).
    cbn [Workspace GlobalEnv Freespace Freelist with_GlobalEnv].
    split; [reflexivity|]. split; [exact Hinv2|]. split; [exact Hc2|].
    split; [exact Hsub|].
    split; [split; [|split]|].
    + assert (Eb : b = car (getobj (Workspace m2) g)) by now rewrite Gg.
      rewrite Eb. constructor; [exact Hvg|]. rewrite Gg. cbn [cdr]. rewrite Eg1. exact Hl2.
    + intros c [<-|Hin]; [exact Hng|now apply Hcells2].
    + intros p [<-|Hin]; [|now apply Hpairs2].
      rewrite Gb2. cbn [car]. rewrite Gv2. unfold in_use. repeat split; auto;
        intros Hq; first [apply Hnb; now right | apply Hnv; now do 2 right].
    + split; [cbn [length]; lia|].
      split.
      { unfold first_binding. cbn [find]. rewrite Hbind, Z.eqb_refl.
        now apply valid_not_null. }
      split.
      { unfold first_binding. cbn [find]. rewrite Hbind, Z.eqb_refl. now rewrite Gb2. }
      split.
      { intros n Hn. split.
        - unfold first_binding at 1. cbn [find]. rewrite Hbind.
          destruct (Z.eqb_spec name n) as [E|_]; [congruence|]. apply Hfb.
        - destruct (Z.eqb_spec (first_binding (Workspace m) n pairs) NULL) as [E|N].
          + rewrite E. unfold getobj.
            replace (validb NULL) with false; [reflexivity|].
            symmetry. apply not_true_is_false. intros H. now apply valid_not_null in H.
          + destruct (first_binding_not_null _ _ _ N) as (Hin & _).
            destruct (Hpairs _ Hin) as ((_ & Hnf) & _). now rewrite Fr. }
      split; [intros q Hq _; now apply Fr|].
      split; [intros H; contradiction|].
      split.
      { intros _. rewrite Gg. cbn [cdr]. split; [exact Eg1|].
        destruct Hinv as (_ & l & Hcl & Hf), Hinv2 as (_ & l2 & Hcl2 & Hf2).
        rewrite (freechain_inj _ _ _ _ Hcl Hc) in Hf.
        rewrite (freechain_inj _ _ _ _ Hcl2 Hc2) in Hf2.
        rewrite Hf, Hf2. cbn [length]. lia. }
      destruct Hreg1 as (R1 & R2 & R3 & R4 & R5 & R6 & R7 & R8 & R9 & R10 & R11).
      destruct Hreg2 as (S1 & S2 & S3 & S4 & S5 & S6 & S7 & S8 & S9 & S10 & S11).
      unfold same_registers. cbn. repeat split; congruence.
  - (* the binding is there *)
    destruct (first_binding_not_null _ _ _ Nold) as (Hin & Hb). fold old in Hin, Hb.
    destruct (Hpairs old Hin) as ((Hvo & Hno) & (Hvc & Hnc) & Hs).
    unfold bind at 1. unfold store_cdr, modify, ret.
    set (ws' := set_cdr (Workspace m) old val).
    assert (Go : getobj ws' old = mkobj (car (getobj (Workspace m) old)) val)
      by (apply getobj_set_cdr_eq; auto).
    assert (Fr : forall q, q <> old -> getobj ws' q = getobj (Workspace m) q)
      by (intros q Hq; apply getobj_set_cdr_ne; congruence).
    assert (Hcar : forall q, car (getobj ws' q) = car (getobj (Workspace m) q)).
    { intros q. destruct (Z.eq_dec q old) as [->|Hq]; [now rewrite Go|now rewrite Fr]. }
    assert (Hvar : forall p, In p pairs ->
              getobj ws' (car (getobj ws' p)) = getobj (Workspace m) (car (getobj (Workspace m) p))).
    { intros p Hp. rewrite Hcar. apply Fr.
      now apply (genv_var_not_pair _ _ _ _ _ p old Hok). }
    assert (Hfb : forall n, first_binding ws' n pairs = first_binding (Workspace m) n pairs).
    { intros n. unfold first_binding. erewrite find_ext; [reflexivity|].
      intros p Hp. unfold binds. now rewrite (Hvar p Hp). }
    exists (with_Workspace ws' m), fl, cells, pairs.
    cbn [Workspace GlobalEnv Freespace Freelist with_Workspace].
    split; [reflexivity|].
    split.
    { destruct Hinv as (_ & l & Hcl & Hf). unfold freelist_inv.
      cbn [Workspace Freelist Freespace with_Workspace].
      split; [unfold ws'; now rewrite length_set_cdr|].
      exists l. split; [|exact Hf]. unfold ws', set_cdr. apply freechain_setobj; auto.
      now rewrite (freechain_inj _ _ _ _ Hcl Hc). }
    split; [unfold ws', set_cdr; apply freechain_setobj; auto|].
    split; [auto|].
    split; [split; [|split]|].
    + apply (list_cells_ext (Workspace m)); [exact Hl|].
      intros c Hcin. apply Fr. intros ->.
      now apply (genv_pair_not_cell _ _ _ _ _ old Hok).
    + exact Hcells.
    + intros p Hp. destruct (Hpairs p Hp) as (H1 & H2 & H3).
      rewrite (Hvar p Hp), Hcar. auto.
    + rewrite Hfb. fold old.
      split; [lia|].
      split; [exact Nold|]. split; [now rewrite Go|].
      split.
      { intros n Hn. split; [apply Hfb|].
        destruct (Z.eq_dec (first_binding (Workspace m) n pairs) old) as [E|N].
        - exfalso. destruct (Z.eqb_spec old NULL); [contradiction|].
          assert (Hbn : binds (Workspace m) n old = true).
          { rewrite <- E. apply first_binding_not_null. rewrite E. exact Nold. }
          unfold binds in Hb, Hbn. apply andb_true_iff in Hb, Hbn.
          destruct Hb as (_ & Hb), Hbn as (_ & Hbn).
          apply Z.eqb_eq in Hb, Hbn. congruence.
        - now rewrite Fr. }
      split; [intros q _ Hq; now apply Fr|].
      split; [intros _; split; reflexivity|].
      split; [intros H; contradiction|].
      unfold same_registers. cbn. repeat split.
Qed.

(** [intern] with the free list in hand; the cells of the free list hold no
    symbol. *)
Lemma intern_tracked m name fl :
  freelist_inv m -> freechain (Workspace m) (Freelist m) fl -> fl <> [] ->
  (forall q, In q fl -> car (getobj (Workspace m) q) = NULL) ->
  exists p m' fl',
    intern name m = Done p m' /\
    in_use fl' p /\
    getobj (Workspace m') p = mkobj SYMBOL name /\
    freelist_inv m' /\
    freechain (Workspace m') (Freelist m') fl' /\
    (fl' = fl \/ fl = p :: fl') /\
    (forall q, ~ In q fl -> getobj (Workspace m') q = getobj (Workspace m) q) /\
    same_registers m m'.
Proof.
  intros Hinv Hc Hne Hfree. pose proof Hinv as (Hl & _).
  unfold intern.
  destruct (scan_workspace (fun o => (car o =? SYMBOL) && (cdr o =? name)) (Workspace m) 0)
    as [k|] eqn:Es.
  - apply scan_workspace_found in Es. destruct Es as (Hk & Hfk & _).
    rewrite Nat.sub_0_r in Hfk. rewrite Hl in Hk.
    assert (Hk' : (k < Z.to_nat WORKSPACESIZE)%nat) by lia.
    rewrite <- getobj_nth in Hfk by exact Hk'.
    apply andb_true_iff in Hfk. destruct Hfk as (H1 & H2).
    apply Z.eqb_eq in H1, H2.
    exists (cell_addr k), m, fl. split; [reflexivity|].
    split.
    { split; [now apply valid_cell_addr|]. intros Hin. apply Hfree in Hin.
      rewrite Hin in H1. discriminate. }
    split; [destruct (getobj (Workspace m) (cell_addr k)); cbn [car cdr] in *; congruence|].
    split; [exact Hinv|]. split; [exact Hc|]. split; [now left|].
    split; [reflexivity|apply same_registers_refl].
  - change (symbol name m) with (cons SYMBOL name m).
    destruct (cons_tracked m SYMBOL name fl Hinv Hc Hne) as
      (m1 & b & fl1 & Efl & E1 & Hb & Gb & Fr1 & Hinv1 & Hc1 & Hreg1).
    exists b, m1, fl1. split; [exact E1|]. split; [exact Hb|]. split; [exact Gb|].
    split; [exact Hinv1|]. split; [exact Hc1|]. split; [now right|].
    split; [|exact Hreg1].
    intros q Hq. apply Fr1. intros ->. apply Hq. rewrite Efl. now left.
Qed.

Lemma getobj_NULL ws : getobj ws NULL = mkobj 0 0.
Proof.
  unfold getobj. destruct (validb NULL) eqn:E; [|reflexivity].
  now apply valid_not_null in E.
Qed.

(** X22. [defun] and lookup: on a well-formed global environment, with four
    free cells, [sp_defun] applied to [(name . body)] returns the symbol and
    leaves a global environment in which [value] finds a binding of that name
    whose value is [(lambda . body)], and finds for every other name the
    binding it found before, with the value it had; a name that was bound is
    rebound in place, the environment is not extended. *)
Theorem defun_then_lookup m fuel args env fl cells pairs :
  freelist_inv m ->
  freechain (Workspace m) (Freelist m) fl ->
  (4 <= length fl)%nat ->
  (forall q, In q fl -> car (getobj (Workspace m) q) = NULL) ->
  genv_ok (Workspace m) fl (GlobalEnv m) cells pairs ->
  in_use fl args ->
  in_use fl (car (getobj (Workspace m) args)) ->
  symbolp (Workspace m) (car (getobj (Workspace m) args)) = true ->
  (length pairs < fuel)%nat ->
  let var := car (getobj (Workspace m) args) in
  let name := cdr (getobj (Workspace m) var) in
  exists m' pair,
    sp_defun fuel args env m = Done var m' /\
    freelist_inv m' /\
    (exists fl' cells' pairs',
       freechain (Workspace m') (Freelist m') fl' /\
       genv_ok (Workspace m') fl' (GlobalEnv m') cells' pairs') /\
    value (S fuel) name (GlobalEnv m') m' = Done pair m' /\
    pair <> NULL /\
    getobj (Workspace m') (car (getobj (Workspace m') (cdr (getobj (Workspace m') pair))))
    = mkobj SYMBOL (sym LAMBDA) /\
    cdr (getobj (Workspace m') (cdr (getobj (Workspace m') pair)))
    = cdr (getobj (Workspace m) args) /\
    (forall n, n <> name ->
       value (S fuel) n (GlobalEnv m') m' = Done (first_binding (Workspace m) n pairs) m' /\
       cdr (getobj (Workspace m') (first_binding (Workspace m) n pairs))
       = cdr (getobj (Workspace m) (first_binding (Workspace m) n pairs))) /\
    (first_binding (Workspace m) name pairs <> NULL -> GlobalEnv m' = GlobalEnv m).
Proof.
  intros Hinv Hc Hroom Hfree Hok (Hva & Hna) (Hvv & Hnv) Hsymp Hfuel var name.
  assert (Hsym : car (getobj (Workspace m) var) = SYMBOL).
  { unfold symbolp, type_of in Hsymp. apply andb_true_iff in Hsymp.
    destruct Hsymp as (_ & H). now apply Z.eqb_eq in H. }
  (* the symbol lambda *)
  destruct (intern_tracked m (sym LAMBDA) fl Hinv Hc) as
    (l & m1 & fl1 & E1 & (Hvl & Hnl) & Gl & Hinv1 & Hc1 & Hfl1 & Fr1 & Hreg1); auto.
  { destruct fl; [cbn [length] in Hroom; lia|discriminate]. }
  assert (Hsub1 : forall q, In q fl1 -> In q fl).
  { destruct Hfl1 as [->| ->]; auto. intros q Hq. now right. }
  assert (Hlen1 : (3 <= length fl1)%nat).
  { destruct Hfl1 as [->| ->]; cbn [length] in *; lia. }
  (* the value (lambda . body) *)
  destruct (cons_tracked m1 l (cdr (getobj (Workspace m) args)) fl1 Hinv1 Hc1) as
    (m2 & v & fl2 & Efl2 & E2 & (Hvval & Hnval) & Gv & Fr2 & Hinv2 & Hc2 & Hreg2).
  { destruct fl1; [cbn [length] in Hlen1; lia|discriminate]. }
  assert (Hsub2 : forall q, In q fl2 -> In q fl).
  { intros q Hq. apply Hsub1. rewrite Efl2. now right. }
  assert (Fr : forall q, ~ In q fl -> getobj (Workspace m2) q = getobj (Workspace m) q).
  { intros q Hq. rewrite Fr2, Fr1; auto. intros ->. apply Hq, Hsub1. rewrite Efl2. now left. }
  assert (Gl2 : getobj (Workspace m2) l = mkobj SYMBOL (sym LAMBDA)).
  { rewrite Fr2; auto. intros ->. apply Hnl. rewrite Efl2. now left. }
  assert (Eg2 : GlobalEnv m2 = GlobalEnv m).
  { destruct Hreg1 as (_ & H1 & _), Hreg2 as (_ & H2 & _). congruence. }
  destruct (genv_ok_frame _ (Workspace m2) _ fl2 _ _ _ Hok Fr Hsub2) as (Hok2 & Hfb2).
  rewrite <- Eg2 in Hok2.
  assert (Gvar : getobj (Workspace m2) var = getobj (Workspace m) var) by now apply Fr.
  destruct (define_global_spec m2 fuel var v fl2 cells pairs Hinv2 Hc2) as
    (m' & fl' & cells' & pairs' & E' & Hinv' & Hc' & Hsub' & Hok' & Hlen' & Hnn & Hval
       & Hother & Fr' & Hold & _ & _); auto.
  { subst fl1. cbn [length] in Hlen1. lia. }
  { split; [exact Hvv|]. intros Hq. apply Hnv. now apply Hsub2. }
  { now rewrite Gvar. }
  rewrite Gvar in Hnn, Hval, Hother, Fr', Hold. fold name in Hnn, Hval, Hother, Fr', Hold.
  rewrite Hfb2 in Fr', Hold.
  assert (Ev : forall n, value (S fuel) n (GlobalEnv m') m'
                         = Done (first_binding (Workspace m') n pairs') m').
  { intros n. unfold value. destruct Hok' as (Hl' & _).
    rewrite (value_loop_spec _ _ pairs' cells'); [reflexivity|exact Hl'|lia]. }
  exists m', (first_binding (Workspace m') name pairs').
  split.
  { unfold sp_defun, bind at 1. unfold rd_car at 1.
    unfold bind at 1. unfold get_machine at 1. rewrite Hsymp. cbn [negb].
    unfold bind at 1. unfold bsymbol. fold (sym LAMBDA). rewrite E1.
    unfold bind at 1. unfold rd_cdr at 1.
    rewrite (Fr1 args Hna). unfold bind at 1. rewrite E2. exact E'. }
  split; [exact Hinv'|].
  split; [exists fl', cells', pairs'; auto|].
  split; [apply Ev|]. split; [exact Hnn|].
  assert (Hvold : v <> first_binding (Workspace m) name pairs).
  { intros E. destruct (Z.eq_dec v NULL) as [->|N]; [now apply valid_not_null in Hvval|].
    rewrite E in N. destruct (first_binding_not_null _ _ _ N) as (Hin & _).
    destruct Hok as (_ & _ & Hp). destruct (Hp _ Hin) as ((_ & Hnf) & _).
    apply Hnf. rewrite <- E. apply Hsub1. rewrite Efl2. now left. }
  assert (Hlold : l <> first_binding (Workspace m) name pairs).
  { intros E. destruct (Z.eq_dec l NULL) as [->|N]; [now apply valid_not_null in Hvl|].
    rewrite E in N. destruct (first_binding_not_null _ _ _ N) as (Hin & _).
    destruct Hok2 as (_ & _ & Hp). destruct (Hp _ Hin) as (_ & ((Hvc & _) & _)).
    rewrite <- E, Gl2 in Hvc. cbn [car] in Hvc. now apply SYMBOL_not_valid. }
  rewrite Hval.
  assert (Gv' : getobj (Workspace m') v = mkobj l (cdr (getobj (Workspace m) args))).
  { rewrite Fr'; auto. }
  assert (Gl' : getobj (Workspace m') l = mkobj SYMBOL (sym LAMBDA)).
  { rewrite Fr'; auto. intros Hq. apply Hnl. rewrite Efl2. now right. }
  rewrite Gv'. cbn [car cdr]. split; [exact Gl'|]. split; [reflexivity|].
  split.
  - intros n Hn. destruct (Hother n Hn) as (H1 & H2). rewrite Hfb2 in H1, H2.
    rewrite Ev, H1. split; [reflexivity|]. rewrite H2.
    destruct (Z.eq_dec (first_binding (Workspace m) n pairs) NULL) as [E|N].
    + rewrite E, !getobj_NULL. reflexivity.
    + destruct (first_binding_not_null _ _ _ N) as (Hin & _).
      destruct Hok as (_ & _ & Hp). destruct (Hp _ Hin) as ((_ & Hnf) & _).
      now rewrite Fr.
  - intros Hb. destruct (Hold Hb) as (Eg & _). congruence.
Qed.

(** X23. [defvar] and lookup: [sp_defvar] applied to [(name)] or
    [(name form)] evaluates [form], if there is one, in the environment it
    is given, with the flag [NOESC] set for the time of the evaluation, and
    binds the name globally to the result ([nil] without a form): afterwards
    [value] finds a binding of the name with that value in the global
    environment, and for every other name the binding it found before, with
    the value it had. *)
Theorem defvar_then_lookup (ev : Z -> Z -> M Z) m fuel args env v m1 fl cells pairs :
  let var := car (getobj (Workspace m) args) in
  let rest := cdr (getobj (Workspace m) args) in
  symbolp (Workspace m) var = true ->
  (if rest =? NULL then v = NULL /\ m1 = m
   else exists m0, ev (car (getobj (Workspace m) rest)) env (setflag NOESC m) = Done v m0 /\
                   m1 = clrflag NOESC m0) ->
  freelist_inv m1 ->
  freechain (Workspace m1) (Freelist m1) fl ->
  (2 <= length fl)%nat ->
  genv_ok (Workspace m1) fl (GlobalEnv m1) cells pairs ->
  in_use fl var ->
  car (getobj (Workspace m1) var) = SYMBOL ->
  (length pairs < fuel)%nat ->
  let name := cdr (getobj (Workspace m1) var) in
  exists m' pair,
    sp_defvar ev fuel args env m = Done var m' /\
    freelist_inv m' /\
    (exists fl' cells' pairs',
       freechain (Workspace m') (Freelist m') fl' /\
       genv_ok (Workspace m') fl' (GlobalEnv m') cells' pairs') /\
    value (S fuel) name (GlobalEnv m') m' = Done pair m' /\
    pair <> NULL /\
    cdr (getobj (Workspace m') pair) = v /\
    (forall n, n <> name ->
       value (S fuel) n (GlobalEnv m') m' = Done (first_binding (Workspace m1) n pairs) m' /\
       cdr (getobj (Workspace m') (first_binding (Workspace m1) n pairs))
       = cdr (getobj (Workspace m1) (first_binding (Workspace m1) n pairs))) /\
    (first_binding (Workspace m1) name pairs <> NULL -> GlobalEnv m' = GlobalEnv m1).
Proof.
  intros var rest Hsymp Hinit Hinv Hc Hroom Hok Hvar Hsym Hfuel name.
  destruct (define_global_spec m1 fuel var v fl cells pairs Hinv Hc Hroom Hok Hvar Hsym Hfuel)
    as (m' & fl' & cells' & pairs' & E' & Hinv' & Hc' & Hsub' & Hok' & Hlen' & Hnn & Hval
          & Hother & Fr' & Hold & _ & _).
  fold name in Hnn, Hval, Hother, Fr', Hold.
  assert (Ev : forall n, value (S fuel) n (GlobalEnv m') m'
                         = Done (first_binding (Workspace m') n pairs') m').
  { intros n. unfold value. destruct Hok' as (Hl' & _).
    rewrite (value_loop_spec _ _ pairs' cells'); [reflexivity|exact Hl'|lia]. }
  exists m', (first_binding (Workspace m') name pairs').
  split.
  { unfold sp_defvar, bind at 1. unfold rd_car at 1.
    unfold bind at 1. unfold get_machine at 1. fold var. rewrite Hsymp. cbn [negb].
    unfold bind at 1. unfold rd_cdr at 1. fold rest. unfold bind at 1.
    destruct (Z.eqb_spec rest NULL) as [E|N]; cbn [negb].
    - destruct Hinit as (-> & ->). unfold ret at 1. exact E'.
    - destruct Hinit as (m0 & E0 & ->).
      unfold bind at 1. unfold modify at 1. unfold bind at 1. unfold rd_car at 1.
      cbn [Workspace setflag with_Flags]. unfold bind at 1.
      fold (setflag NOESC m). rewrite E0.
      unfold bind at 1. unfold modify at 1. unfold ret at 1. exact E'. }
  split; [exact Hinv'|].
  split; [exists fl', cells', pairs'; auto|].
  split; [apply Ev|]. split; [exact Hnn|]. split; [exact Hval|].
  split.
  - intros n Hn. destruct (Hother n Hn) as (H1 & H2).
    rewrite Ev, H1. split; [reflexivity|exact H2].
  - intros Hb. destruct (Hold Hb) as (Eg & _). exact Eg.
Qed.
(** ** The evaluator: [quote] *)

(** X24. [quote] returns its argument unevaluated: on a machine that is not
    short of stack or of free cells and has no escape pending, [eval] of
    [(quote x)] returns [x] itself, whatever [x] is, writes no cell and
    changes nothing but [Context]. *)
Theorem eval_quote m fuel depth TC form env q args x :
  (depth < StackLimit m)%nat ->
  Z.shiftr WORKSPACESIZE 4 < Freespace m ->
  tstflag ESCAPE m = false ->
  tstflag NOESC m = true \/ SerialIn m = [] ->
  valid form -> getobj (Workspace m) form = mkobj q args ->
  valid q -> getobj (Workspace m) q = mkobj SYMBOL (sym QUOTE) ->
  valid args -> getobj (Workspace m) args = mkobj x NULL ->
  x = NULL \/ valid x ->
  eval (S (S (S fuel))) depth TC form env m = Done x (with_Context QUOTE m).
Proof.
  intros Hstack Hfree Hesc Hser Hvf Gf Hvq Gq Hva Ga Hx.
  pose proof (valid_ge_PAIR _ Hvq) as Hq16.
  pose proof (valid_not_null _ Hvf) as Hf0.
  pose proof (valid_not_null _ Hvq) as Hq0.
  pose proof (valid_not_null _ Hva) as Ha0.
  remember (S (S fuel)) as fuel' eqn:Efuel.
  cbn [eval]. unfold bind at 1. unfold get_machine at 1.
  destruct (Nat.leb_spec (StackLimit m) depth) as [|_]; [lia|].
  unfold bind at 1. unfold ret at 1.
  destruct (Z.leb_spec (Freespace m) (Z.shiftr WORKSPACESIZE 4)) as [|_]; [lia|].
  unfold bind at 1. unfold ret at 1.
  unfold bind at 1. unfold get_machine at 1. rewrite Hesc.
  unfold bind at 1. unfold ret at 1.
  assert (Et : (if negb (tstflag NOESC m) then testescape else ret tt) m = Done tt m).
  { destruct Hser as [-> | Hs]; [reflexivity|].
    destruct (tstflag NOESC m); [reflexivity|]. cbn [negb].
    unfold testescape. now rewrite Hs, Hesc. }
  unfold bind at 1. rewrite Et.
  destruct (Z.eqb_spec form NULL) as [|_]; [contradiction|].
  unfold bind at 1. unfold get_machine at 1.
  unfold type_of, symbolp, type_of. rewrite Gf. cbn [car cdr].
  destruct (Z.leb_spec q STRING) as [|_]; [unfold STRING, PAIR in *; lia|].
  rewrite andb_false_r.
  destruct (Z.eqb_spec q SYMBOL) as [|_]; [unfold SYMBOL, PAIR in *; lia|].
  rewrite andb_false_r.
  destruct (Z.eqb_spec q CODE) as [|_]; [unfold CODE, PAIR in *; lia|].
  destruct (Z.eqb_spec q NULL) as [|_]; [contradiction|].
  assert (Hlist : listp (Workspace m) args = true).
  { unfold listp, type_of. rewrite Ga. cbn [car].
    destruct (Z.eqb_spec args NULL); [reflexivity|].
    destruct Hx as [->|Hvx]; [apply orb_true_r|].
    apply valid_ge_PAIR in Hvx. apply orb_true_iff. left. now apply Z.leb_le. }
  rewrite Hlist. cbn [negb]. rewrite Gq. cbn [car cdr negb andb].
  change (builtin (sym QUOTE)) with QUOTE.
  change ((SYMBOL =? SYMBOL) && builtinp (sym QUOTE)) with true.
  change ((QUOTE =? LET) || (QUOTE =? LETSTAR)) with false.
  change (QUOTE =? LAMBDA) with false.
  change (Z.shiftr (getminmax QUOTE) 6 =? SPECIAL_FORMS) with true.
  cbn [andb]. cbv beta iota.
  unfold bind at 1. unfold modify at 1.
  assert (Ec : checkargs fuel' args (with_Context QUOTE m) = Done tt (with_Context QUOTE m)).
  { unfold checkargs. subst fuel'. cbn [listlength].
    destruct (Z.eqb_spec args NULL) as [|_]; [contradiction|].
    unfold bind at 1. unfold bind at 1. unfold get_machine at 1.
    cbn [Workspace with_Context]. rewrite Hlist. cbn [negb]. rewrite Ga. cbn [cdr].
    change (NULL =? NULL) with true. cbv beta iota. unfold ret at 1.
    unfold bind at 1. unfold get_machine at 1. cbn [Context with_Context].
    reflexivity. }
  unfold bind at 1. rewrite Ec.
  unfold call_special.
  change (String.eqb (lookupfn QUOTE) "quote") with true. cbv beta iota.
  unfold sp_quote, rd_car. cbn [Workspace with_Context]. now rewrite Ga.
Qed.

End LispBadgeLE.

(** * Instances

    The properties above hold for every admissible placement of the arena.
    The instances below place it at 0x4000, where the SRAM of the
    AVR128DA48 begins. *)

Lemma base_aligned : 16384 mod 4 = 0.
Proof. reflexivity. Qed.

Lemma base_low : PAIR <= 16384.
Proof. unfold PAIR. lia. Qed.

Lemma base_high : 16384 + 4 * WORKSPACESIZE <= 65536.
Proof. unfold WORKSPACESIZE. lia. Qed.

Ltac layout := first [exact base_aligned | exact base_low | exact base_high].

Lemma power_on_length : length (Workspace power_on) = Z.to_nat WORKSPACESIZE.
Proof. apply repeat_length. Qed.

Lemma booted_inv : freelist_inv 16384 (initworkspace 16384 power_on).
Proof.
  apply freelist_inv_initworkspace;
    auto using base_aligned, base_low, base_high, power_on_length.
Qed.

(** Instance of C4: on the freshly initialised arena the list is not empty and
    [myalloc] hands out its head. *)
Lemma allocator_contract_witness :
  Freelist (initworkspace 16384 power_on) <> NULL /\
  exists l m',
    freechain 16384 (Workspace (initworkspace 16384 power_on))
      (Freelist (initworkspace 16384 power_on))
      (Freelist (initworkspace 16384 power_on) :: l) /\
    myalloc 16384 (initworkspace 16384 power_on)
      = Done (Freelist (initworkspace 16384 power_on)) m' /\
    Workspace m' = Workspace (initworkspace 16384 power_on) /\
    freechain 16384 (Workspace m') (Freelist m') l /\
    Freespace m' = Freespace (initworkspace 16384 power_on) - 1.
Proof.
  assert (Hne : Freelist (initworkspace 16384 power_on) <> NULL)
    by (vm_compute; discriminate).
  split; [exact Hne|].
  destruct (allocator_contract 16384) as [Halloc _]; try layout.
  exact (proj2 (Halloc (initworkspace 16384 power_on) booted_inv) Hne).
Defined.

(** Instance of C9: the invariant holds after [initworkspace] on a freshly
    started board. *)
Lemma Freespace_counts_Freelist_witness :
  freelist_inv 16384 (initworkspace 16384 power_on).
Proof.
  destruct (Freespace_counts_Freelist 16384) as [Hinit _]; try layout.
  exact (Hinit power_on eq_refl power_on_length).
Defined.


(** Instance of C8: [(+ 32767 1)] overflows, [(+ 20000 -5)] is 19995. *)
Lemma fn_add_overflow_checked_witness :
  fn_add 16384 3 16384 NULL (two_numbers_machine 16384 32767 1)
    = Error "arithmetic overflow"%string
        (with_GCStack NULL (two_numbers_machine 16384 32767 1)) /\
  exists p m',
    fn_add 16384 3 16384 NULL (two_numbers_machine 16384 20000 (-5)) = Done p m' /\
    holds_int 16384 (Workspace m') p 19995.
Proof.
  destruct (fn_add_overflow_checked 16384) as [Hover Hsum]; try layout.
  split.
  - apply (Hover _ 16384 NULL 3%nat 16392 16396 32767 1).
    + repeat (constructor; try reflexivity).
    + split; [reflexivity | split; [unfold INT_MIN, INT_MAX; lia | reflexivity]].
    + split; [reflexivity | split; [unfold INT_MIN, INT_MAX; lia | reflexivity]].
    + unfold INT_MIN, INT_MAX. lia.
    + lia.
  - apply (Hsum (two_numbers_machine 16384 20000 (-5)) 16384 NULL 3%nat
             [16392; 16396] [20000; -5]).
    + split; [reflexivity|]. exists [16400]. split; [|reflexivity].
      repeat (constructor; try reflexivity); discriminate.
    + discriminate.
    + repeat (constructor; try reflexivity).
    + repeat constructor; try reflexivity; unfold INT_MIN, INT_MAX; lia.
    + repeat constructor; unfold INT_MIN, INT_MAX; simpl; lia.
    + simpl. lia.
Defined.

Lemma reading_inv s : freelist_inv 16384 (reading 16384 s).
Proof. apply freelist_inv_reading. exact booted_inv. Qed.


(** The decimal digits are accumulated in a 16-bit [unsigned int] before the
    range test, so a magnitude from 2^16 on wraps before it is tested:
    [65536] reads as 0. *)
Lemma reader_decimal_wraps :
  exists p m',
    nextitem 16384 30 (reading 16384 "65536 ") = Done p m' /\
    holds_int 16384 (Workspace m') p 0.
Proof. apply returns_int_sound. vm_compute. reflexivity. Qed.


Lemma gc_example_ok :
  heap_ok 16384 (Workspace (gc_example 16384)) (gc_roots (gc_example 16384) NULL NULL).
Proof.
  apply heap_okb_sound with (objs := [16384; 16388; 16392; 16396; 16400]);
    try layout.
  vm_compute. reflexivity.
Qed.

(** Instance of C1: a collection on [gc_example] keeps the seven reachable
    cells and puts every other cell on the free list. *)
Lemma gc_sound_witness :
  exists m' fl,
    gc 16384 NULL NULL (gc_example 16384) = Some m' /\
    freechain 16384 (Workspace m') (Freelist m') fl /\
    (forall p, reachable 16384 (Workspace (gc_example 16384))
                 (gc_roots (gc_example 16384) NULL NULL) p ->
       getobj 16384 (Workspace m') p = getobj 16384 (Workspace (gc_example 16384)) p /\
       marked 16384 (Workspace m') p = false /\ ~ In p fl) /\
    (forall p, valid 16384 p ->
       ~ reachable 16384 (Workspace (gc_example 16384))
           (gc_roots (gc_example 16384) NULL NULL) p -> In p fl).
Proof.
  apply gc_sound; try layout. exact gc_example_ok.
Defined.

(** ** The evaluator *)

Lemma booted_fresh :
  initworkspace 16384 power_on =
  with_Freespace WORKSPACESIZE
    (with_Freelist (cell_addr 16384 0) (with_Workspace (fresh_arena 16384) power_on)).
Proof.
  apply initworkspace_closed; try layout; first [exact power_on_length | reflexivity].
Qed.





(** ** Instances of the further properties *)

Lemma env_example_inv : freelist_inv 16384 (env_example 16384).
Proof.
  split; [reflexivity|]. exists [16400; 16404]. split; [|reflexivity].
  repeat (constructor; try reflexivity); discriminate.
Qed.

(** Instance of X1: the board as it is switched on. *)
Lemma initworkspace_fresh_witness :
  initworkspace 16384 power_on =
  with_Freespace WORKSPACESIZE
    (with_Freelist (cell_addr 16384 0) (with_Workspace (fresh_arena 16384) power_on)).
Proof.
  apply initworkspace_fresh; try layout; first [exact power_on_length | reflexivity].
Defined.

(** Instance of X2: the name of the builtin [t]. *)
Lemma twist_untwist_inverse_witness :
  untwist (twist 64001) = 64001 /\ twist (untwist 64001) = 64001 /\
  0 <= twist 64001 < 65536.
Proof. apply twist_untwist_inverse. lia. Defined.

(** Instance of X3: [lambda]. *)
Lemma builtin_sym_inverse_witness :
  builtin (sym LAMBDA) = LAMBDA /\ builtinp (sym LAMBDA) = true /\
  longnamep (sym LAMBDA) = false.
Proof. apply builtin_sym_inverse. unfold LAMBDA, ENDFUNCTIONS. lia. Defined.

(** Instance of X4: the letter [A]. *)
Lemma radix40_characters_witness :
  toradix40 65 <= 39 /\ fromradix40 (toradix40 65) = tolower 65.
Proof. apply (proj1 radix40_characters); [lia | discriminate]. Defined.

(** Instance of X5: the name [x]. *)
Lemma packed_name_round_trip_witness :
  PACKEDS <= pack40 [120] < BUILTINS /\
  builtinp (twist (pack40 [120])) = false /\
  longnamep (twist (pack40 [120])) = false /\
  psymbol 16384 1 (twist (pack40 [120])) power_on = Done (map tolower (cstr [120])) power_on.
Proof.
  apply packed_name_round_trip.
  - repeat constructor; lia.
  - reflexivity.
  - cbn. lia.
Defined.

(** Instance of X6: [NOESC] on the flags of a board just switched on. *)
Lemma flags_set_clear_test_witness :
  tstflag NOESC (setflag NOESC power_on) = true /\
  tstflag NOESC (clrflag NOESC power_on) = false /\
  0 <= Flags (setflag NOESC power_on) < 256 /\
  0 <= Flags (clrflag NOESC power_on) < 256 /\
  (forall y, 0 <= y < 8 -> y <> NOESC ->
     tstflag y (setflag NOESC power_on) = tstflag y power_on /\
     tstflag y (clrflag NOESC power_on) = tstflag y power_on).
Proof. apply flags_set_clear_test; cbn; unfold NOESC; lia. Defined.

(** Instance of X7: a [cons] on [env_example], which has two free cells. *)
Lemma cons_allocates_witness :
  exists m',
    cons 16384 16388 NULL (env_example 16384) = Done (Freelist (env_example 16384)) m' /\
    valid 16384 (Freelist (env_example 16384)) /\
    getobj 16384 (Workspace m') (Freelist (env_example 16384)) = mkobj 16388 NULL /\
    (forall q, q <> Freelist (env_example 16384) ->
       getobj 16384 (Workspace m') q = getobj 16384 (Workspace (env_example 16384)) q) /\
    freelist_inv 16384 m' /\ Freespace m' = Freespace (env_example 16384) - 1 /\
    same_registers (env_example 16384) m'.
Proof.
  apply (proj1 (cons_allocates 16384 (env_example 16384) 16388 NULL env_example_inv)).
  discriminate.
Defined.

(** Instance of X8: the head of the free list of [env_example]. *)
Lemma myalloc_myfree_inverse_witness :
  exists m', myalloc 16384 (env_example 16384) = Done (Freelist (env_example 16384)) m' /\
             myfree 16384 (Freelist (env_example 16384)) m' = env_example 16384.
Proof.
  apply (proj1 (myalloc_myfree_inverse 16384 (env_example 16384) env_example_inv)).
  - discriminate.
  - reflexivity.
Defined.

(** Instance of X9: protecting the environment of [env_example]. *)
Lemma protect_unprotect_witness :
  exists m1 m2,
    protect 16384 16396 (env_example 16384) = Done tt m1 /\
    unprotect 16384 m1 = Done tt m2 /\
    GCStack m1 = Freelist (env_example 16384) /\
    getobj 16384 (Workspace m1) (GCStack m1) = mkobj 16396 (GCStack (env_example 16384)) /\
    GCStack m2 = GCStack (env_example 16384) /\ Workspace m2 = Workspace m1 /\
    (forall q, q <> Freelist (env_example 16384) ->
       getobj 16384 (Workspace m2) q = getobj 16384 (Workspace (env_example 16384)) q).
Proof.
  apply (protect_unprotect 16384 (env_example 16384) 16396 env_example_inv).
  discriminate.
Defined.

(** Instance of X10: the symbol [x] is in [env_example], a symbol [y] is
    not. *)
Lemma intern_unique_witness :
  exists p m',
    intern 16384 (twist (pack40 [121])) (env_example 16384) = Done p m' /\
    valid 16384 p /\
    getobj 16384 (Workspace m') p = mkobj SYMBOL (twist (pack40 [121])) /\
    intern 16384 (twist (pack40 [121])) m' = Done p m' /\
    (forall q, q <> Freelist (env_example 16384) ->
       getobj 16384 (Workspace m') q = getobj 16384 (Workspace (env_example 16384)) q) /\
    ((exists q, valid 16384 q /\
        getobj 16384 (Workspace (env_example 16384)) q
        = mkobj SYMBOL (twist (pack40 [121]))) -> m' = env_example 16384).
Proof.
  apply (intern_unique 16384 (env_example 16384) (twist (pack40 [121])) env_example_inv).
  discriminate.
Defined.

(** Instance of X12: [CAR] and [car]. *)
Lemma lookupbuiltin_ignores_case_witness :
  lookupbuiltin [67; 65; 82] = lookupbuiltin [99; 97; 114].
Proof. apply lookupbuiltin_ignores_case. reflexivity. Defined.

(** Instance of X13: 255 in base 16. *)
Lemma pintbase_digits_read_back_witness :
  exists ds,
    pintbase 255 16 = Some ds /\ ds <> [] /\
    Forall (digit_in 16) ds /\ digits_value 16 ds 0 = 255.
Proof. apply pintbase_digits_read_back; [auto | lia]. Defined.

(** Instance of X14: [-123]. *)
Lemma pint_read_back_witness :
  exists p m',
    nextitem 16384 30 (with_Source [45; 49; 50; 51; 32] (env_example 16384)) = Done p m' /\
    holds_int 16384 (Workspace m') p (-123).
Proof.
  apply (pint_read_back 16384 base_low
           (with_Source [45; 49; 50; 51; 32] (env_example 16384)) 30 (-123)
           [45; 49; 50; 51] 32 []).
  - exact env_example_inv.
  - discriminate.
  - reflexivity.
  - unfold INT_MIN, INT_MAX. lia.
  - reflexivity.
  - reflexivity.
  - reflexivity.
  - lia.
Defined.

(** Instance of X15: [x] in the environment [((x . 1))] of [env_example]. *)
Lemma lookup_finds_innermost_witness :
  value 16384 5 (cdr (getobj 16384 (Workspace (env_example 16384)) 16384)) 16396
    (env_example 16384)
  = Done (first_binding 16384 (Workspace (env_example 16384))
            (cdr (getobj 16384 (Workspace (env_example 16384)) 16384)) [16392])
      (env_example 16384) /\
  findvalue 16384 5 16384 16396 (env_example 16384) =
  (if first_binding 16384 (Workspace (env_example 16384))
        (cdr (getobj 16384 (Workspace (env_example 16384)) 16384)) ([16392] ++ []) =? NULL
   then Error "unknown variable"%string (with_GCStack NULL (env_example 16384))
   else Done (first_binding 16384 (Workspace (env_example 16384))
                (cdr (getobj 16384 (Workspace (env_example 16384)) 16384)) ([16392] ++ []))
          (env_example 16384)).
Proof.
  apply (lookup_finds_innermost 16384 base_low (env_example 16384) 5 16384 16396
           [16396] [16392] [] []).
  - change [16392] with [car (getobj 16384 (Workspace (env_example 16384)) 16396)].
    constructor; [reflexivity|]. constructor.
  - constructor.
  - cbn. lia.
  - cbn. lia.
Defined.

(** Instance of X16: the environment of [env_example] is a list of one
    cell. *)
Lemma listlength_proper_or_error_witness :
  listlength 16384 5 16396 0 (env_example 16384) = Done 1 (env_example 16384).
Proof.
  assert (S : spine 16384 (Workspace (env_example 16384)) 16396 [16396] NULL).
  { constructor; [discriminate|]. exact (spine_end 16384 _ NULL). }
  assert (L : Forall (fun c => listp 16384 (Workspace (env_example 16384)) c = true) [16396])
    by (repeat constructor).
  apply (proj1 (listlength_proper_or_error 16384 (env_example 16384) 5 16396
                  [16396] NULL S L ltac:(cbn; lia))).
  reflexivity.
Defined.

(** Instance of X18: on [gc_example] seven cells are reachable. *)
Lemma gc_free_count_witness :
  exists m' live,
    gc 16384 NULL NULL (gc_example 16384) = Some m' /\
    NoDup live /\
    (forall p, In p live <->
       reachable 16384 (Workspace (gc_example 16384))
         (gc_roots (gc_example 16384) NULL NULL) p) /\
    Freespace m' = WORKSPACESIZE - Z.of_nat (length live).
Proof. apply gc_free_count; try layout. exact gc_example_ok. Defined.


(** Instance of X11: row 17 is [defvar]; the name [nosuchname] is in no
    row. *)
Lemma lookupbuiltin_finds_every_row_witness :
  lookupbuiltin (pbuiltin 17) = 17 /\
  (lookupbuiltin (codes "nosuchname") = ENDFUNCTIONS \/
   0 <= lookupbuiltin (codes "nosuchname") < 256).
Proof.
  split.
  - apply (proj1 lookupbuiltin_finds_every_row). lia.
  - apply (proj2 lookupbuiltin_finds_every_row).
Defined.

Lemma string_example_inv : freelist_inv 16384 (string_example 16384).
Proof.
  split; [reflexivity|]. exists [16396; 16400; 16404; 16408]. split; [|reflexivity].
  repeat (constructor; try reflexivity); discriminate.
Qed.

(** Instance of X20: the text a, backslash, b gives the string ab in two
    cells. *)
Lemma lispstring_builds_witness :
  exists m',
    lispstring 16384 (codes "a\b") (string_example 16384) = Done 16396 m' /\
    printstring 16384 3 (Workspace m') false 16396 = Some (codes "ab") /\
    Freespace m' = 2.
Proof.
  destruct (lispstring_builds 16384 base_aligned base_low (string_example 16384)
              (codes "a\b") (codes "ab") string_example_inv)
    as (m' & E & _ & Hp & _ & Hfs & _).
  - change (Forall (fun c => 1 <= c < 128) [97; 92; 98]).
    repeat (apply Forall_cons; [lia|]). apply Forall_nil.
  - reflexivity.
  - vm_compute. discriminate.
  - exists m'. split; [exact E|]. split; [|exact Hfs].
    apply Hp. cbn. lia.
Defined.

(** Instance of X21: the string of [string_example], printed and read
    again. *)
Lemma printstring_read_back_witness :
  exists m',
    nextitem 16384 10 (with_Source [34; 97; 92; 34; 98; 34; 32] (string_example 16384))
    = Done 16396 m' /\
    printstring 16384 3 (Workspace m') false 16396 = Some [97; 34; 98] /\
    Source m' = [32].
Proof.
  destruct (printstring_read_back 16384 base_aligned base_low 3
              (Workspace (string_example 16384)) 16384 [97; 34; 98]
              [34; 97; 92; 34; 98; 34]
              (with_Source [34; 97; 92; 34; 98; 34; 32] (string_example 16384)) [32] 10)
    as (m' & E & _ & Hp & HS & _).
  - vm_compute. reflexivity.
  - vm_compute. reflexivity.
  - repeat (apply Forall_cons; [lia|]). apply Forall_nil.
  - exact string_example_inv.
  - reflexivity.
  - reflexivity.
  - vm_compute. discriminate.
  - cbn. lia.
  - exists m'. split; [exact E|]. split; [|exact HS].
    apply Hp. cbn. lia.
Defined.

Lemma globals_example_free :
  freechain 16384 (Workspace (globals_example 16384)) (Freelist (globals_example 16384))
    [16416; 16420; 16424; 16428; 16432].
Proof. repeat (constructor; try reflexivity); discriminate. Qed.

Lemma globals_example_inv : freelist_inv 16384 (globals_example 16384).
Proof.
  split; [reflexivity|]. exists [16416; 16420; 16424; 16428; 16432].
  split; [exact globals_example_free|reflexivity].
Qed.

Lemma globals_example_genv :
  genv_ok 16384 (Workspace (globals_example 16384)) [16416; 16420; 16424; 16428; 16432]
    (GlobalEnv (globals_example 16384)) [16396] [16392].
Proof.
  split; [|split].
  - change [16392] with [car (getobj 16384 (Workspace (globals_example 16384)) 16396)].
    constructor; [reflexivity|]. constructor.
  - intros c [<-|[]]. vm_compute. intuition discriminate.
  - intros p [<-|[]]. unfold in_use.
    split; [split; [reflexivity|vm_compute; intuition discriminate]|].
    split; [split; [reflexivity|vm_compute; intuition discriminate]|reflexivity].
Qed.

(** Instance of X22: [(defun f ())] on [globals_example]; [x] is still
    bound by the pair at 16392. *)
Lemma defun_then_lookup_witness :
  exists m' pair,
    sp_defun 16384 5 16404 NULL (globals_example 16384) = Done 16400 m' /\
    value 16384 6 36865 (GlobalEnv m') m' = Done pair m' /\
    pair <> NULL /\
    cdr (getobj 16384 (Workspace m') (cdr (getobj 16384 (Workspace m') pair))) = 16408 /\
    value 16384 6 20995 (GlobalEnv m') m' = Done 16392 m'.
Proof.
  destruct (defun_then_lookup 16384 base_low (globals_example 16384) 5 16404 NULL
              [16416; 16420; 16424; 16428; 16432] [16396] [16392])
    as (m' & pair & E & _ & _ & Ev & Hn & _ & Hb & Ho & _).
  - exact globals_example_inv.
  - exact globals_example_free.
  - cbn. lia.
  - intros q Hq. cbn [In] in Hq.
    destruct Hq as [<-|[<-|[<-|[<-|[<-|[]]]]]]; reflexivity.
  - exact globals_example_genv.
  - split; [reflexivity|vm_compute; intuition discriminate].
  - split; [reflexivity|vm_compute; intuition discriminate].
  - reflexivity.
  - cbn. lia.
  - exists m', pair. split; [exact E|]. split; [exact Ev|]. split; [exact Hn|].
    split; [exact Hb|].
    assert (Hne : 20995 <> cdr (getobj 16384 (Workspace (globals_example 16384))
                                  (car (getobj 16384 (Workspace (globals_example 16384)) 16404))))
      by (vm_compute; discriminate).
    exact (proj1 (Ho 20995 Hne)).
Defined.

(** Instance of X23: [(defvar f)] on [globals_example] binds [f] to
    [nil]. *)
Lemma defvar_then_lookup_witness :
  exists m' pair,
    sp_defvar 16384 (fun form _ => ret form) 5 16412 NULL (globals_example 16384)
    = Done 16400 m' /\
    value 16384 6 36865 (GlobalEnv m') m' = Done pair m' /\
    pair <> NULL /\
    cdr (getobj 16384 (Workspace m') pair) = NULL.
Proof.
  destruct (defvar_then_lookup 16384 base_low (fun form _ => ret form)
              (globals_example 16384) 5 16412 NULL NULL (globals_example 16384)
              [16416; 16420; 16424; 16428; 16432] [16396] [16392])
    as (m' & pair & E & _ & _ & Ev & Hn & Hb & _).
  - reflexivity.
  - split; reflexivity.
  - exact globals_example_inv.
  - exact globals_example_free.
  - cbn. lia.
  - exact globals_example_genv.
  - split; [reflexivity|vm_compute; intuition discriminate].
  - reflexivity.
  - cbn. lia.
  - exists m', pair. split; [exact E|]. split; [exact Ev|]. split; [exact Hn|exact Hb].
Defined.

(** Instance of X24: [(quote 7)] on [quote_example] gives the number cell
    at 16396. *)
Lemma eval_quote_witness :
  eval 16384 3 0 0 16388 NULL (quote_example 16384)
  = Done 16396 (with_Context QUOTE (quote_example 16384)).
Proof.
  apply (eval_quote 16384 base_low (quote_example 16384) 0 0 0 16388 NULL
           16384 16392 16396).
  - cbn. lia.
  - reflexivity.
  - reflexivity.
  - right. reflexivity.
  - reflexivity.
  - reflexivity.
  - reflexivity.
  - reflexivity.
  - reflexivity.
  - reflexivity.
  - right. reflexivity.
Defined.
